(** * Podcast video generator: the POST /generate-podcast pipeline of server.js

    A shallow embedding of the request handler and of the helpers it
    calls.  Text is a Rocq [string] (the bytes of the UTF-8 encoding), a
    JavaScript number is a binary64 value of [spec_float], a value decoded
    from JSON is a [jsval].  The handler is a function of the request and
    of a [world] that answers every call leaving the process (HTTP, file
    system, ffmpeg, uuid); it returns the ordered trace of what it did. *)

From Stdlib Require Import ZArith List String Ascii Bool Lia Sorted Permutation.
From Stdlib Require Import Floats.SpecFloat.
Import ListNotations.
Local Open Scope string_scope.
Local Open Scope list_scope.

(** ** JavaScript numbers *)

Module JsNumber.

Definition number := spec_float.

Definition prec : Z := 53.
Definition emax : Z := 1024.

(** [Number.isNaN], [Number.isFinite] on a value that is a number. *)
Definition isNaN (x : number) : bool :=
  match x with S754_nan => true | _ => false end.

Definition isFinite (x : number) : bool :=
  match x with S754_zero _ | S754_finite _ _ _ => true | _ => false end.

(** ToBoolean of a number: false for +0, -0 and NaN. *)
Definition truthy (x : number) : bool :=
  match x with S754_zero _ | S754_nan => false | _ => true end.

(** [x > y]. *)
Definition gt (x y : number) : bool := SFltb y x.

Definition zero : number := S754_zero false.

(** The literal [5]. *)
Definition five : number := S754_finite false 5629499534213120 (-50).

(** The number nearest to [(-1)^neg * m * 10^e] (ties to even), the value
    a decimal literal denotes. *)
Definition of_decimal (neg : bool) (m : N) (e : Z) : number :=
  match m with
  | N0 => S754_zero neg
  | Npos p =>
      let num := (Zpos p * 10 ^ Z.max e 0)%Z in
      let den := (10 ^ Z.max (- e) 0)%Z in
      match num, den with
      | Zpos n, Zpos d =>
          SFdiv prec emax (S754_finite neg n 0) (S754_finite false d 0)
      | _, _ => S754_nan
      end
  end.

End JsNumber.

(** ** JavaScript strings *)

Module JsString.

Definition is_upper (c : ascii) : bool :=
  let n := nat_of_ascii c in (65 <=? n)%nat && (n <=? 90)%nat.

Definition lower_char (c : ascii) : ascii :=
  if is_upper c then ascii_of_nat (nat_of_ascii c + 32) else c.

(** [s.toLowerCase()].  Only A-Z change; a byte of a multi-byte UTF-8
    sequence is kept, and no character outside ASCII lower-cases to one of
    the letters w, o, m, a, n. *)
Fixpoint toLowerCase (s : string) : string :=
  match s with
  | EmptyString => EmptyString
  | String c s' => String (lower_char c) (toLowerCase s')
  end.

(** [s.includes(t)]. *)
Fixpoint includes (s t : string) : bool :=
  if prefix t s then true
  else match s with
       | EmptyString => false
       | String _ s' => includes s' t
       end.

Definition is_digit (c : ascii) : bool :=
  let n := nat_of_ascii c in (48 <=? n)%nat && (n <=? 57)%nat.

Definition digit_val (c : ascii) : N := N.of_nat (nat_of_ascii c - 48).

(** The longest run of decimal digits at the front, as (count, value, rest). *)
Fixpoint take_digits (s : string) (count : nat) (acc : N) : nat * N * string :=
  match s with
  | String c s' =>
      if is_digit c then take_digits s' (S count) (acc * 10 + digit_val c)%N
      else (count, acc, s)
  | EmptyString => (count, acc, s)
  end.

(** Length in bytes of the white space or line terminator at the front
    (TAB, LF, VT, FF, CR, SP, and in UTF-8: NBSP, U+1680, U+2000-200A,
    U+2028, U+2029, U+202F, U+205F, U+3000, U+FEFF); 0 when there is none. *)
Definition white_len (s : string) : nat :=
  match s with
  | String c r =>
      let n := nat_of_ascii c in
      if ((9 <=? n) && (n <=? 13) || (n =? 32))%nat then 1%nat
      else match r with
           | String c2 r2 =>
               let n2 := nat_of_ascii c2 in
               if ((n =? 194) && (n2 =? 160))%nat then 2%nat
               else match r2 with
                    | String c3 _ =>
                        let n3 := nat_of_ascii c3 in
                        if ((n =? 225) && (n2 =? 154) && (n3 =? 128)
                            || (n =? 226) && (n2 =? 128)
                               && ((128 <=? n3) && (n3 <=? 138)
                                   || (n3 =? 168) || (n3 =? 169) || (n3 =? 175))
                            || (n =? 226) && (n2 =? 129) && (n3 =? 159)
                            || (n =? 227) && (n2 =? 128) && (n3 =? 128)
                            || (n =? 239) && (n2 =? 187) && (n3 =? 191))%nat
                        then 3%nat else 0%nat
                    | EmptyString => 0%nat
                    end
           | EmptyString => 0%nat
           end
  | EmptyString => 0%nat
  end.

Fixpoint drop (n : nat) (s : string) : string :=
  match n, s with
  | S n', String _ s' => drop n' s'
  | _, _ => s
  end.

(** TrimString(s, start); [fuel] bounds the number of characters removed. *)
Fixpoint trimStart_fuel (fuel : nat) (s : string) : string :=
  match fuel with
  | O => s
  | S fuel' =>
      match white_len s with
      | O => s
      | k => trimStart_fuel fuel' (drop k s)
      end
  end.

Definition trimStart (s : string) : string := trimStart_fuel (length s) s.

(** The exponent part [e|E (+|-)? digits] at the front; 0 when the front
    is not a complete exponent part. *)
Definition exponent_part (s : string) : Z :=
  match s with
  | String c r =>
      if Ascii.eqb c "e" || Ascii.eqb c "E" then
        let '(neg, r') :=
          match r with
          | String "-" r1 => (true, r1)
          | String "+" r1 => (false, r1)
          | _ => (false, r)
          end in
        let '(k, v, _) := take_digits r' 0 0 in
        match k with
        | O => 0%Z
        | _ => if neg then (- Z.of_N v)%Z else Z.of_N v
        end
      else 0%Z
  | EmptyString => 0%Z
  end.

(** The value of the longest prefix that is a StrUnsignedDecimalLiteral,
    with the sign [neg]; NaN when no prefix is one. *)
Definition unsigned_literal (neg : bool) (s : string) : JsNumber.number :=
  if prefix "Infinity" s then S754_infinity neg
  else
    let '(ki, vi, r) := take_digits s 0 0 in
    let '(kf, v, r') :=
      match r with
      | String "." rf => take_digits rf 0 vi
      | _ => (O, vi, r)
      end in
    match (ki + kf)%nat with
    | O => S754_nan
    | _ => JsNumber.of_decimal neg v (exponent_part r' - Z.of_nat kf)
    end.

(** [Number.parseFloat(s)]. *)
Definition parseFloat (s : string) : JsNumber.number :=
  match trimStart s with
  | String "-" r => unsigned_literal true r
  | String "+" r => unsigned_literal false r
  | t => unsigned_literal false t
  end.

End JsString.

Import JsNumber JsString.

(** ** Values decoded from JSON *)

Set Warnings "-register-all".

Inductive jsval : Type :=
| JUndefined
| JNull
| JBool (b : bool)
| JNum (x : number)
| JStr (s : string)
| JArr (items : list jsval)
| JObj (fields : list (string * jsval)).

Module JsVal.

(** ToBoolean: [!v] is [negb (truthy v)]. *)
Definition truthy (v : jsval) : bool :=
  match v with
  | JUndefined | JNull => false
  | JBool b => b
  | JNum x => JsNumber.truthy x
  | JStr s => negb (s =? EmptyString)
  | JArr _ | JObj _ => true
  end.

Fixpoint lookup (k : string) (fields : list (string * jsval)) : jsval :=
  match fields with
  | [] => JUndefined
  | (k', v) :: rest => if k' =? k then v else lookup k rest
  end.

(** [v.k] for a [v] that is neither null nor undefined and a name [k] that
    no prototype defines (speaker, line, candidates, content, parts, text,
    audioContent): the own property of an object, undefined otherwise.
    The fields of a parsed object have distinct names. *)
Definition get (v : jsval) (k : string) : jsval :=
  match v with
  | JObj fields => lookup k fields
  | _ => JUndefined
  end.

Definition nullish (v : jsval) : bool :=
  match v with JUndefined | JNull => true | _ => false end.

(** [v?.k] *)
Definition opt_get (v : jsval) (k : string) : jsval :=
  if nullish v then JUndefined else get v k.

(** [Number.isNaN(v)]: no coercion, false on what is not a number. *)
Definition Number_isNaN (v : jsval) : bool :=
  match v with JNum x => JsNumber.isNaN x | _ => false end.

(** ToBoolean of [v.length] for a truthy [v]. *)
Definition length_truthy (v : jsval) : bool :=
  match v with
  | JArr items => negb (Nat.eqb (List.length items) 0)
  | JStr s => negb (s =? EmptyString)
  | JObj fields => truthy (lookup "length" fields)
  | _ => false
  end.

(** [v[0]] for a truthy [v]. *)
Definition first (v : jsval) : jsval :=
  match v with
  | JArr items => hd JUndefined items
  | JStr (String c _) => JStr (String c EmptyString)
  | JObj fields => lookup "0" fields
  | _ => JUndefined
  end.

End JsVal.

(** ToBoolean of a form field: absent or the empty string is falsy. *)
Definition field_truthy (f : option string) : bool :=
  match f with
  | Some s => negb (s =? EmptyString)
  | None => false
  end.

(** ** Files, prompt parts, events *)

Inductive speaker : Type := man | woman.

Definition speaker_name (sp : speaker) : string :=
  match sp with man => "man" | woman => "woman" end.

(** The files of a run, by the way their names are built. *)
Inductive path : Type :=
| UploadPath (name : string)             (* UPLOAD_DIR/<name>, named by multer *)
| SourcePath (sp : speaker) (u : string) (* WORK_DIR/<speaker>_<uuid>.mp4 *)
| AudioPath (u : string) (n : nat)       (* WORK_DIR/<uuid>_line_<n>.mp3;
                                            sanitizeFileName keeps line_<n>.mp3 *)
| ClipPath (u : string) (n : nat)        (* WORK_DIR/<uuid>_clip_<n>.mp4 *)
| ManifestPath (u : string)              (* WORK_DIR/concat_<uuid>.txt *)
| OutputPath (u : string).               (* OUTPUT_DIR/podcast_<uuid>.mp4 *)

(** A piece of a template literal: text, or an interpolated number. *)
Inductive piece : Type :=
| Lit (s : string)
| Interp (x : number).

Inductive part : Type :=
| TextPart (text : list piece)
| InlineData (mime_type data : string).

(** What [VIDEO_LIBRARY[speaker]?.[libraryKey]] or a default gives. *)
Inductive urlval : Type :=
| Url (s : string)
| Inherited (key : string).   (* a member of Object.prototype *)

Inductive call : Type :=
| Call_prepareTopicParts
| Call_callGemini
| Call_resolveVideoSource (sp : speaker)
| Call_synthesizeSpeech (text : jsval) (voice : option string) (out : path)
| Call_getMediaDuration (p : path)
| Call_loopVideoWithAudio (video audio : path) (duration : jsval) (out : path)
| Call_concatenateClips (clips : list path) (out : path)
| Call_cleanupFiles (paths : list path).

Inductive body : Type :=
| JsonDownloadUrl (downloadUrl : string)
| JsonError (error : string).

Inductive event : Type :=
| EvCall (c : call)                        (* the handler calls a helper *)
| EvPush (ps : list path)                  (* cleanupPaths.push(...ps) *)
| EvFetchTranscript (url : string)
| EvReadFile (p : path)
| EvPostGemini (apiKey : option string) (parts : list part)
| EvPostTts (apiKey : option string) (text : jsval) (languageCode : string)
    (voice : option string)
| EvCreateWriteStream (p : path)
| EvHttpGet (url : urlval)
| EvWriteFile (p : path)
| EvFfprobe (p : path)
| EvFfmpegSave (out : path)
| EvUnlink (p : path)                      (* fsp.unlink(p) is called *)
| EvUnlinkSettled (p : path)               (* its promise settles *)
| EvRespond (status : nat) (b : body)
| EvSetTimeout (ms : N)
| EvTimeout (ms : N).                    (* the timer fires *)

Inductive outcome (A : Type) : Type :=
| Returned (a : A)
| Thrown (message : string).
Arguments Returned {A} a.
Arguments Thrown {A} message.

(** Everything outside the process, as the run sees it. *)
Record world : Type := {
  uuidv4 : nat -> string;                  (* the n-th token drawn in the run *)
  env_DEFAULT_MAN_VIDEO_URL : option string;
  env_DEFAULT_WOMAN_VIDEO_URL : option string;
  (* the joined transcript; None when the fetch throws or has no items *)
  fetchTranscript : string -> option string;
  mime_lookup : path -> option string;     (* None for [false] *)
  readFile_base64 : path -> outcome string;
  axios_post_gemini : option string -> list part -> outcome jsval; (* response.data *)
  JSON_parse : jsval -> outcome jsval;
  axios_post_tts : option string -> jsval -> string -> option string -> outcome jsval;
  Buffer_from_base64 : jsval -> outcome unit;
  writeFile : path -> outcome unit;
  axios_get_stream : urlval -> outcome unit;
  pipe_to_disk : path -> outcome unit;
  (* metadata.format.duration, whatever it is; [probe_as_parsed] says what
     fluent-ffmpeg can deliver *)
  ffprobe_duration : path -> outcome jsval;
  ffmpeg_loop : path -> path -> number -> path -> outcome unit;
  ffmpeg_concat : path -> list path -> path -> outcome unit
}.

(** ** The run monad: state, trace and exceptions *)

Record state : Type := {
  cleanupPaths : list path;
  drawn : nat                              (* uuidv4() calls so far *)
}.

Definition M (A : Type) : Type := state -> list event * state * outcome A.

Definition ret {A} (a : A) : M A := fun s => ([], s, Returned a).

Definition bind {A B} (m : M A) (f : A -> M B) : M B :=
  fun s =>
    let '(t1, s1, r) := m s in
    match r with
    | Returned a => let '(t2, s2, r2) := f a s1 in (t1 ++ t2, s2, r2)
    | Thrown msg => (t1, s1, Thrown msg)
    end.

Declare Scope run_scope.
Delimit Scope run_scope with run.
Notation "x <- m ;; k" := (bind m (fun x => k))
  (at level 61, m at next level, right associativity) : run_scope.
Notation "m ;; k" := (bind m (fun _ => k))
  (at level 61, right associativity) : run_scope.
Local Open Scope run_scope.

Definition throw {A} (msg : string) : M A := fun s => ([], s, Thrown msg).

Definition emit (e : event) : M unit := fun s => ([e], s, Returned tt).

Definition lift {A} (r : outcome A) : M A := fun s => ([], s, r).

Definition fresh_uuid (w : world) : M string :=
  fun s => ([], {| cleanupPaths := cleanupPaths s; drawn := S (drawn s) |},
            Returned (uuidv4 w (drawn s))).

Definition push (ps : list path) : M unit :=
  fun s => ([EvPush ps],
            {| cleanupPaths := cleanupPaths s ++ ps; drawn := drawn s |},
            Returned tt).

(** ** Helpers of server.js *)

Definition DEFAULT_MAN_VIDEO_URL (w : world) : string :=
  match env_DEFAULT_MAN_VIDEO_URL w with
  | Some (String c r) => String c r
  | _ => "https://YOUR_DEFAULT_MAN_VIDEO_URL/man-default.mp4"
  end.

Definition DEFAULT_WOMAN_VIDEO_URL (w : world) : string :=
  match env_DEFAULT_WOMAN_VIDEO_URL w with
  | Some (String c r) => String c r
  | _ => "https://YOUR_DEFAULT_MAN_VIDEO_URL/woman-default.mp4"
  end.

(** The own property names of Object.prototype, which every object literal
    inherits. *)
Definition Object_prototype_names : list string :=
  ["constructor"; "__defineGetter__"; "__defineSetter__"; "hasOwnProperty";
   "__lookupGetter__"; "__lookupSetter__"; "isPrototypeOf";
   "propertyIsEnumerable"; "toString"; "valueOf"; "__proto__";
   "toLocaleString"].

(** [VIDEO_LIBRARY[speaker]?.[libraryKey]]; None for undefined. *)
Definition VIDEO_LIBRARY (sp : speaker) (libraryKey : string) : option urlval :=
  match sp with
  | man =>
      if libraryKey =? "studio"
      then Some (Url "https://YOUR_DEFAULT_MAN_VIDEO_URL/library/man-studio.mp4")
      else if libraryKey =? "office"
      then Some (Url "https://YOUR_DEFAULT_MAN_VIDEO_URL/library/man-office.mp4")
      else if existsb (String.eqb libraryKey) Object_prototype_names
      then Some (Inherited libraryKey) else None
  | woman =>
      if libraryKey =? "studio"
      then Some (Url "https://YOUR_DEFAULT_MAN_VIDEO_URL/library/woman-studio.mp4")
      else if libraryKey =? "office"
      then Some (Url "https://YOUR_DEFAULT_MAN_VIDEO_URL/library/woman-office.mp4")
      else if existsb (String.eqb libraryKey) Object_prototype_names
      then Some (Inherited libraryKey) else None
  end.

(** The events of one [cleanupFiles(filePaths)] call: every unlink is
    issued while the call runs, in the order of the list, and settles on a
    later turn of the loop.  The unlinks settle in an order of their own;
    [cleanupFiles_settle] lists them in one admissible order, that of the
    list, and what is stated of the settlements of the deferred cleanup is
    stated up to their order. *)
Definition cleanupFiles_issue (filePaths : list path) : list event :=
  EvCall (Call_cleanupFiles filePaths) :: map EvUnlink filePaths.

Definition cleanupFiles_settle (filePaths : list path) : list event :=
  map EvUnlinkSettled filePaths.

(** Lines 75-93, for a call that settles: the request or the copy to disk
    fails, or the writer finishes.  A response stream that breaks off
    without an error of the writer leaves the promise pending (there is no
    timeout); such a call, and the request it belongs to, has no run here. *)
Definition downloadFile (w : world) (url : urlval) (targetPath : path) : M path :=
  emit (EvCreateWriteStream targetPath) ;;
  emit (EvHttpGet url) ;;
  lift (axios_get_stream w url) ;;
  lift (pipe_to_disk w targetPath) ;;
  ret targetPath.

Definition dquote : string := String (ascii_of_nat 34) EmptyString.

Definition intro_before : string :=
  "You are a podcast creator. Generate an engaging, interesting, and detailed conversation script between a "
  ++ dquote ++ "Man" ++ dquote ++ " and a " ++ dquote ++ "Woman" ++ dquote
  ++ " about the provided topic. The conversation should be unique and last for approximately ".

Definition intro_after : string :=
  " minutes. Format the output as a JSON array like [{ "
  ++ dquote ++ "speaker" ++ dquote ++ ": " ++ dquote ++ "Man" ++ dquote ++ ", "
  ++ dquote ++ "line" ++ dquote ++ ": " ++ dquote ++ "..." ++ dquote ++ " }, { "
  ++ dquote ++ "speaker" ++ dquote ++ ": " ++ dquote ++ "Woman" ++ dquote ++ ", "
  ++ dquote ++ "line" ++ dquote ++ ": " ++ dquote ++ "..." ++ dquote ++ " }].".

Definition intro (podcastLength : number) : part :=
  TextPart [Lit intro_before; Interp podcastLength; Lit intro_after].

Definition prepareTopicParts (w : world) (topicText youtubeUrl : option string)
    (topicFilePath : option path) (podcastLength : number) : M (list part) :=
  let parts := [intro podcastLength] in
  let parts :=
    match topicText with
    | Some (String c r) =>
        parts ++ [TextPart [Lit ("Plain text topic provided by the user: " ++ String c r)]]
    | _ => parts
    end in
  parts <-
    match youtubeUrl with
    | Some (String c r) =>
        let url := String c r in
        emit (EvFetchTranscript url) ;;
        match fetchTranscript w url with
        | Some (String c' r') =>
            ret (parts ++ [TextPart [Lit ("YouTube transcript extracted from " ++ url
                                          ++ ": " ++ String c' r')]])
        | _ =>
            ret (parts ++ [TextPart [Lit ("A YouTube URL was provided (" ++ url
              ++ ") but no transcript could be extracted. Base the conversation on the rest of the supplied materials.")]])
        end
    | _ => ret parts
    end ;;
  parts <-
    match topicFilePath with
    | Some p =>
        let mimeType :=
          match mime_lookup w p with
          | Some (String c r) => String c r
          | _ => "application/octet-stream"
          end in
        emit (EvReadFile p) ;;
        base64Data <- lift (readFile_base64 w p) ;;
        ret (parts ++ [InlineData mimeType base64Data])
    | None => ret parts
    end ;;
  if Nat.eqb (List.length parts) 1
  then ret (parts ++ [TextPart [Lit "No additional context was provided. Create an original conversation based on your own knowledge."]])
  else ret parts.

(** [parts.find((part) => part.text)] on an array. *)
Fixpoint find_text (items : list jsval) : M jsval :=
  match items with
  | [] => ret JUndefined
  | item :: rest =>
      match item with
      | JUndefined => throw "Cannot read properties of undefined (reading 'text')"
      | JNull => throw "Cannot read properties of null (reading 'text')"
      | _ =>
          if JsVal.truthy (JsVal.get item "text") then ret item
          else find_text rest
      end
  end.

Definition callGemini (w : world) (apiKey : option string) (parts : list part)
    : M (list jsval) :=
  emit (EvPostGemini apiKey parts) ;;
  data <- lift (axios_post_gemini w apiKey parts) ;;
  let candidates := JsVal.opt_get data "candidates" in
  if negb (JsVal.truthy candidates) || negb (JsVal.length_truthy candidates)
  then throw "Gemini returned no candidates."
  else
    textPart <-
      (let content := JsVal.opt_get (JsVal.first candidates) "content" in
       let cparts := JsVal.opt_get content "parts" in
       match cparts with
       | JUndefined | JNull => ret JUndefined
       | JArr items => find_text items
       | _ => throw "candidates[0]?.content?.parts?.find is not a function"
       end) ;;
    if negb (JsVal.truthy textPart) || negb (JsVal.truthy (JsVal.get textPart "text"))
    then throw "Gemini response did not include text content."
    else
      match JSON_parse w (JsVal.get textPart "text") with
      | Thrown _ =>
          throw "Failed to parse Gemini response as JSON. Ensure the model is instructed to output valid JSON."
      | Returned (JArr script) => ret script
      | Returned _ => throw "Gemini response JSON is not an array."
      end.

Definition synthesizeSpeech (w : world) (apiKey : option string) (text : jsval)
    (languageCode : string) (voiceName : option string) (outputPath : path) : M path :=
  emit (EvPostTts apiKey text languageCode voiceName) ;;
  data <- lift (axios_post_tts w apiKey text languageCode voiceName) ;;
  let audioContent := JsVal.opt_get data "audioContent" in
  if negb (JsVal.truthy audioContent)
  then throw "Text-to-Speech response missing audioContent."
  else
    lift (Buffer_from_base64 w audioContent) ;;
    emit (EvWriteFile outputPath) ;;
    lift (writeFile w outputPath) ;;
    ret outputPath.

Definition getMediaDuration (w : world) (filePath : path) : M jsval :=
  emit (EvFfprobe filePath) ;;
  lift (ffprobe_duration w filePath).

(** [durationSeconds.toFixed(3)] is evaluated before ffmpeg is started; only
    a number has [toFixed]. *)
Definition loopVideoWithAudio (w : world) (videoPath audioPath : path)
    (durationSeconds : jsval) (outputPath : path) : M path :=
  match durationSeconds with
  | JNum d =>
      emit (EvFfmpegSave outputPath) ;;
      lift (ffmpeg_loop w videoPath audioPath d outputPath) ;;
      ret outputPath
  | _ => throw "durationSeconds.toFixed is not a function"
  end.

Definition concatenateClips (w : world) (clipPaths : list path) (outputPath : path)
    : M path :=
  u <- fresh_uuid w ;;
  let listFilePath := ManifestPath u in
  emit (EvWriteFile listFilePath) ;;
  lift (writeFile w listFilePath) ;;
  emit (EvFfmpegSave outputPath) ;;
  lift (ffmpeg_concat w listFilePath clipPaths outputPath) ;;
  emit (EvUnlink listFilePath) ;;
  emit (EvUnlinkSettled listFilePath) ;;
  ret outputPath.

Definition resolveVideoSource (w : world) (opt : string) (uploadPath : option path)
    (libraryKey : option string) (sp : speaker) : M path :=
  if opt =? "custom" then
    match uploadPath with
    | None =>
        throw ("A custom video was selected for the " ++ speaker_name sp
               ++ " but no file was uploaded.")
    | Some p => ret p
    end
  else
    u <- fresh_uuid w ;;
    let targetPath := SourcePath sp u in
    let sourceUrl :=
      match libraryKey with
      | Some (String c r) =>
          if opt =? "library" then VIDEO_LIBRARY sp (String c r) else None
      | _ => None
      end in
    let sourceUrl :=
      match sourceUrl with
      | Some u => u
      | None => Url match sp with
                    | man => DEFAULT_MAN_VIDEO_URL w
                    | woman => DEFAULT_WOMAN_VIDEO_URL w
                    end
      end in
    downloadFile w sourceUrl targetPath.

Definition validateChirpVoice (voiceName : option string) : bool :=
  match voiceName with
  | Some s => includes s "chirp"
  | None => false
  end.

(** ** The POST /generate-podcast handler *)

(** [req.body] and [req.files] as multer delivers them: a text field is
    absent or a string, a file field is absent or one stored upload. *)
Record request : Type := {
  apiKey : option string;
  topicText : option string;
  youtubeUrl : option string;
  podcastLength : option string;
  languageCode : option string;
  manVoice : option string;
  womanVoice : option string;
  manVideoOption : option string;
  womanVideoOption : option string;
  manLibraryVideo : option string;
  womanLibraryVideo : option string;
  topicFile : option string;               (* the stored name of each upload *)
  manVideoFile : option string;
  womanVideoFile : option string
}.

(** A destructuring default: [field = dflt]. *)
Definition with_default (dflt : string) (field : option string) : string :=
  match field with Some s => s | None => dflt end.

Definition file_path (f : option string) : option path := option_map UploadPath f.

Definition path_eq_dec (p q : path) : {p = q} + {p <> q}.
Proof. repeat decide equality. Defined.

Definition opt_path_eqb (p q : option path) : bool :=
  match p, q with
  | Some a, Some b => if path_eq_dec a b then true else false
  | None, None => true
  | _, _ => false
  end.

Definition normalizedLength (req : request) : number :=
  let parsedLength := parseFloat (with_default "5" (podcastLength req)) in
  if JsNumber.isFinite parsedLength && JsNumber.gt parsedLength JsNumber.zero
  then parsedLength else JsNumber.five.

(** The test of line 350, [!line || !line.speaker || !line.line]. *)
Definition skipped (line : jsval) : bool :=
  negb (JsVal.truthy line)
  || negb (JsVal.truthy (JsVal.get line "speaker"))
  || negb (JsVal.truthy (JsVal.get line "line")).

(** [line.speaker.toLowerCase()] on a truthy [line.speaker]. *)
Definition speaker_toLowerCase (v : jsval) : M string :=
  match v with
  | JStr s => ret (toLowerCase s)
  | _ => throw "line.speaker.toLowerCase is not a function"
  end.

Section Handler.

Variable w : world.
Variable req : request.

(** One iteration of the loop of lines 348-373 on a line that is kept. *)
Definition render_line (manVideoPath womanVideoPath : path) (index : nat)
    (line : jsval) : M path :=
  u1 <- fresh_uuid w ;;
  let audioPath := AudioPath u1 (index + 1) in
  u2 <- fresh_uuid w ;;
  let clipPath := ClipPath u2 (index + 1) in
  push [audioPath; clipPath] ;;
  lowered <- speaker_toLowerCase (JsVal.get line "speaker") ;;
  let voice := if includes lowered "woman" then womanVoice req else manVoice req in
  lowered' <- speaker_toLowerCase (JsVal.get line "speaker") ;;
  let baseVideoPath :=
    if includes lowered' "woman" then womanVideoPath else manVideoPath in
  emit (EvCall (Call_synthesizeSpeech (JsVal.get line "line") voice audioPath)) ;;
  synthesizeSpeech w (apiKey req) (JsVal.get line "line")
    (with_default "en-US" (languageCode req)) voice audioPath ;;
  emit (EvCall (Call_getMediaDuration audioPath)) ;;
  duration <- getMediaDuration w audioPath ;;
  if negb (JsVal.truthy duration) || JsVal.Number_isNaN duration
  then throw "Unable to determine audio duration."
  else
    emit (EvCall (Call_loopVideoWithAudio baseVideoPath audioPath duration clipPath)) ;;
    loopVideoWithAudio w baseVideoPath audioPath duration clipPath ;;
    ret clipPath.

Fixpoint render_loop (manVideoPath womanVideoPath : path) (index : nat)
    (script : list jsval) (clipPaths : list path) : M (list path) :=
  match script with
  | [] => ret clipPaths
  | line :: rest =>
      if skipped line
      then render_loop manVideoPath womanVideoPath (S index) rest clipPaths
      else
        clipPath <- render_line manVideoPath womanVideoPath index line ;;
        render_loop manVideoPath womanVideoPath (S index) rest
          (clipPaths ++ [clipPath])
  end.

(** Lines 319-326: the prompt, then the script. *)
Definition script_stage : M (list jsval) :=
  emit (EvCall Call_prepareTopicParts) ;;
  topicParts <- prepareTopicParts w (topicText req) (youtubeUrl req)
                  (file_path (topicFile req)) (normalizedLength req) ;;
  emit (EvCall Call_callGemini) ;;
  callGemini w (apiKey req) topicParts.

(** Lines 330-346: both background videos, then their registration. *)
Definition sources_stage : M (path * path) :=
  emit (EvCall (Call_resolveVideoSource man)) ;;
  manVideoPath <- resolveVideoSource w
                    (with_default "default" (manVideoOption req))
                    (file_path (manVideoFile req)) (manLibraryVideo req) man ;;
  emit (EvCall (Call_resolveVideoSource woman)) ;;
  womanVideoPath <- resolveVideoSource w
                      (with_default "default" (womanVideoOption req))
                      (file_path (womanVideoFile req)) (womanLibraryVideo req) woman ;;
  (if opt_path_eqb (Some manVideoPath) (file_path (manVideoFile req))
   then ret tt else push [manVideoPath]) ;;
  (if opt_path_eqb (Some womanVideoPath) (file_path (womanVideoFile req))
   then ret tt else push [womanVideoPath]) ;;
  ret (manVideoPath, womanVideoPath).

Definition tempUploads : list path :=
  flat_map (fun f => match file_path f with Some p => [p] | None => [] end)
    [topicFile req; manVideoFile req; womanVideoFile req].

(** Lines 375-391: concatenation, the answer, the deferred cleanup. *)
Definition finish_stage (clipPaths : list path) : M bool :=
  match clipPaths with
  | [] => throw "No clips were generated. Check the script returned by Gemini."
  | _ :: _ =>
      podcastId <- fresh_uuid w ;;
      let finalFileName := ("podcast_" ++ podcastId ++ ".mp4")%string in
      let finalOutputPath := OutputPath podcastId in
      emit (EvCall (Call_concatenateClips clipPaths finalOutputPath)) ;;
      concatenateClips w clipPaths finalOutputPath ;;
      emit (EvRespond 200 (JsonDownloadUrl ("/downloads/" ++ finalFileName)%string)) ;;
      push tempUploads ;;
      emit (EvSetTimeout 30000%N) ;;
      ret true
  end.

(** Lines 319-391 in order. *)
Definition pipeline : M bool :=
  script <- script_stage ;;
  videos <- sources_stage ;;
  clipPaths <- render_loop (fst videos) (snd videos) 0 script [] ;;
  finish_stage clipPaths.

(** The body of the [try] block; it returns true when the deferred
    cleanup was scheduled, false when it answered 400 and returned. *)
Definition try_block : M bool :=
  if negb (field_truthy (apiKey req)) then
    emit (EvRespond 400 (JsonError "Google Cloud API key is required.")) ;;
    ret false
  else if negb (validateChirpVoice (manVoice req))
          || negb (validateChirpVoice (womanVoice req)) then
    emit (EvRespond 400
            (JsonError "Both voices must be selected from the Chirp family.")) ;;
    ret false
  else pipeline.

End Handler.

(** What one request does: [sync] up to the end of the handler's own turn,
    in order; [later] what its pending promises and timer do after. *)
Record run : Type := {
  sync : list event;
  later : list event;
  registered : list path                   (* cleanupPaths when the handler ends *)
}.

Definition initial : state := {| cleanupPaths := []; drawn := 0 |}.

Definition generate_podcast (w : world) (req : request) : run :=
  let '(t, s, r) := try_block w req initial in
  match r with
  | Returned true =>
      {| sync := t;
         later := EvTimeout 30000%N :: cleanupFiles_issue (cleanupPaths s)
                    ++ cleanupFiles_settle (cleanupPaths s);
         registered := cleanupPaths s |}
  | Returned false =>
      {| sync := t; later := []; registered := cleanupPaths s |}
  | Thrown message =>
      {| sync := t ++ cleanupFiles_issue (cleanupPaths s)
                   ++ [EvRespond 500
                         (JsonError match message with
                                    | EmptyString => "Failed to generate podcast."
                                    | _ => message
                                    end)];
         later := cleanupFiles_settle (cleanupPaths s);
         registered := cleanupPaths s |}
  end.

(** What reaches the handler.  multer parses a multipart body into
    [req.body] and [req.files]; a request that is not multipart passes it
    untouched, [req.body] is undefined, and the destructuring of line 290
    throws inside the [try] block: the [catch] block runs with nothing
    registered. *)
Inductive incoming : Type :=
| Multipart (req : request)
| Unparsed.

Definition handle (w : world) (i : incoming) : run :=
  match i with
  | Multipart req => generate_podcast w req
  | Unparsed =>
      {| sync := cleanupFiles_issue []
                   ++ [EvRespond 500
                         (JsonError "Cannot destructure property 'apiKey' of 'req.body' as it is undefined.")];
         later := cleanupFiles_settle [];
         registered := [] |}
  end.

(** ** Notions the specification uses *)

Module Spec.

(** [t] occurs in [s] as it is written. *)
Definition contains (s t : string) : Prop :=
  exists pre post, s = (pre ++ t ++ post)%string.

(** The same letter up to ASCII case. *)
Definition same_letter (c d : ascii) : Prop :=
  c = d
  \/ (is_upper c = true /\ nat_of_ascii d = nat_of_ascii c + 32)
  \/ (is_upper d = true /\ nat_of_ascii c = nat_of_ascii d + 32).

Fixpoint matches_ci (a b : string) : Prop :=
  match a, b with
  | EmptyString, EmptyString => True
  | String c a', String d b' => same_letter c d /\ matches_ci a' b'
  | _, _ => False
  end.

(** [t] occurs in [s] up to the case of its letters. *)
Definition contains_ci (s t : string) : Prop :=
  exists pre mid post, s = (pre ++ mid ++ post)%string /\ matches_ci mid t.

Fixpoint no_upper (t : string) : Prop :=
  match t with
  | EmptyString => True
  | String c t' => is_upper c = false /\ no_upper t'
  end.

End Spec.

(** ** What a trace shows *)

(** The voices the lines are synthesized with, the videos they are looped
    over, the texts that are spoken. *)
Definition synth_voices (t : list event) : list (option string) :=
  flat_map (fun e => match e with
                     | EvCall (Call_synthesizeSpeech _ v _) => [v]
                     | _ => []
                     end) t.

Definition synth_texts (t : list event) : list jsval :=
  flat_map (fun e => match e with
                     | EvCall (Call_synthesizeSpeech text _ _) => [text]
                     | _ => []
                     end) t.

Definition loop_videos (t : list event) : list path :=
  flat_map (fun e => match e with
                     | EvCall (Call_loopVideoWithAudio v _ _ _) => [v]
                     | _ => []
                     end) t.

(** The clips that clip assembly was called for, in order. *)
Definition rendered_clips (t : list event) : list path :=
  flat_map (fun e => match e with
                     | EvCall (Call_loopVideoWithAudio _ _ _ out) => [out]
                     | _ => []
                     end) t.

(** Everything pushed on cleanupPaths, in order. *)
Definition pushed (t : list event) : list path :=
  flat_map (fun e => match e with EvPush ps => ps | _ => [] end) t.

(** The file an event creates. *)
Definition creates (e : event) : list path :=
  match e with
  | EvCreateWriteStream p | EvWriteFile p | EvFfmpegSave p => [p]
  | _ => []
  end.

(** The steps of section 4.5 and the helper each call belongs to. *)
Inductive step : Type :=
| ResolvingSources | Composing | GeneratingScript | Rendering | Concatenating
| CleaningUp.

Definition step_of (c : call) : step :=
  match c with
  | Call_prepareTopicParts => Composing
  | Call_callGemini => GeneratingScript
  | Call_resolveVideoSource _ => ResolvingSources
  | Call_synthesizeSpeech _ _ _ | Call_getMediaDuration _
  | Call_loopVideoWithAudio _ _ _ _ => Rendering
  | Call_concatenateClips _ _ => Concatenating
  | Call_cleanupFiles _ => CleaningUp
  end.

Definition steps (t : list event) : list step :=
  flat_map (fun e => match e with EvCall c => [step_of c] | _ => [] end) t.


Definition actual_position (st : step) : nat :=
  match st with
  | Composing => 0 | GeneratingScript => 1 | ResolvingSources => 2
  | Rendering => 3 | Concatenating => 4 | CleaningUp => 5
  end.

Definition in_order (position : step -> nat) (t : list event) : Prop :=
  StronglySorted le (map position (steps t)).

(** A binary64 value that is finite and above zero. *)
Definition positive_finite (x : number) : Prop :=
  exists m e, x = S754_finite false m e.

(** What the guard of line 366 lets through. *)
Definition passes_guard (d : jsval) : Prop :=
  JsVal.truthy d = true /\ JsVal.Number_isNaN d = false.

Definition is_intermediate (p : path) : Prop :=
  match p with
  | ManifestPath _ | OutputPath _ => False
  | _ => True
  end.

(** What holds of every event of the [try] block. *)
Definition ev_ok (w : world) (req : request) (e : event) : Prop :=
  match e with
  | EvCall (Call_loopVideoWithAudio _ audio d _) =>
      ffprobe_duration w audio = Returned d /\ passes_guard d
  | EvCall (Call_cleanupFiles _) => False
  | EvCall _ => True
  | EvPush ps => Forall is_intermediate ps
  | EvPostGemini k parts =>
      k = apiKey req /\ exists rest, parts = intro (normalizedLength req) :: rest
  | EvCreateWriteStream p => exists sp u, p = SourcePath sp u
  | EvWriteFile p => (exists u n, p = AudioPath u n) \/ exists u, p = ManifestPath u
  | EvFfmpegSave p => (exists u n, p = ClipPath u n) \/ exists u, p = OutputPath u
  | EvUnlink p | EvUnlinkSettled p => exists u, p = ManifestPath u
  | EvRespond st b =>
      st = 400 \/ (st = 200 /\ exists url, b = JsonDownloadUrl url)
  | EvSetTimeout ms => ms = 30000%N
  | EvTimeout _ => False
  | _ => True
  end.

Definition is_upload (p : path) : bool :=
  match p with UploadPath _ => true | _ => false end.

(** An event of a run that has not answered: nothing is answered or
    scheduled, no unlink has settled, no upload is registered. *)
Definition quiet (e : event) : Prop :=
  match e with
  | EvRespond _ _ | EvSetTimeout _ | EvTimeout _ | EvUnlinkSettled _ => False
  | EvPush ps => Forall (fun p => is_upload p = false) ps
  | _ => True
  end.

(** An event of the stages before concatenation. *)
Definition early (e : event) : Prop :=
  match e with
  | EvWriteFile p => exists u n, p = AudioPath u n
  | EvFfmpegSave p => exists u n, p = ClipPath u n
  | EvUnlink _ | EvCall (Call_concatenateClips _ _) => False
  | _ => quiet e
  end.


(** A probe whose answer passes the guard. *)
Definition probe_good (w : world) (e : event) : Prop :=
  match e with
  | EvFfprobe p => exists d, ffprobe_duration w p = Returned d /\ passes_guard d
  | _ => True
  end.


(** The calls of a trace are in order and their positions lie in [lo, hi]. *)
Definition bounded (lo hi : nat) (t : list event) : Prop :=
  in_order actual_position t
  /\ Forall (fun n => lo <= n <= hi) (map actual_position (steps t)).

(** C5 as it is claimed: every registered path has been unlinked, the
    unlink settled, when the 500 answer is sent. *)
Definition cleanup_settled_before_answer (r : run) : Prop :=
  forall p, In p (registered r) ->
    exists pre b post,
      sync r = pre ++ EvRespond 500 b :: post /\ In (EvUnlinkSettled p) pre.

(** C3 as it is claimed: the final file is registered and unlinked by the
    deferred cleanup. *)
Definition final_file_cleaned (r : run) : Prop :=
  forall u, In (EvFfmpegSave (OutputPath u)) (sync r) ->
    In (OutputPath u) (registered r) /\ In (EvUnlink (OutputPath u)) (later r).

(** The line number in the name of an audio file or a clip. *)
Definition line_number (p : path) : nat :=
  match p with
  | AudioPath _ n | ClipPath _ n => n
  | _ => 0
  end.

Definition is_clip (p : path) : Prop :=
  match p with ClipPath _ _ => True | _ => False end.

(** The entries of a script that are not dropped, numbered from 1 by
    their place in the script, from [first] on. *)
Definition kept_from (first : nat) (script : list jsval) : list (nat * jsval) :=
  filter (fun e => negb (skipped (snd e)))
    (combine (seq first (List.length script)) script).

Definition kept_lines (script : list jsval) : list (nat * jsval) :=
  kept_from 1 script.

(** An entry that has a speaker and a text, both non-empty strings. *)
Definition well_formed_entry (line : jsval) : Prop :=
  exists sp text,
    JsVal.get line "speaker" = JStr sp /\ sp <> EmptyString
    /\ JsVal.get line "line" = JStr text /\ text <> EmptyString
    /\ exists fields, line = JObj fields.

(** ** Registration before creation *)

Definition is_line_artifact (p : path) : Prop :=
  match p with AudioPath _ _ | ClipPath _ _ => True | _ => False end.

(** The files of section 3: downloaded video, synthesized audio, clip,
    concat manifest. *)
Definition is_pipeline_artifact (p : path) : Prop :=
  match p with
  | SourcePath _ _ | AudioPath _ _ | ClipPath _ _ | ManifestPath _ => True
  | _ => False
  end.

(** C2 as it is claimed: whenever an event creates such a file, the file
    has been pushed on cleanupPaths. *)
Definition registered_at_creation (t : list event) : Prop :=
  forall pre e post p,
    t = pre ++ e :: post -> In p (creates e) -> is_pipeline_artifact p ->
    In p (pushed pre).

(** [P pre e] holds of every event [e] of [t], [pre] being what came
    before it. *)
Fixpoint each_after (P : list event -> event -> Prop) (pre t : list event) : Prop :=
  match t with
  | [] => True
  | e :: t' => P pre e /\ each_after P (pre ++ [e]) t'
  end.

(** An audio file or a clip is created after it was pushed. *)
Definition line_registered (pre : list event) (e : event) : Prop :=
  forall p, In p (creates e) -> is_line_artifact p -> In p (pushed pre).

(** A downloaded video is pushed after it was created, once both sources
    are resolved, and before any rendering. *)
Definition source_registered_late (pre : list event) (e : event) : Prop :=
  forall ps sp u,
    e = EvPush ps -> In (SourcePath sp u) ps ->
    In (EvCreateWriteStream (SourcePath sp u)) pre
    /\ In (EvCall (Call_resolveVideoSource man)) pre
    /\ In (EvCall (Call_resolveVideoSource woman)) pre
    /\ ~ In Rendering (steps pre).

(** ** Notions of the proofs *)

(** What prepareTopicParts does outside the process. *)
Definition compose_event (e : event) : Prop :=
  match e with
  | EvFetchTranscript _ | EvReadFile _ => True
  | _ => False
  end.

(** The law of the state: cleanupPaths grows by what is pushed. *)
Definition keeps_law (s : state) (t : list event) (s' : state) : Prop :=
  cleanupPaths s' = cleanupPaths s ++ pushed t.


(** ** More of server.js: file names, the concat list, cleanup on disk *)

From Stdlib Require Import DecimalString.

(** A character that [/[^a-z0-9-_\.]/gi] does not match. *)
Definition is_file_char (c : ascii) : bool :=
  let n := nat_of_ascii c in
  ((97 <=? n) && (n <=? 122) || (65 <=? n) && (n <=? 90)
   || (48 <=? n) && (n <=? 57) || (n =? 45) || (n =? 95) || (n =? 46))%nat.

(** Lines 51-53, [name.replace(/[^a-z0-9-_\.]/gi, '_')].  The names the
    handler passes are ASCII; a character outside ASCII is replaced once per
    byte here and once per UTF-16 unit in JavaScript. *)
Fixpoint sanitizeFileName (name : string) : string :=
  match name with
  | EmptyString => EmptyString
  | String c rest =>
      String (if is_file_char c then c else "_"%char) (sanitizeFileName rest)
  end.

(** The decimal digits of [n], as a template literal prints an index. *)
Definition decimal (n : nat) : string := NilEmpty.string_of_uint (Nat.to_uint n).

(** Line 354, [`line_${index + 1}.mp3`]. *)
Definition audioFileName (index : nat) : string :=
  ("line_" ++ decimal (index + 1) ++ ".mp3")%string.

(** Line 237: [clipPath.replace(/'/g, "'\\''")], the quote closed, an
    escaped quote, the quote opened again. *)
Fixpoint escape_quotes (clipPath : string) : string :=
  match clipPath with
  | EmptyString => EmptyString
  | String c rest =>
      if Ascii.eqb c "'" then ("'\''" ++ escape_quotes rest)%string
      else String c (escape_quotes rest)
  end.

Definition list_line (clipPath : string) : string :=
  ("file '" ++ escape_quotes clipPath ++ "'")%string.

Definition newline : string := String (ascii_of_nat 10) EmptyString.

(** Line 237, the content of the concat list. *)
Definition listContent (clipPaths : list string) : string :=
  String.concat newline (map list_line clipPaths).

Fixpoint all_chars (ok : ascii -> bool) (s : string) : bool :=
  match s with
  | EmptyString => true
  | String c rest => ok c && all_chars ok rest
  end.

(** A text without a line break, and the first line of a text and what
    follows its first line break. *)
Definition one_line (s : string) : bool :=
  all_chars (fun c => negb (Ascii.eqb c (ascii_of_nat 10))) s.

Fixpoint first_line (s : string) : string :=
  match s with
  | EmptyString => EmptyString
  | String c rest =>
      if Ascii.eqb c (ascii_of_nat 10) then EmptyString
      else String c (first_line rest)
  end.

Fixpoint after_line (s : string) : option string :=
  match s with
  | EmptyString => None
  | String c rest =>
      if Ascii.eqb c (ascii_of_nat 10) then Some rest else after_line rest
  end.

(** The number of single quotes of a text. *)
Fixpoint count_quotes (s : string) : nat :=
  match s with
  | EmptyString => 0
  | String c rest => (if Ascii.eqb c "'" then 1 else 0) + count_quotes rest
  end.

(** *** cleanupFiles on a disk *)

(** The files that exist. *)
Definition disk : Type := list path.

Definition on_disk (d : disk) (p : path) : bool :=
  existsb (fun q => if path_eq_dec p q then true else false) d.

(** What [fsp.unlink] does: it removes a file that exists, and rejects
    with the code ENOENT for a file that does not, or with another code for a
    file it may not remove ([locked]). *)
Definition fs_unlink (locked : path -> bool) (d : disk) (p : path)
    : disk * option (string * string) :=
  if on_disk d p then
    if locked p then (d, Some ("EACCES", "permission denied"))
    else (remove path_eq_dec p d, None)
  else (d, Some ("ENOENT", "no such file or directory")).

(** Lines 55-68.  A falsy entry is passed over; an unlink that rejects
    with ENOENT is passed over in silence, one that rejects with another
    code is logged; nothing is thrown.  The result is the disk afterwards
    and the paths of the warnings.  The unlinks run at once; the disk
    afterwards does not depend on the order in which they end. *)
Fixpoint cleanupFiles (locked : path -> bool) (filePaths : list (option path))
    (d : disk) : disk * list path :=
  match filePaths with
  | [] => (d, [])
  | None :: rest => cleanupFiles locked rest d
  | Some filePath :: rest =>
      let '(d1, err) := fs_unlink locked d filePath in
      let '(d2, warned) := cleanupFiles locked rest d1 in
      match err with
      | Some (code, _) =>
          if code =? "ENOENT" then (d2, warned) else (d2, filePath :: warned)
      | None => (d2, warned)
      end
  end.

(** *** What more a trace shows *)

(** The answers of a run. *)
Definition responses (t : list event) : list (nat * body) :=
  flat_map (fun e => match e with EvRespond st b => [(st, b)] | _ => [] end) t.

(** The files created in a run, in order. *)
Definition created (t : list event) : list path := flat_map creates t.

(** The paths unlink is called for, in order. *)
Definition unlinked (t : list event) : list path :=
  flat_map (fun e => match e with EvUnlink p => [p] | _ => [] end) t.

(** The calls of the rendering step, in order. *)
Definition render_calls (t : list event) : list call :=
  flat_map (fun e => match e with
                     | EvCall (Call_synthesizeSpeech text v a) =>
                         [Call_synthesizeSpeech text v a]
                     | EvCall (Call_getMediaDuration a) => [Call_getMediaDuration a]
                     | EvCall (Call_loopVideoWithAudio v a d c) =>
                         [Call_loopVideoWithAudio v a d c]
                     | _ => []
                     end) t.

(** One line after the other: synthesis, then the probe of that audio,
    then the loop over that audio into the clip of the same line; the last
    line may stop early. *)
Fixpoint one_line_at_a_time (cs : list call) : Prop :=
  match cs with
  | [] => True
  | Call_synthesizeSpeech _ _ a :: rest =>
      match rest with
      | [] => True
      | Call_getMediaDuration a' :: rest' =>
          a' = a
          /\ match rest' with
             | [] => True
             | Call_loopVideoWithAudio _ a'' _ c :: rest'' =>
                 a'' = a /\ is_clip c /\ line_number c = line_number a
                 /\ one_line_at_a_time rest''
             | _ => False
             end
      | _ => False
      end
  | _ => False
  end.

(** The requests to the generator and to the speech backend. *)
Definition gemini_posts (t : list event) : list (list part) :=
  flat_map (fun e => match e with EvPostGemini _ parts => [parts] | _ => [] end) t.

Definition is_source (p : path) : bool :=
  match p with SourcePath _ _ => true | _ => false end.

(** An event of the stages after the script: the generator is not called
    again, and the speech backend gets the request's key, its language (en-US
    when absent) and one of its two voices. *)
Definition after_script (req : request) (e : event) : Prop :=
  match e with
  | EvPostGemini _ _ => False
  | EvPostTts k _ lang v =>
      k = apiKey req /\ lang = with_default "en-US" (languageCode req)
      /\ (v = manVoice req \/ v = womanVoice req)
  | _ => True
  end.

(** The last part of the prompt when no material is given. *)
Definition no_context_part : part :=
  TextPart [Lit "No additional context was provided. Create an original conversation based on your own knowledge."].

(** Reading an escaped text back: the four characters that stand for a
    quote become the quote. *)
Fixpoint unescape_quotes (s : string) : string :=
  match s with
  | EmptyString => EmptyString
  | String c rest =>
      match rest with
      | String c2 (String c3 (String c4 rest')) =>
          if Ascii.eqb c "'" && Ascii.eqb c2 "\" && Ascii.eqb c3 "'"
             && Ascii.eqb c4 "'"
          then String "'" (unescape_quotes rest')
          else String c (unescape_quotes rest)
      | _ => String c (unescape_quotes rest)
      end
  end.

(** The default URL of a speaker, line 270. *)
Definition DEFAULT_VIDEO_URL (w : world) (sp : speaker) : string :=
  match sp with
  | man => DEFAULT_MAN_VIDEO_URL w
  | woman => DEFAULT_WOMAN_VIDEO_URL w
  end.

(** What prepareTopicParts does outside the process for a link and a file. *)
Definition topic_events (youtubeUrl : option string) (topicFilePath : option path)
    : list event :=
  match youtubeUrl with
  | Some (String c r) => [EvFetchTranscript (String c r)]
  | _ => []
  end
  ++ match topicFilePath with
     | Some p => [EvReadFile p]
     | None => []
     end.

(** The end of a [try] block that returns from its last stage: the answer,
    the registration of the uploads, the timer. *)
Definition answer_tail (req : request) (u : string) : list event :=
  [EvRespond 200 (JsonDownloadUrl ("/downloads/podcast_" ++ u ++ ".mp4"));
   EvPush (tempUploads req); EvSetTimeout 30000%N].

(** *** What the helpers did, as opposed to what they were called for *)

(** The clips ffmpeg was started for by loopVideoWithAudio, in order. *)
Definition saved_clips (t : list event) : list path :=
  flat_map (fun e => match e with
                     | EvFfmpegSave (ClipPath u n) => [ClipPath u n]
                     | _ => []
                     end) t.

(** The texts posted to the speech backend by synthesizeSpeech, in order. *)
Definition posted_texts (t : list event) : list jsval :=
  flat_map (fun e => match e with EvPostTts _ text _ _ => [text] | _ => [] end) t.

(** The clip of a rendering call was rendered: ffmpeg ended well on the
    background video, the audio and the duration of that call. *)
Definition rendered (w : world) (t : list event) (clip : path) : Prop :=
  exists video audio x,
    In (EvCall (Call_loopVideoWithAudio video audio (JNum x) clip)) t
    /\ ffmpeg_loop w video audio x clip = Returned tt.

(** *** What a probe can report *)

(** [/^[0-9]+(\.[0-9]+)?$/] *)
Definition unsigned_decimal (s : string) : bool :=
  let '(ki, _, r) := take_digits s 0 0 in
  match ki, r with
  | O, _ => false
  | _, EmptyString => true
  | _, String c rf =>
      if Ascii.eqb c "." then
        let '(kf, _, r') := take_digits rf 0 0 in
        match kf, r' with
        | S _, EmptyString => true
        | _, _ => false
        end
      else false
  end.

(** The value fluent-ffmpeg's ffprobe gives for the text ffprobe printed
    after [duration=]: the number when the text is unsigned decimal digits,
    the text itself otherwise (N/A, an empty text). *)
Definition ffprobe_value (text : string) : jsval :=
  if unsigned_decimal text then JNum (unsigned_literal false text) else JStr text.

(** What [metadata.format.duration] can be: undefined when ffprobe printed
    no duration, else the value of the text it printed, a number within the
    range of binary64. *)
Definition receivable (d : jsval) : Prop :=
  d = JUndefined
  \/ exists text,
       d = ffprobe_value text /\ forall x, d = JNum x -> JsNumber.isFinite x = true.

Definition probe_as_parsed (w : world) : Prop :=
  forall p d, ffprobe_duration w p = Returned d -> receivable d.

(** A character of ASCII: one byte here, one UTF-16 unit in JavaScript. *)
Definition is_ascii (c : ascii) : bool := (nat_of_ascii c <? 128)%nat.


(** An event of a stage that renders no line: no probe, no call of
    loopVideoWithAudio, no clip written by ffmpeg. *)
Definition outside_rendering (e : event) : Prop :=
  match e with
  | EvCall (Call_loopVideoWithAudio _ _ _ _) | EvFfprobe _ => False
  | EvFfmpegSave p => ~ is_clip p
  | _ => True
  end.

(** ** Concrete worlds and requests *)

Module Sample.

Definition entry (sp text : jsval) : jsval :=
  JObj [("speaker", sp); ("line", text)].

(** The dialogue of section 8: Man says Hi, Woman says Hello, then an
    empty object and an entry whose speaker and text are empty. *)
Definition script : list jsval :=
  [entry (JStr "Man") (JStr "Hi"); entry (JStr "Woman") (JStr "Hello");
   JObj []; entry (JStr EmptyString) (JStr EmptyString)].

Definition gemini_data : jsval :=
  JObj [("candidates",
         JArr [JObj [("content",
                      JObj [("parts", JArr [JObj [("text", JStr "[...]")]])])]])].

Definition token (n : nat) : string :=
  String (ascii_of_nat (97 + n)) EmptyString.

(** A world in which the generator answers [gemini], the parser gives
    the script [s], the speech backend answers [tts], every probe gives
    [duration], the concatenation ends as [concat]; all else succeeds. *)
Definition make_world (gemini : outcome jsval) (s : list jsval)
    (tts : outcome jsval) (duration : jsval) (concat : outcome unit) : world :=
  {| uuidv4 := token;
     env_DEFAULT_MAN_VIDEO_URL := None;
     env_DEFAULT_WOMAN_VIDEO_URL := None;
     fetchTranscript := fun _ => None;
     mime_lookup := fun _ => None;
     readFile_base64 := fun _ => Returned "AAAA";
     axios_post_gemini := fun _ _ => gemini;
     JSON_parse := fun _ => Returned (JArr s);
     axios_post_tts := fun _ _ _ _ => tts;
     Buffer_from_base64 := fun _ => Returned tt;
     writeFile := fun _ => Returned tt;
     axios_get_stream := fun _ => Returned tt;
     pipe_to_disk := fun _ => Returned tt;
     ffprobe_duration := fun _ => Returned duration;
     ffmpeg_loop := fun _ _ _ _ => Returned tt;
     ffmpeg_concat := fun _ _ _ => concat |}.

Definition audio : jsval := JObj [("audioContent", JStr "AAAA")].

(** Every backend answers. *)
Definition world_with (s : list jsval) (duration : jsval) : world :=
  make_world (Returned gemini_data) s (Returned audio) duration (Returned tt).

Definition good_world : world := world_with script (JNum (parseFloat "2.5")).

Definition request_with (length : option string) (mv wv : option string)
    (upload : option string) : request :=
  {| apiKey := Some "key";
     topicText := Some "tea";
     youtubeUrl := None;
     podcastLength := length;
     languageCode := None;
     manVoice := mv;
     womanVoice := wv;
     manVideoOption := None;
     womanVideoOption := None;
     manLibraryVideo := None;
     womanLibraryVideo := None;
     topicFile := upload;
     manVideoFile := None;
     womanVideoFile := None |}.

(** The prompt of a request whose only material is the topic text. *)
Definition prompt (len : number) : list part :=
  [intro len; TextPart [Lit "Plain text topic provided by the user: tea"]].

Definition good_request : request :=
  request_with None (Some "en-US-chirp-m") (Some "en-US-chirp-f") None.

(** The speech backend refuses the first line. *)
Definition tts_down : world :=
  make_world (Returned gemini_data) script (Thrown "quota exceeded")
    (JNum (parseFloat "2.5")) (Returned tt).

(** The generator is unreachable. *)
Definition gemini_down : world :=
  make_world (Thrown "connect ETIMEDOUT") script (Returned audio)
    (JNum (parseFloat "2.5")) (Returned tt).

(** ffmpeg fails on the concatenation. *)
Definition concat_fails : world :=
  make_world (Returned gemini_data) script (Returned audio)
    (JNum (parseFloat "2.5")) (Thrown "ffmpeg exited with code 1").

(** The download of the woman's default video fails. *)
Definition second_download_fails : world :=
  {| uuidv4 := token;
     env_DEFAULT_MAN_VIDEO_URL := None;
     env_DEFAULT_WOMAN_VIDEO_URL := None;
     fetchTranscript := fun _ => None;
     mime_lookup := fun _ => None;
     readFile_base64 := fun _ => Returned "AAAA";
     axios_post_gemini := fun _ _ => Returned gemini_data;
     JSON_parse := fun _ => Returned (JArr script);
     axios_post_tts := fun _ _ _ _ => Returned audio;
     Buffer_from_base64 := fun _ => Returned tt;
     writeFile := fun _ => Returned tt;
     axios_get_stream := fun url =>
       match url with
       | Url "https://YOUR_DEFAULT_MAN_VIDEO_URL/woman-default.mp4" =>
           Thrown "socket hang up"
       | _ => Returned tt
       end;
     pipe_to_disk := fun _ => Returned tt;
     ffprobe_duration := fun _ => Returned (JNum (parseFloat "2.5"));
     ffmpeg_loop := fun _ _ _ _ => Returned tt;
     ffmpeg_concat := fun _ _ _ => Returned tt |}.

(** The sample request with an uploaded topic file. *)
Definition upload_request : request :=
  request_with None (Some "en-US-chirp-m") (Some "en-US-chirp-f")
    (Some "3f2a9c").

End Sample.

(** * Proofs *)

(** ** Strings *)

Lemma prefix_iff (t s : string) :
  prefix t s = true <-> exists post, s = (t ++ post)%string.
Proof.
  revert t; induction s as [|b s IH]; intros [|a t]; simpl.
  - split; [exists EmptyString; reflexivity | reflexivity].
  - split; [discriminate | intros [post H]; discriminate].
  - split; [exists (String b s); reflexivity | reflexivity].
  - destruct (ascii_dec a b) as [->|Hne].
    + rewrite IH. split; intros [post H]; exists post.
      * now rewrite H.
      * now inversion H.
    + split; [discriminate | intros [post H]; inversion H; congruence].
Qed.

Lemma includes_iff (s t : string) :
  includes s t = true <-> Spec.contains s t.
Proof.
  unfold Spec.contains. induction s as [|c s IH].
  - cbn [includes]. destruct (prefix t EmptyString) eqn:Hp.
    + split; [intros _ | reflexivity].
      apply prefix_iff in Hp. destruct Hp as [post Hp].
      exists EmptyString, post. exact Hp.
    + split; [discriminate |].
      intros (pre & post & H).
      destruct pre; simpl in H; [| discriminate].
      assert (prefix t EmptyString = true) by (apply prefix_iff; eauto).
      congruence.
  - cbn [includes]. destruct (prefix t (String c s)) eqn:Hp.
    + split; [intros _ | reflexivity].
      apply prefix_iff in Hp. destruct Hp as [post Hp].
      exists EmptyString, post. exact Hp.
    + rewrite IH. split.
      * intros (pre & post & H). exists (String c pre), post. simpl. now rewrite H.
      * intros (pre & post & H). destruct pre as [|c' pre]; simpl in H.
        -- assert (prefix t (String c s) = true) by (apply prefix_iff; eauto).
           congruence.
        -- inversion H. eauto.
Qed.

Lemma toLowerCase_app (a b : string) :
  toLowerCase (a ++ b) = (toLowerCase a ++ toLowerCase b)%string.
Proof. induction a; simpl; congruence. Qed.

Lemma toLowerCase_split (s x y : string) :
  toLowerCase s = (x ++ y)%string ->
  exists a b, s = (a ++ b)%string /\ toLowerCase a = x /\ toLowerCase b = y.
Proof.
  revert s; induction x as [|c x IH]; intros s H.
  - exists EmptyString, s. auto.
  - destruct s as [|d s]; simpl in H; [discriminate |].
    inversion H as [[Hc Hs]]. destruct (IH _ Hs) as (a & b & -> & Ha & Hb).
    exists (String d a), b. simpl. rewrite Ha. auto.
Qed.

Lemma is_upper_bound (c : ascii) :
  is_upper c = true -> 65 <= nat_of_ascii c <= 90.
Proof.
  unfold is_upper. intros H. apply andb_prop in H. destruct H as [H1 H2].
  apply Nat.leb_le in H1, H2. lia.
Qed.

Lemma lower_char_same_letter (c d : ascii) :
  lower_char c = d -> Spec.same_letter c d.
Proof.
  unfold lower_char, Spec.same_letter. destruct (is_upper c) eqn:Hu; intros <-.
  - right; left. split; [reflexivity |].
    apply is_upper_bound in Hu. rewrite nat_ascii_embedding; lia.
  - now left.
Qed.

Lemma same_letter_lower_char (c d : ascii) :
  is_upper d = false -> Spec.same_letter c d -> lower_char c = d.
Proof.
  unfold Spec.same_letter, lower_char. intros Hd [-> | [[Hu E] | [Hu _]]].
  - now rewrite Hd.
  - rewrite Hu, <- E. apply ascii_nat_embedding.
  - congruence.
Qed.

Lemma toLowerCase_matches (mid t : string) :
  Spec.no_upper t -> (toLowerCase mid = t <-> Spec.matches_ci mid t).
Proof.
  revert t; induction mid as [|c mid IH]; intros [|d t]; simpl; intros Hn;
    try (split; [discriminate | contradiction]); try tauto.
  destruct Hn as [Hd Hn]. specialize (IH t Hn). split.
  - intros H. injection H as Hc Ht. split.
    + now apply lower_char_same_letter.
    + apply IH. exact Ht.
  - intros [Hc Hm]. f_equal; [now apply same_letter_lower_char | now apply IH].
Qed.

(** [s.toLowerCase().includes(t)] for a token without capitals is the
    case-insensitive occurrence of the token. *)
Lemma includes_lower_iff (s t : string) :
  Spec.no_upper t ->
  (includes (toLowerCase s) t = true <-> Spec.contains_ci s t).
Proof.
  intros Hn. rewrite includes_iff. unfold Spec.contains, Spec.contains_ci. split.
  - intros (pre & post & H).
    destruct (toLowerCase_split _ _ _ H) as (a & b & -> & Ha & Hb).
    destruct (toLowerCase_split _ _ _ Hb) as (m & p & -> & Hm & Hp).
    exists a, m, p. split; [reflexivity | now apply toLowerCase_matches].
  - intros (pre & mid & post & -> & Hm).
    exists (toLowerCase pre), (toLowerCase post).
    rewrite !toLowerCase_app. apply toLowerCase_matches in Hm; [| exact Hn].
    now rewrite Hm.
Qed.

Lemma validateChirpVoice_iff (v : option string) :
  validateChirpVoice v = true <-> exists s, v = Some s /\ Spec.contains s "chirp".
Proof.
  destruct v as [s|]; simpl.
  - rewrite includes_iff. split; [eauto | intros (s' & E & H); now inversion E].
  - split; [discriminate | intros (s' & E & _); discriminate].
Qed.

(** ** Inversion of the run monad *)

Lemma bind_inv {A B} (m : M A) (f : A -> M B) s t s' r :
  bind m f s = (t, s', r) ->
  (exists msg, m s = (t, s', Thrown msg) /\ r = Thrown msg)
  \/ (exists a t1 s1 t2,
        m s = (t1, s1, Returned a) /\ f a s1 = (t2, s', r) /\ t = t1 ++ t2).
Proof.
  unfold bind. destruct (m s) as [[t1 s1] [a|msg]].
  - destruct (f a s1) as [[t2 s2] r2] eqn:Hf. intros H. inversion H; subst.
    right. exists a, t1, s1, t2. auto.
  - intros H. inversion H; subst. left. eauto.
Qed.

Lemma ret_inv {A} (a : A) s t s' r :
  ret a s = (t, s', r) -> t = [] /\ s' = s /\ r = Returned a.
Proof. unfold ret. intros H. inversion H. auto. Qed.

Lemma throw_inv {A} msg s t s' (r : outcome A) :
  throw msg s = (t, s', r) -> t = [] /\ s' = s /\ r = Thrown msg.
Proof. unfold throw. intros H. inversion H. auto. Qed.

Lemma emit_inv e s t s' r :
  emit e s = (t, s', r) -> t = [e] /\ s' = s /\ r = Returned tt.
Proof. unfold emit. intros H. inversion H. auto. Qed.

Lemma lift_inv {A} (o : outcome A) s t s' r :
  lift o s = (t, s', r) -> t = [] /\ s' = s /\ r = o.
Proof. unfold lift. intros H. inversion H. auto. Qed.

Lemma push_inv ps s t s' r :
  push ps s = (t, s', r) ->
  t = [EvPush ps] /\ cleanupPaths s' = cleanupPaths s ++ ps
  /\ drawn s' = drawn s /\ r = Returned tt.
Proof. unfold push. intros H. inversion H. auto. Qed.

Lemma fresh_uuid_inv w s t s' r :
  fresh_uuid w s = (t, s', r) ->
  t = [] /\ cleanupPaths s' = cleanupPaths s /\ drawn s' = S (drawn s)
  /\ r = Returned (uuidv4 w (drawn s)).
Proof. unfold fresh_uuid. intros H. inversion H. auto. Qed.

(** Take a run of a monadic term apart, one step at a time. *)
Ltac minv_step :=
  match goal with
  | H : bind _ _ _ = _ |- _ =>
      apply bind_inv in H;
      destruct H as [(? & H & ?) | (? & ? & ? & ? & ? & H & ?)]
  | H : ret _ _ = _ |- _ => apply ret_inv in H; destruct H as (? & ? & ?)
  | H : throw _ _ = _ |- _ => apply throw_inv in H; destruct H as (? & ? & ?)
  | H : emit _ _ = _ |- _ => apply emit_inv in H; destruct H as (? & ? & ?)
  | H : lift _ _ = _ |- _ => apply lift_inv in H; destruct H as (? & ? & ?)
  | H : push _ _ = _ |- _ => apply push_inv in H; destruct H as (? & ? & ? & ?)
  | H : fresh_uuid _ _ = _ |- _ =>
      apply fresh_uuid_inv in H; destruct H as (? & ? & ? & ?)
  | H : (if ?c then _ else _) _ = (_, _, _) |- _ => destruct c eqn:?
  | H : match ?x with _ => _ end _ = (_, _, _) |- _ => destruct x eqn:?
  | H : Returned _ = Returned _ |- _ => injection H as H
  | H : Thrown _ = Thrown _ |- _ => injection H as H
  | H : (_, _) = (_, _) |- _ => injection H as ? ?
  end; subst; try discriminate.

Ltac minv := repeat minv_step.

(** ** Voice validation and speaker routing *)

Example validateChirpVoice_capitalised :
  validateChirpVoice (Some "en-US-Chirp-Man") = false
  /\ validateChirpVoice (Some "en-US-CHIRP-Man") = false
  /\ validateChirpVoice (Some "plain-voice") = false
  /\ validateChirpVoice None = false
  /\ validateChirpVoice (Some "en-US-chirp-Man") = true.
Proof. repeat split; reflexivity. Qed.

Lemma no_upper_woman : Spec.no_upper "woman".
Proof. cbn. auto 10. Qed.

(** C9: a rendered line whose speaker label contains the token woman, in
    any case, is synthesized with the woman's voice and looped over the
    woman's background video; any other label gets the man's. *)
Theorem woman_routing (w : world) (req : request) (manVideoPath womanVideoPath : path)
    (index : nat) (line : jsval) (label : string) s t s' r :
  JsVal.get line "speaker" = JStr label ->
  render_line w req manVideoPath womanVideoPath index line s = (t, s', r) ->
  (Spec.contains_ci label "woman" ->
     synth_voices t = [womanVoice req]
     /\ incl (loop_videos t) [womanVideoPath]
     /\ (forall p, r = Returned p -> loop_videos t = [womanVideoPath]))
  /\ (~ Spec.contains_ci label "woman" ->
     synth_voices t = [manVoice req]
     /\ incl (loop_videos t) [manVideoPath]
     /\ (forall p, r = Returned p -> loop_videos t = [manVideoPath])).
Proof.
  intros Hl Hrun.
  pose proof (includes_lower_iff label "woman" no_upper_woman) as Hiff.
  unfold render_line in Hrun. rewrite Hl in Hrun. unfold speaker_toLowerCase in Hrun.
  unfold synth_voices, loop_videos.
  destruct (includes (toLowerCase label) "woman") eqn:Hinc.
  - split; [intros _ | intros Hn; exfalso; apply Hn, Hiff; reflexivity].
    unfold synthesizeSpeech, getMediaDuration, loopVideoWithAudio in Hrun.
    minv; cbn; rewrite ?Hinc; repeat split; intros; try discriminate;
      auto using incl_nil_l, incl_refl.
  - split; [intros Hc; apply Hiff in Hc; discriminate | intros _].
    unfold synthesizeSpeech, getMediaDuration, loopVideoWithAudio in Hrun.
    minv; cbn; rewrite ?Hinc; repeat split; intros; try discriminate;
      auto using incl_nil_l, incl_refl.
Qed.

Lemma contains_ci_WOMAN2 : Spec.contains_ci "WOMAN2" "woman".
Proof.
  exists EmptyString, "WOMAN", "2". split; [reflexivity |].
  cbn. unfold Spec.same_letter. cbn. repeat split; right; left; auto.
Qed.

Lemma woman_routing_witness :
  synth_voices
    (fst (fst (render_line Sample.good_world Sample.good_request
                 (SourcePath man "a") (SourcePath woman "b") 1
                 (Sample.entry (JStr "WOMAN2") (JStr "Hello")) initial)))
  = [Some "en-US-chirp-f"]
  /\ loop_videos
       (fst (fst (render_line Sample.good_world Sample.good_request
                    (SourcePath man "a") (SourcePath woman "b") 1
                    (Sample.entry (JStr "WOMAN2") (JStr "Hello")) initial)))
     = [SourcePath woman "b"].
Proof.
  destruct (render_line Sample.good_world Sample.good_request
              (SourcePath man "a") (SourcePath woman "b") 1
              (Sample.entry (JStr "WOMAN2") (JStr "Hello")) initial)
    as [[t s'] r] eqn:Hrun.
  destruct (proj1 (woman_routing Sample.good_world Sample.good_request
                     (SourcePath man "a") (SourcePath woman "b") 1
                     (Sample.entry (JStr "WOMAN2") (JStr "Hello")) "WOMAN2"
                     initial t s' r eq_refl Hrun) contains_ci_WOMAN2)
    as (Hv & _ & Hl).
  split; [exact Hv |].
  destruct r as [p | msg]; [exact (Hl p eq_refl) |].
  vm_compute in Hrun. discriminate.
Defined.

(** The labels of the specification's examples. *)
Example speaker_labels :
  includes (toLowerCase "Woman") "woman" = true
  /\ includes (toLowerCase "woman") "woman" = true
  /\ includes (toLowerCase "WOMAN2") "woman" = true
  /\ includes (toLowerCase "Man") "woman" = false
  /\ includes (toLowerCase "Narrator") "woman" = false.
Proof. repeat split; reflexivity. Qed.

(** ** The events of each stage *)

Lemma find_text_silent items s t s' r :
  find_text items s = (t, s', r) -> t = [] /\ s' = s.
Proof.
  induction items as [|item items IH]; cbn [find_text]; intros H.
  - minv. auto.
  - destruct item; try (minv; auto; fail);
      (destruct (JsVal.truthy (JsVal.get _ "text")); [minv; auto | auto]).
Qed.

Lemma prepareTopicParts_spec w topic url file len s t s' r :
  prepareTopicParts w topic url file len s = (t, s', r) ->
  s' = s /\ Forall compose_event t
  /\ forall parts, r = Returned parts -> exists rest, parts = intro len :: rest.
Proof.
  unfold prepareTopicParts. intros H.
  destruct topic as [[|c0 r0]|]; minv;
    (split; [reflexivity | split; [repeat constructor |]]);
    intros parts E; try discriminate; injection E as <-;
    cbn [app]; eauto.
Qed.

Lemma callGemini_spec w key parts s t s' r :
  callGemini w key parts s = (t, s', r) -> t = [EvPostGemini key parts] /\ s' = s.
Proof.
  unfold callGemini. intros H. minv;
    repeat match goal with
           | H : find_text _ _ = _ |- _ => apply find_text_silent in H; destruct H; subst
           end; auto.
Qed.

Lemma script_stage_shape w req s t s' r :
  script_stage w req s = (t, s', r) ->
  s' = s
  /\ exists tc, Forall compose_event tc
     /\ ((t = EvCall Call_prepareTopicParts :: tc /\ exists msg, r = Thrown msg)
         \/ exists rest,
             t = EvCall Call_prepareTopicParts :: tc
                 ++ [EvCall Call_callGemini;
                     EvPostGemini (apiKey req) (intro (normalizedLength req) :: rest)]).
Proof.
  unfold script_stage. intros H. minv;
    repeat match goal with
           | H : prepareTopicParts _ _ _ _ _ _ = _ |- _ =>
               apply prepareTopicParts_spec in H; destruct H as (? & ? & ?); subst
           | H : callGemini _ _ _ _ = _ |- _ =>
               apply callGemini_spec in H; destruct H; subst
           end;
    (split; [reflexivity |]); eexists; (split; [eassumption |]).
  - left. cbn. eauto.
  - match goal with H : forall parts, _ -> _ |- _ =>
      destruct (H _ eq_refl) as [rest ->] end.
    right. exists rest. reflexivity.
Qed.

Lemma compose_event_ok w req e : compose_event e -> ev_ok w req e /\ early e.
Proof. destruct e; cbn; tauto. Qed.

Lemma Forall_compose_ok w req t :
  Forall compose_event t -> Forall (fun e => ev_ok w req e /\ early e) t.
Proof. apply Forall_impl, compose_event_ok. Qed.

Lemma early_quiet e : early e -> quiet e.
Proof. destruct e as [[]| | | | | | | | | | | | | | |]; cbn; tauto. Qed.

Lemma file_path_upload f p : file_path f = Some p -> exists name, p = UploadPath name.
Proof. destruct f; cbn; intros H; inversion H; eauto. Qed.

Lemma opt_path_eqb_refl p : opt_path_eqb (Some p) (Some p) = true.
Proof. cbn. destruct (path_eq_dec p p); congruence. Qed.

Ltac upload_paths :=
  repeat match goal with
         | H : opt_path_eqb (Some ?p) (Some ?p) = false |- _ =>
             rewrite opt_path_eqb_refl in H; discriminate
         | H : file_path _ = Some ?p |- _ =>
             apply file_path_upload in H; destruct H as [? ->]
         end.

Lemma guard_passed d :
  negb (JsVal.truthy d) || JsVal.Number_isNaN d = false -> passes_guard d.
Proof.
  intros H. apply orb_false_elim in H. destruct H as [H1 H2].
  apply negb_false_iff in H1. split; assumption.
Qed.

Ltac guard_facts :=
  repeat match goal with
         | H : negb (JsVal.truthy ?d) || JsVal.Number_isNaN ?d = false |- _ =>
             apply guard_passed in H
         end.

Ltac events_solve :=
  repeat first [apply Forall_nil | apply Forall_cons];
  try (split; cbn; eauto 8 using eq_sym);
  try match goal with |- Forall _ (_ :: _) => repeat constructor end.

Ltac stage_unfold H :=
  unfold sources_stage, render_line, finish_stage, resolveVideoSource,
    downloadFile, synthesizeSpeech, getMediaDuration, loopVideoWithAudio,
    concatenateClips, speaker_toLowerCase in H.

Lemma script_stage_events w req s t s' r :
  script_stage w req s = (t, s', r) ->
  Forall (fun e => ev_ok w req e /\ early e) t.
Proof.
  intros H. apply script_stage_shape in H.
  destruct H as (_ & tc & Hc & [[-> _] | [rest ->]]);
    apply (Forall_compose_ok w req) in Hc.
  - constructor; [cbn; auto | exact Hc].
  - constructor; [cbn; auto |]. apply Forall_app. split; [exact Hc |].
    repeat constructor; cbn; eauto.
Qed.

Lemma sources_stage_events w req s t s' r :
  sources_stage w req s = (t, s', r) ->
  Forall (fun e => ev_ok w req e /\ early e) t.
Proof.
  intros H. stage_unfold H. minv; upload_paths; events_solve.
Qed.

Lemma render_line_events w req mv wv index line s t s' r :
  render_line w req mv wv index line s = (t, s', r) ->
  Forall (fun e => ev_ok w req e /\ early e) t.
Proof.
  intros H. stage_unfold H. minv; guard_facts; events_solve.
Qed.

Lemma render_loop_events w req mv wv script :
  forall index clips s t s' r,
    render_loop w req mv wv index script clips s = (t, s', r) ->
    Forall (fun e => ev_ok w req e /\ early e) t.
Proof.
  induction script as [|line rest IH]; intros index clips s t s' r H;
    cbn [render_loop] in H.
  - minv. constructor.
  - destruct (skipped line); [eauto |]. minv.
    + eauto using render_line_events.
    + apply Forall_app. eauto using render_line_events.
Qed.

Lemma finish_stage_events w req clips s t s' r :
  finish_stage w req clips s = (t, s', r) -> Forall (ev_ok w req) t.
Proof.
  intros H. stage_unfold H. unfold tempUploads in H.
  minv; repeat first [apply Forall_nil | apply Forall_cons]; cbn; eauto 8.
  unfold file_path.
  destruct (topicFile req), (manVideoFile req), (womanVideoFile req);
    cbn; repeat constructor.
Qed.

Lemma Forall_fst {A} (P Q : A -> Prop) l :
  Forall (fun x => P x /\ Q x) l -> Forall P l.
Proof. apply Forall_impl. tauto. Qed.

Lemma Forall_snd {A} (P Q : A -> Prop) l :
  Forall (fun x => P x /\ Q x) l -> Forall Q l.
Proof. apply Forall_impl. tauto. Qed.

Lemma pipeline_events w req s t s' r :
  pipeline w req s = (t, s', r) -> Forall (ev_ok w req) t.
Proof.
  unfold pipeline. intros H. minv;
    repeat match goal with
           | H : script_stage _ _ _ = _ |- _ =>
               apply script_stage_events, Forall_fst in H
           | H : sources_stage _ _ _ = _ |- _ =>
               apply sources_stage_events, Forall_fst in H
           | H : render_loop _ _ _ _ _ _ _ _ = _ |- _ =>
               apply render_loop_events, Forall_fst in H
           | H : finish_stage _ _ _ _ = _ |- _ => apply finish_stage_events in H
           end;
    repeat (apply Forall_app; split); assumption.
Qed.

Lemma try_block_events w req s t s' r :
  try_block w req s = (t, s', r) -> Forall (ev_ok w req) t.
Proof.
  unfold try_block. intros H.
  destruct (negb (field_truthy (apiKey req))).
  { minv. repeat constructor. }
  destruct (negb (validateChirpVoice (manVoice req))
            || negb (validateChirpVoice (womanVoice req))).
  { minv. repeat constructor. }
  eauto using pipeline_events.
Qed.

(** Every event of the handler's own turn is an event of the [try] block,
    an unlink the [catch] block issues, or its answer. *)
Lemma sync_cases w req e :
  In e (sync (generate_podcast w req)) ->
  ev_ok w req e
  \/ (exists ps, e = EvCall (Call_cleanupFiles ps))
  \/ (exists p, e = EvUnlink p /\ In p (registered (generate_podcast w req)))
  \/ exists b, e = EvRespond 500 b.
Proof.
  unfold generate_podcast.
  destruct (try_block w req initial) as [[t s] r] eqn:H.
  pose proof (try_block_events _ _ _ _ _ _ H) as Hok.
  rewrite Forall_forall in Hok.
  destruct r as [[|]|msg]; cbn [sync registered]; intros Hin; auto.
  apply in_app_or in Hin. destruct Hin as [Hin | Hin]; [auto |].
  apply in_app_or in Hin. destruct Hin as [Hin | [<- | []]]; [| eauto 6].
  destruct Hin as [<- | Hin]; [eauto |].
  apply in_map_iff in Hin. destruct Hin as (p & <- & Hp). eauto 8.
Qed.

(** ** The podcast length *)

Lemma positive_finite_iff (x : number) :
  JsNumber.isFinite x && JsNumber.gt x JsNumber.zero = true <-> positive_finite x.
Proof.
  unfold positive_finite.
  destruct x as [s | s | | s m e]; cbn;
    try (split; [discriminate | intros (m' & e' & H); discriminate]).
  destruct s; cbn.
  - split; [discriminate | intros (m' & e' & H); discriminate].
  - split; eauto.
Qed.

Lemma normalizedLength_cases (req : request) :
  let parsed := parseFloat (with_default "5" (podcastLength req)) in
  (positive_finite parsed -> normalizedLength req = parsed)
  /\ (~ positive_finite parsed -> normalizedLength req = JsNumber.five).
Proof.
  cbv zeta. unfold normalizedLength.
  destruct (JsNumber.isFinite _ && JsNumber.gt _ JsNumber.zero) eqn:E.
  - apply positive_finite_iff in E. tauto.
  - split; [| reflexivity]. intros H. apply positive_finite_iff in H. congruence.
Qed.

(** The sign of what division rounds to is the sign it is given. *)
Lemma binary_round_aux_sign mx ex lx :
  ~ positive_finite (binary_round_aux prec emax true mx ex lx).
Proof.
  unfold binary_round_aux, positive_finite. intros (m & e & H).
  destruct (shr_fexp prec emax mx ex lx) as [mrs' e'].
  destruct (shr_fexp prec emax _ e' loc_Exact) as [mrs'' e''].
  destruct (shr_m mrs''); try discriminate.
  destruct (Z.leb e'' (emax - prec)); discriminate.
Qed.

Lemma of_decimal_negative v e : ~ positive_finite (of_decimal true v e).
Proof.
  unfold of_decimal. destruct v as [|p].
  - intros (m & e' & H). discriminate.
  - destruct (Z.pos p * 10 ^ Z.max e 0)%Z as [|n|n];
      try (intros (m & e' & H); discriminate).
    destruct (10 ^ Z.max (- e) 0)%Z as [|d|d];
      try (intros (m & e' & H); discriminate).
    cbn [SFdiv xorb].
    destruct (SFdiv_core_binary prec emax (Z.pos n) 0 (Z.pos d) 0) as [[mz ez] lz].
    apply binary_round_aux_sign.
Qed.

Lemma unsigned_literal_negative r : ~ positive_finite (unsigned_literal true r).
Proof.
  unfold unsigned_literal.
  destruct (prefix "Infinity" r); [intros (m & e & H); discriminate |].
  destruct (take_digits r 0 0) as [[ki vi] r1].
  assert (Hgen : forall kf v r',
             ~ positive_finite
                 match (ki + kf)%nat with
                 | O => S754_nan
                 | S _ => of_decimal true v (exponent_part r' - Z.of_nat kf)
                 end).
  { intros kf v r'. destruct (ki + kf)%nat.
    - intros (m & e & H). discriminate.
    - apply of_decimal_negative. }
  destruct r1 as [|c r1]; [apply Hgen |].
  destruct (ascii_dec c ".") as [-> | Hc].
  - destruct (take_digits r1 0 vi) as [[kf v] r']. apply Hgen.
  - destruct c as [[] [] [] [] [] [] [] []]; try apply Hgen. contradiction.
Qed.

(** A field that starts with a minus sign never gives a length. *)
Lemma minus_sign_not_positive r :
  ~ positive_finite (parseFloat (String "-" r)).
Proof.
  unfold parseFloat.
  assert (E : trimStart (String "-" r) = String "-" r).
  { unfold trimStart. cbn [length trimStart_fuel].
    replace (white_len (String "-" r)) with 0%nat; [reflexivity |].
    destruct r as [|c2 [|c3 r]]; reflexivity. }
  rewrite E. apply unsigned_literal_negative.
Qed.

Example normalizedLength_examples :
  normalizedLength (Sample.request_with None None None None) = JsNumber.five
  /\ normalizedLength (Sample.request_with (Some "abc") None None None) = JsNumber.five
  /\ normalizedLength (Sample.request_with (Some "-3") None None None) = JsNumber.five
  /\ normalizedLength (Sample.request_with (Some "0") None None None) = JsNumber.five
  /\ normalizedLength (Sample.request_with (Some "Infinity") None None None)
     = JsNumber.five
  /\ normalizedLength (Sample.request_with (Some "1e-400") None None None)
     = JsNumber.five
  /\ normalizedLength (Sample.request_with (Some "7.5") None None None)
     = S754_finite false 8444249301319680 (-50)
  /\ normalizedLength (Sample.request_with (Some " 12 minutes") None None None)
     = S754_finite false 6755399441055744 (-49).
Proof. repeat split; vm_compute; reflexivity. Qed.

(** C8: the length in the first part of the prompt sent to the generator
    is the parsed podcastLength field when that is finite and above zero,
    and 5 otherwise: when the field is missing, is not numeric, or is zero
    or negative. *)
Theorem podcast_length_in_prompt (w : world) (req : request) key parts :
  In (EvPostGemini key parts) (sync (generate_podcast w req)) ->
  let parsed := parseFloat (with_default "5" (podcastLength req)) in
  exists len rest,
    parts = TextPart [Lit intro_before; Interp len; Lit intro_after] :: rest
    /\ (positive_finite parsed -> len = parsed)
    /\ (~ positive_finite parsed -> len = JsNumber.five)
    /\ (podcastLength req = None -> len = JsNumber.five)
    /\ (forall r, podcastLength req = Some (String "-" r) -> len = JsNumber.five).
Proof.
  intros Hin parsed.
  apply sync_cases in Hin.
  destruct Hin as [Hok | [[ps E] | [(p & E & _) | [b E]]]]; try discriminate.
  cbn in Hok. destruct Hok as [_ [rest ->]].
  exists (normalizedLength req), rest.
  destruct (normalizedLength_cases req) as [Hpos Hneg].
  repeat split; auto.
  - intros E. unfold normalizedLength. rewrite E. reflexivity.
  - intros r E. apply Hneg. rewrite E. apply minus_sign_not_positive.
Qed.

Lemma podcast_length_in_prompt_witness :
  exists len rest,
    Sample.prompt (parseFloat "7.5")
    = TextPart [Lit intro_before; Interp len; Lit intro_after] :: rest
    /\ (positive_finite (parseFloat "7.5") -> len = parseFloat "7.5")
    /\ (~ positive_finite (parseFloat "7.5") -> len = JsNumber.five)
    /\ (Some "7.5" = None -> len = JsNumber.five)
    /\ (forall r, Some "7.5" = Some (String "-" r) -> len = JsNumber.five).
Proof.
  apply (podcast_length_in_prompt Sample.good_world
           (Sample.request_with (Some "7.5") (Some "en-US-chirp-m")
              (Some "en-US-chirp-f") None)
           (Some "key") (Sample.prompt (parseFloat "7.5"))).
  vm_compute. right. right. left. reflexivity.
Defined.

(** ** The duration guard *)

Ltac probes_solve :=
  repeat first [apply Forall_nil | apply Forall_cons];
  try (cbn; eauto 8 using eq_sym).

Lemma script_stage_probes w req s t s' r :
  script_stage w req s = (t, s', r) -> Forall (probe_good w) t.
Proof.
  intros H. apply script_stage_shape in H.
  destruct H as (_ & tc & Hc & [[-> _] | [rest ->]]);
    (constructor; [exact I |]); rewrite ?Forall_app; repeat split;
    try (repeat constructor);
    (eapply Forall_impl; [| exact Hc]); intros []; cbn; tauto.
Qed.

Lemma sources_stage_probes w req s t s' r :
  sources_stage w req s = (t, s', r) -> Forall (probe_good w) t.
Proof. intros H. stage_unfold H. minv; probes_solve. Qed.

Lemma render_line_probes w req mv wv index line s t s' p :
  render_line w req mv wv index line s = (t, s', Returned p) ->
  Forall (probe_good w) t.
Proof. intros H. stage_unfold H. minv; guard_facts; probes_solve. Qed.

Lemma render_loop_probes w req mv wv script :
  forall index clips s t s' out,
    render_loop w req mv wv index script clips s = (t, s', Returned out) ->
    Forall (probe_good w) t.
Proof.
  induction script as [|line rest IH]; intros index clips s t s' out H;
    cbn [render_loop] in H.
  - minv. constructor.
  - destruct (skipped line); [eauto |]. minv.
    apply Forall_app. eauto using render_line_probes.
Qed.

Lemma finish_stage_probes w req clips s t s' r :
  finish_stage w req clips s = (t, s', r) -> Forall (probe_good w) t.
Proof. intros H. stage_unfold H. minv; probes_solve. Qed.

Lemma try_block_probes w req s t s' b :
  try_block w req s = (t, s', Returned b) -> Forall (probe_good w) t.
Proof.
  unfold try_block. intros H.
  destruct (negb (field_truthy (apiKey req))).
  { minv. repeat constructor. }
  destruct (negb (validateChirpVoice (manVoice req))
            || negb (validateChirpVoice (womanVoice req))).
  { minv. repeat constructor. }
  unfold pipeline in H. minv.
  repeat (apply Forall_app; split);
    eauto using script_stage_probes, sources_stage_probes, render_loop_probes,
      finish_stage_probes.
Qed.

(** A run whose [try] block threw answers 500, and only that. *)
Lemma thrown_run w req t s msg :
  try_block w req initial = (t, s, Thrown msg) ->
  exists b,
    sync (generate_podcast w req)
    = t ++ cleanupFiles_issue (cleanupPaths s) ++ [EvRespond 500 (JsonError b)]
    /\ later (generate_podcast w req) = cleanupFiles_settle (cleanupPaths s)
    /\ registered (generate_podcast w req) = cleanupPaths s.
Proof. unfold generate_podcast. intros ->. cbn. eauto. Qed.

Lemma returned_run w req t s b :
  try_block w req initial = (t, s, Returned b) ->
  sync (generate_podcast w req) = t
  /\ registered (generate_podcast w req) = cleanupPaths s.
Proof. unfold generate_podcast. intros ->. destruct b; cbn; auto. Qed.

Ltac in_list := repeat first [left; reflexivity | right].

(** What the test of line 366 lets through and what it stops: it stops
    zero, NaN, undefined and null, and lets through every other number and
    every non-empty text. *)
Example other_durations_pass_the_guard :
  passes_guard (JNum (S754_infinity false)) /\ passes_guard (JStr "N/A")
  /\ ~ passes_guard (JNum JsNumber.zero) /\ ~ passes_guard (JNum S754_nan)
  /\ ~ passes_guard JUndefined /\ ~ passes_guard JNull.
Proof.
  unfold passes_guard. cbn.
  repeat split; try reflexivity; intros [H1 H2]; discriminate.
Qed.

(** ** The order of the steps *)

Lemma steps_app t1 t2 : steps (t1 ++ t2) = steps t1 ++ steps t2.
Proof. apply flat_map_app. Qed.

Lemma StronglySorted_app (l1 l2 : list nat) :
  StronglySorted le l1 -> StronglySorted le l2 ->
  (forall x y, In x l1 -> In y l2 -> x <= y) ->
  StronglySorted le (l1 ++ l2).
Proof.
  induction l1 as [|a l1 IH]; intros H1 H2 Hle; cbn; [exact H2 |].
  inversion H1 as [|? ? Hs Hf]; subst. constructor.
  - apply IH; auto. intros x y Hx Hy. apply Hle; [right |]; assumption.
  - apply Forall_app. split; [exact Hf |].
    apply Forall_forall. intros y Hy. apply Hle; [left; reflexivity | exact Hy].
Qed.

Lemma bounded_app lo mid hi t1 t2 :
  bounded lo mid t1 -> bounded mid hi t2 -> lo <= mid <= hi ->
  bounded lo hi (t1 ++ t2).
Proof.
  unfold bounded, in_order. intros [S1 B1] [S2 B2] Hm.
  rewrite steps_app, map_app. split.
  - apply StronglySorted_app; auto. intros x y Hx Hy.
    rewrite Forall_forall in B1, B2. specialize (B1 _ Hx). specialize (B2 _ Hy). lia.
  - apply Forall_app. split; (eapply Forall_impl; [| eassumption]); cbn; intros; lia.
Qed.

Lemma bounded_weaken lo hi lo' hi' t :
  bounded lo hi t -> lo' <= lo -> hi <= hi' -> bounded lo' hi' t.
Proof.
  unfold bounded. intros [S B] H1 H2. split; [exact S |].
  eapply Forall_impl; [| exact B]. cbn. intros. lia.
Qed.

Lemma bounded_nil lo hi : bounded lo hi [].
Proof. split; constructor. Qed.

Lemma compose_steps tc : Forall compose_event tc -> steps tc = [].
Proof.
  induction 1 as [|e tc He _ IH]; [reflexivity |].
  destruct e; try contradiction; exact IH.
Qed.

Ltac bounded_solve :=
  unfold bounded, in_order; cbn; split; repeat constructor; lia.

Lemma steps_call c t : steps (EvCall c :: t) = step_of c :: steps t.
Proof. reflexivity. Qed.

Lemma script_stage_order w req s t s' r :
  script_stage w req s = (t, s', r) -> bounded 0 1 t.
Proof.
  intros H. apply script_stage_shape in H.
  destruct H as (_ & tc & Hc & [[-> _] | [rest ->]]);
    unfold bounded, in_order;
    rewrite steps_call, ?steps_app, (compose_steps _ Hc);
    cbn; split; repeat constructor; lia.
Qed.

Lemma sources_stage_order w req s t s' r :
  sources_stage w req s = (t, s', r) -> bounded 2 2 t.
Proof. intros H. stage_unfold H. minv; bounded_solve. Qed.

Lemma render_line_order w req mv wv index line s t s' r :
  render_line w req mv wv index line s = (t, s', r) -> bounded 3 3 t.
Proof. intros H. stage_unfold H. minv; bounded_solve. Qed.

Lemma render_loop_order w req mv wv script :
  forall index clips s t s' r,
    render_loop w req mv wv index script clips s = (t, s', r) -> bounded 3 3 t.
Proof.
  induction script as [|line rest IH]; intros index clips s t s' r H;
    cbn [render_loop] in H.
  - minv. apply bounded_nil.
  - destruct (skipped line); [eauto |]. minv.
    + eauto using render_line_order.
    + eapply bounded_app; eauto using render_line_order.
Qed.

Lemma finish_stage_order w req clips s t s' r :
  finish_stage w req clips s = (t, s', r) -> bounded 4 4 t.
Proof. intros H. stage_unfold H. minv; bounded_solve. Qed.






(** ** Registration and cleanup *)

Lemma pushed_app t1 t2 : pushed (t1 ++ t2) = pushed t1 ++ pushed t2.
Proof. apply flat_map_app. Qed.

Lemma compose_pushed tc : Forall compose_event tc -> pushed tc = [].
Proof.
  induction 1 as [|e tc He _ IH]; [reflexivity |].
  destruct e; try contradiction; exact IH.
Qed.

Lemma keeps_law_app s t1 s1 t2 s2 :
  keeps_law s t1 s1 -> keeps_law s1 t2 s2 -> keeps_law s (t1 ++ t2) s2.
Proof.
  unfold keeps_law. intros H1 H2. rewrite H2, H1, pushed_app, app_assoc. reflexivity.
Qed.

Lemma keeps_law_nil s : keeps_law s [] s.
Proof. unfold keeps_law. cbn. now rewrite app_nil_r. Qed.

Ltac law_solve :=
  unfold keeps_law; cbn;
  repeat match goal with
         | H : cleanupPaths ?x = _ |- context [cleanupPaths ?x] => rewrite H; clear H
         end;
  rewrite <- ?app_assoc, ?app_nil_r; cbn;
  rewrite <- ?app_assoc, ?app_nil_r; reflexivity.

Lemma script_stage_law w req s t s' r :
  script_stage w req s = (t, s', r) -> keeps_law s t s'.
Proof.
  intros H. apply script_stage_shape in H.
  destruct H as (-> & tc & Hc & [[-> _] | [rest ->]]); unfold keeps_law;
    change (pushed (EvCall Call_prepareTopicParts :: ?l)) with (pushed l);
    rewrite ?pushed_app, (compose_pushed _ Hc); cbn; now rewrite app_nil_r.
Qed.

Lemma sources_stage_law w req s t s' r :
  sources_stage w req s = (t, s', r) -> keeps_law s t s'.
Proof. intros H. stage_unfold H. minv; law_solve. Qed.

Lemma render_line_law w req mv wv index line s t s' r :
  render_line w req mv wv index line s = (t, s', r) -> keeps_law s t s'.
Proof. intros H. stage_unfold H. minv; law_solve. Qed.

Lemma render_loop_law w req mv wv script :
  forall index clips s t s' r,
    render_loop w req mv wv index script clips s = (t, s', r) -> keeps_law s t s'.
Proof.
  induction script as [|line rest IH]; intros index clips s t s' r H;
    cbn [render_loop] in H.
  - minv. apply keeps_law_nil.
  - destruct (skipped line); [eauto |]. minv.
    + eauto using render_line_law.
    + eapply keeps_law_app; eauto using render_line_law.
Qed.

Lemma finish_stage_law w req clips s t s' r :
  finish_stage w req clips s = (t, s', r) -> keeps_law s t s'.
Proof. intros H. stage_unfold H. minv; law_solve. Qed.

Ltac stage_laws :=
  repeat match goal with
         | H : script_stage _ _ _ = _ |- _ => apply script_stage_law in H
         | H : sources_stage _ _ _ = _ |- _ => apply sources_stage_law in H
         | H : render_loop _ _ _ _ _ _ _ _ = _ |- _ => apply render_loop_law in H
         | H : finish_stage _ _ _ _ = _ |- _ => apply finish_stage_law in H
         end.

Lemma try_block_law w req s t s' r :
  try_block w req s = (t, s', r) -> keeps_law s t s'.
Proof.
  unfold try_block. intros H.
  destruct (negb (field_truthy (apiKey req))).
  { minv. law_solve. }
  destruct (negb (validateChirpVoice (manVoice req))
            || negb (validateChirpVoice (womanVoice req))).
  { minv. law_solve. }
  unfold pipeline in H. minv; stage_laws; eauto using keeps_law_app.
Qed.

(** Until the answer is sent the trace is quiet; a [try] block that throws
    has sent no answer. *)
Lemma finish_stage_thrown w req clips s t s' msg :
  finish_stage w req clips s = (t, s', Thrown msg) -> Forall quiet t.
Proof. intros H. stage_unfold H. minv; repeat constructor. Qed.

Lemma try_block_thrown w req s t s' msg :
  try_block w req s = (t, s', Thrown msg) -> Forall quiet t.
Proof.
  unfold try_block. intros H.
  destruct (negb (field_truthy (apiKey req))); [minv |].
  destruct (negb (validateChirpVoice (manVoice req))
            || negb (validateChirpVoice (womanVoice req))); [minv |].
  unfold pipeline in H. minv;
    repeat match goal with
           | H : script_stage _ _ _ = _ |- _ =>
               apply script_stage_events, Forall_snd in H
           | H : sources_stage _ _ _ = _ |- _ =>
               apply sources_stage_events, Forall_snd in H
           | H : render_loop _ _ _ _ _ _ _ _ = _ |- _ =>
               apply render_loop_events, Forall_snd in H
           | H : finish_stage _ _ _ _ = _ |- _ => apply finish_stage_thrown in H
           end;
    repeat (apply Forall_app; split);
    try assumption; (eapply Forall_impl; [| eassumption]); apply early_quiet.
Qed.

(** A run that answers 500 is a run whose [try] block threw. *)
Lemma answered_500 w req b :
  In (EvRespond 500 b) (sync (generate_podcast w req)) ->
  exists t s msg, try_block w req initial = (t, s, Thrown msg).
Proof.
  intros Hin. destruct (try_block w req initial) as [[t s] [v | msg]] eqn:Hrun.
  - exfalso. destruct (returned_run _ _ _ _ _ Hrun) as [Hs _]. rewrite Hs in Hin.
    apply try_block_events in Hrun. rewrite Forall_forall in Hrun.
    specialize (Hrun _ Hin). cbn in Hrun.
    destruct Hrun as [E | [E _]]; discriminate.
  - eauto.
Qed.

Lemma quiet_not_respond t st b : Forall quiet t -> ~ In (EvRespond st b) t.
Proof. rewrite Forall_forall. intros H Hin. exact (H _ Hin). Qed.

(** C5, as the handler has it: when a run fails, the handler calls unlink
    for every registered path, then sends the 500 answer, the only answer
    of the run; it does not wait for the unlinks, which settle after the
    handler's turn has ended. *)
Theorem failure_cleanup (w : world) (req : request) b :
  In (EvRespond 500 b) (sync (generate_podcast w req)) ->
  let r := generate_podcast w req in
  exists t,
    sync r = t ++ EvCall (Call_cleanupFiles (registered r))
               :: map EvUnlink (registered r) ++ [EvRespond 500 b]
    /\ registered r = pushed t
    /\ (forall st b', ~ In (EvRespond st b') t)
    /\ (forall p, ~ In (EvUnlinkSettled p) (sync r))
    /\ later r = map EvUnlinkSettled (registered r).
Proof.
  intros Hin r.
  destruct (answered_500 _ _ _ Hin) as (t & s & msg & Hrun).
  destruct (thrown_run _ _ _ _ _ Hrun) as (b' & Hs & Hl & Hr).
  pose proof (try_block_thrown _ _ _ _ _ _ Hrun) as Hq.
  pose proof (try_block_law _ _ _ _ _ _ Hrun) as Hlaw.
  unfold keeps_law in Hlaw. cbn in Hlaw.
  subst r. rewrite Hr, Hl. exists t.
  assert (Hb : JsonError b' = b).
  { rewrite Hs in Hin. apply in_app_or in Hin. destruct Hin as [Hin | Hin].
    - exfalso. exact (quiet_not_respond _ _ _ Hq Hin).
    - destruct Hin as [E | Hin]; [discriminate |].
      apply in_app_or in Hin. destruct Hin as [Hin | [E | []]].
      + apply in_map_iff in Hin. destruct Hin as (p & E & _). discriminate.
      + now injection E. }
  rewrite Hs, Hb. repeat split; auto.
  - intros st b0. apply quiet_not_respond. exact Hq.
  - intros p Hp. apply in_app_or in Hp. destruct Hp as [Hp | Hp].
    + rewrite Forall_forall in Hq. exact (Hq _ Hp).
    + destruct Hp as [E | Hp]; [discriminate |].
      apply in_app_or in Hp. destruct Hp as [Hp | [E | []]]; [| discriminate].
      apply in_map_iff in Hp. destruct Hp as (q & E & _). discriminate.
Qed.

Lemma failure_cleanup_witness :
  exists t,
    sync (generate_podcast Sample.tts_down Sample.good_request)
    = t ++ EvCall (Call_cleanupFiles
                     (registered (generate_podcast Sample.tts_down Sample.good_request)))
          :: map EvUnlink
               (registered (generate_podcast Sample.tts_down Sample.good_request))
          ++ [EvRespond 500 (JsonError "quota exceeded")]
    /\ registered (generate_podcast Sample.tts_down Sample.good_request) = pushed t
    /\ (forall st b', ~ In (EvRespond st b') t)
    /\ (forall p,
          ~ In (EvUnlinkSettled p)
              (sync (generate_podcast Sample.tts_down Sample.good_request)))
    /\ later (generate_podcast Sample.tts_down Sample.good_request)
       = map EvUnlinkSettled
           (registered (generate_podcast Sample.tts_down Sample.good_request)).
Proof.
  apply (failure_cleanup Sample.tts_down Sample.good_request
           (JsonError "quota exceeded")).
  vm_compute. in_list.
Defined.

(** In the sample run that fails at the first synthesis, four paths are
    registered and the 500 answer is sent while none of their unlinks has
    settled. *)
Lemma answer_precedes_unlink_completion :
  ~ cleanup_settled_before_answer
      (generate_podcast Sample.tts_down Sample.good_request).
Proof.
  intros H.
  destruct (H (SourcePath man "a")) as (pre & b & post & E & Hin).
  - vm_compute. in_list.
  - assert (Hs : In (EvUnlinkSettled (SourcePath man "a"))
                   (sync (generate_podcast Sample.tts_down Sample.good_request))).
    { rewrite E. apply in_or_app. left. exact Hin. }
    vm_compute in Hs.
    repeat match goal with
           | H : _ \/ _ |- _ => destruct H as [H | H]; [discriminate |]
           end.
    exact Hs.
Qed.

(** What a run that answers 200 has done. *)
Lemma try_block_returned w req s t s' b :
  try_block w req s = (t, s', Returned b) ->
  (b = false /\ exists body, t = [EvRespond 400 body])
  \/ (b = true /\ exists u, In (EvFfmpegSave (OutputPath u)) t).
Proof.
  unfold try_block. intros H.
  destruct (negb (field_truthy (apiKey req))).
  { minv. left. cbn. eauto. }
  destruct (negb (validateChirpVoice (manVoice req))
            || negb (validateChirpVoice (womanVoice req))).
  { minv. left. cbn. eauto. }
  right. unfold pipeline in H. minv.
  match goal with H : finish_stage _ _ _ _ = _ |- _ => stage_unfold H end.
  minv. split; [reflexivity |]. eexists. cbn [app].
  do 3 (apply in_or_app; right). in_list.
Qed.

Lemma answered_200 w req b :
  In (EvRespond 200 b) (sync (generate_podcast w req)) ->
  exists t s, try_block w req initial = (t, s, Returned true)
              /\ exists u, In (EvFfmpegSave (OutputPath u)) t.
Proof.
  intros Hin. destruct (try_block w req initial) as [[t s] [v | msg]] eqn:Hrun.
  - destruct (try_block_returned _ _ _ _ _ _ Hrun) as [[-> [body ->]] | [-> Hu]].
    + exfalso. destruct (returned_run _ _ _ _ _ Hrun) as [Hs _]. rewrite Hs in Hin.
      destruct Hin as [E | []]. discriminate.
    + eauto.
  - exfalso. destruct (thrown_run _ _ _ _ _ Hrun) as (b' & Hs & _).
    rewrite Hs in Hin. apply in_app_or in Hin. destruct Hin as [Hin | Hin].
    + exact (quiet_not_respond _ _ _ (try_block_thrown _ _ _ _ _ _ Hrun) Hin).
    + destruct Hin as [E | Hin]; [discriminate |].
      apply in_app_or in Hin. destruct Hin as [Hin | [E | []]]; [| discriminate].
      apply in_map_iff in Hin. destruct Hin as (p & E & _). discriminate.
Qed.

Lemma pushed_intermediate w req t :
  Forall (ev_ok w req) t -> Forall is_intermediate (pushed t).
Proof.
  induction 1 as [|e t He _ IH]; [constructor |].
  destruct e; try exact IH.
  cbn in He |- *. fold (pushed t). apply Forall_app. split; assumption.
Qed.

Lemma pushed_not_upload t :
  Forall quiet t -> Forall (fun p => is_upload p = false) (pushed t).
Proof.
  induction 1 as [|e t He _ IH]; [constructor |].
  destruct e; try exact IH.
  cbn in He |- *. fold (pushed t). apply Forall_app. split; assumption.
Qed.

(** The final file of the sample run is written and never registered. *)
Lemma final_file_never_unlinked :
  ~ final_file_cleaned (generate_podcast Sample.good_world Sample.good_request).
Proof.
  intros H. destruct (H "g") as [Hreg _].
  - vm_compute. in_list.
  - vm_compute in Hreg.
    repeat match goal with
           | H : _ \/ _ |- _ => destruct H as [H | H]; [discriminate |]
           end.
    exact Hreg.
Qed.

(** ** Uploaded files *)

(** A run that fails registers no upload and unlinks none. *)
Lemma uploads_survive_failure (w : world) (req : request) b name :
  In (EvRespond 500 b) (sync (generate_podcast w req)) ->
  ~ In (UploadPath name) (registered (generate_podcast w req))
  /\ ~ In (EvUnlink (UploadPath name))
         (sync (generate_podcast w req) ++ later (generate_podcast w req)).
Proof.
  intros Hin.
  destruct (answered_500 _ _ _ Hin) as (t & s & msg & Hrun).
  destruct (thrown_run _ _ _ _ _ Hrun) as (b' & Hs & Hl & Hr).
  pose proof (try_block_thrown _ _ _ _ _ _ Hrun) as Hq.
  pose proof (try_block_events _ _ _ _ _ _ Hrun) as Hok.
  pose proof (try_block_law _ _ _ _ _ _ Hrun) as Hlaw.
  unfold keeps_law in Hlaw. cbn in Hlaw.
  assert (Hreg : ~ In (UploadPath name) (cleanupPaths s)).
  { intros Hu. rewrite Hlaw in Hu. pose proof (pushed_not_upload _ Hq) as Hn.
    rewrite Forall_forall in Hn. specialize (Hn _ Hu). discriminate. }
  rewrite Hr, Hs, Hl. split; [exact Hreg |].
  intros Hu. rewrite <- !app_assoc in Hu.
  apply in_app_or in Hu. destruct Hu as [Hu | Hu].
  - rewrite Forall_forall in Hok. specialize (Hok _ Hu). cbn in Hok.
    destruct Hok as [u' E]. discriminate.
  - destruct Hu as [E | Hu]; [discriminate |].
    apply in_app_or in Hu. destruct Hu as [Hu | Hu].
    + apply in_map_iff in Hu. destruct Hu as (p & E & Hp).
      injection E as ->. exact (Hreg Hp).
    + destruct Hu as [E | Hu]; [discriminate |].
      apply in_map_iff in Hu. destruct Hu as (p & E & _). discriminate.
Qed.

(** C6 at a failing input: the request uploads a topic file, the
    generator is unreachable; the upload is read, the run answers 500, and
    the upload is neither registered nor ever unlinked. *)
Theorem upload_left_after_failed_run :
  let r := generate_podcast Sample.gemini_down Sample.upload_request in
  In (EvReadFile (UploadPath "3f2a9c")) (sync r)
  /\ In (EvRespond 500 (JsonError "connect ETIMEDOUT")) (sync r)
  /\ registered r = []
  /\ ~ In (EvUnlink (UploadPath "3f2a9c")) (sync r ++ later r).
Proof.
  cbv zeta.
  assert (H500 : In (EvRespond 500 (JsonError "connect ETIMEDOUT"))
                   (sync (generate_podcast Sample.gemini_down Sample.upload_request))).
  { vm_compute. in_list. }
  repeat split.
  - vm_compute. in_list.
  - exact H500.
  - apply (uploads_survive_failure _ _ _ "3f2a9c" H500).
Qed.

(** The sibling path: when the same request succeeds, the upload is
    registered after the answer and unlinked by the deferred cleanup. *)
Example upload_unlinked_after_success :
  let r := generate_podcast Sample.good_world Sample.upload_request in
  In (UploadPath "3f2a9c") (registered r)
  /\ In (EvUnlink (UploadPath "3f2a9c")) (later r).
Proof. split; vm_compute; in_list. Qed.

(** ** Clips and the filtered script *)

Lemma rendered_clips_app t1 t2 :
  rendered_clips (t1 ++ t2) = rendered_clips t1 ++ rendered_clips t2.
Proof. apply flat_map_app. Qed.

Lemma synth_texts_app t1 t2 :
  synth_texts (t1 ++ t2) = synth_texts t1 ++ synth_texts t2.
Proof. apply flat_map_app. Qed.

(** A stage that makes no rendering call renders nothing. *)
Lemma off_stage_renders_nothing lo hi t :
  bounded lo hi t -> hi < 3 \/ 3 < lo ->
  rendered_clips t = [] /\ synth_texts t = [].
Proof.
  unfold bounded. intros [_ B] Hr. induction t as [|e t IH]; [auto |].
  destruct e as [c| | | | | | | | | | | | | | |]; try (apply IH; exact B).
  cbn in B. inversion B as [|? ? Hc B']; subst.
  specialize (IH B').
  destruct c; cbn in Hc |- *; try exact IH; lia.
Qed.

Lemma off_stage_no_concat lo hi t clips out :
  bounded lo hi t -> hi < 4 -> ~ In (EvCall (Call_concatenateClips clips out)) t.
Proof.
  unfold bounded. intros [_ B] Hr Hin.
  assert (Hs : In Concatenating (steps t)).
  { unfold steps. apply in_flat_map. eexists. split; [exact Hin |]. cbn. auto. }
  rewrite Forall_forall in B.
  specialize (B _ (in_map actual_position _ _ Hs)). cbn in B. lia.
Qed.

Lemma render_line_result w req mv wv index line s t s' p :
  render_line w req mv wv index line s = (t, s', Returned p) ->
  is_clip p /\ line_number p = S index
  /\ rendered_clips t = [p] /\ synth_texts t = [JsVal.get line "line"].
Proof.
  intros H. stage_unfold H. minv. cbn. rewrite Nat.add_1_r. auto.
Qed.

Lemma kept_from_cons first line rest :
  kept_from first (line :: rest)
  = if skipped line then kept_from (S first) rest
    else (first, line) :: kept_from (S first) rest.
Proof. unfold kept_from. cbn. destruct (skipped line); reflexivity. Qed.

Lemma render_loop_result w req mv wv script :
  forall index clips s t s' out,
    render_loop w req mv wv index script clips s = (t, s', Returned out) ->
    exists new,
      out = clips ++ new
      /\ Forall is_clip new
      /\ map line_number new = map fst (kept_from (S index) script)
      /\ rendered_clips t = new
      /\ synth_texts t
         = map (fun e => JsVal.get (snd e) "line") (kept_from (S index) script).
Proof.
  induction script as [|line rest IH]; intros index clips s t s' out H;
    cbn [render_loop] in H.
  - minv. exists []. rewrite app_nil_r. cbn. auto.
  - rewrite kept_from_cons. destruct (skipped line); [eauto |]. minv.
    match goal with H : render_line _ _ _ _ _ _ _ = _ |- _ =>
      apply render_line_result in H; destruct H as (Hc & Hn & Hr & Ht) end.
    match goal with H : render_loop _ _ _ _ _ _ _ _ = _ |- _ =>
      apply IH in H; destruct H as (new & -> & Hf & Hm & Hr' & Ht') end.
    eexists (_ :: new). rewrite <- app_assoc. cbn [app map fst snd].
    rewrite rendered_clips_app, synth_texts_app, Hr, Ht, Hr', Ht', Hn, Hm.
    repeat split; auto.
Qed.

(** A loop that renders nothing and does not fail was given nothing to
    render. *)
Lemma render_loop_empty w req mv wv script index s t s' r :
  kept_from (S index) script = [] ->
  render_loop w req mv wv index script [] s = (t, s', r) ->
  r = Returned [].
Proof.
  revert index s t s' r. induction script as [|line rest IH];
    intros index s t s' r Hk H; cbn [render_loop] in H.
  - minv. reflexivity.
  - rewrite kept_from_cons in Hk. destruct (skipped line); [eauto | discriminate].
Qed.

Lemma finish_stage_concat w req clips s t s' r clips' out :
  finish_stage w req clips s = (t, s', r) ->
  In (EvCall (Call_concatenateClips clips' out)) t ->
  clips' = clips /\ rendered_clips t = [] /\ synth_texts t = [].
Proof.
  intros H Hin. stage_unfold H. minv; cbn in Hin;
    repeat match goal with
           | H : _ \/ _ |- _ => destruct H as [H | H]
           | H : False |- _ => contradiction
           | H : EvCall _ = EvCall _ |- _ => injection H as -> ->
           end; try discriminate; auto.
Qed.

Lemma finish_stage_empty w req s t s' r :
  finish_stage w req [] s = (t, s', r) -> t = [] /\ exists msg, r = Thrown msg.
Proof. intros H. stage_unfold H. minv. eauto. Qed.

Ltac stage_early :=
  repeat match goal with
         | H : script_stage _ _ _ = _ |- _ =>
             apply script_stage_events, Forall_snd in H
         | H : sources_stage _ _ _ = _ |- _ =>
             apply sources_stage_events, Forall_snd in H
         | H : render_loop _ _ _ _ _ _ _ _ = _ |- _ =>
             apply render_loop_events, Forall_snd in H
         end.

Ltac stage_orders :=
  repeat match goal with
         | H : script_stage _ _ _ = _ |- _ => apply script_stage_order in H
         | H : sources_stage _ _ _ = _ |- _ => apply sources_stage_order in H
         | H : render_loop _ _ _ _ _ _ _ _ = _ |- _ => apply render_loop_order in H
         | H : finish_stage _ _ _ _ = _ |- _ => apply finish_stage_order in H
         end.

Lemma pipeline_clips w req s t s' r t0 s0 script :
  script_stage w req s = (t0, s0, Returned script) ->
  pipeline w req s = (t, s', r) ->
  (forall clips out,
      In (EvCall (Call_concatenateClips clips out)) t ->
      Forall is_clip clips
      /\ map line_number clips = map fst (kept_lines script)
      /\ rendered_clips t = clips
      /\ synth_texts t = map (fun e => JsVal.get (snd e) "line") (kept_lines script))
  /\ (kept_lines script = [] -> (exists msg, r = Thrown msg) /\ Forall early t).
Proof.
  intros Hscript H. unfold pipeline in H. minv;
    try (match goal with H : script_stage _ _ _ = _ |- _ =>
           rewrite Hscript in H; injection H as <- <- <- end);
    try congruence.
  - (* the sources are not resolved *)
    split; [| intros _; split; [eauto |]; stage_early;
              repeat (apply Forall_app; split); assumption].
    intros clips out Hin. exfalso.
    stage_orders. apply in_app_or in Hin. destruct Hin as [Hin | Hin];
      eapply off_stage_no_concat in Hin; eauto.
  - (* a line is not rendered *)
    split; [| intros _; split; [eauto |]; stage_early;
              repeat (apply Forall_app; split); assumption].
    intros clips out Hin. exfalso.
    stage_orders. apply in_app_or in Hin. destruct Hin as [Hin | Hin];
      [| apply in_app_or in Hin; destruct Hin as [Hin | Hin]];
      eapply off_stage_no_concat in Hin; eauto.
  - (* every kept line is rendered *)
    match goal with H : render_loop _ _ _ _ _ _ _ _ = _ |- _ =>
      pose proof (render_loop_result _ _ _ _ _ _ _ _ _ _ _ H)
        as (new & Hnew & Hclip & Hnum & Hr & Ht);
      pose proof (render_loop_order _ _ _ _ _ _ _ _ _ _ _ H) as Ho3 end.
    cbn [app] in Hnew. subst.
    match goal with H : script_stage _ _ _ = _ |- _ =>
      pose proof (script_stage_order _ _ _ _ _ _ H) as Ho1 end.
    match goal with H : sources_stage _ _ _ = _ |- _ =>
      pose proof (sources_stage_order _ _ _ _ _ _ H) as Ho2 end.
    destruct (off_stage_renders_nothing 0 1 _ Ho1) as [R1 T1]; [lia |].
    destruct (off_stage_renders_nothing 2 2 _ Ho2) as [R2 T2]; [lia |].
    split.
    + intros clips out Hin.
      apply in_app_or in Hin. destruct Hin as [Hin | Hin];
        [exfalso; eapply off_stage_no_concat in Hin; eauto |].
      apply in_app_or in Hin. destruct Hin as [Hin | Hin];
        [exfalso; eapply off_stage_no_concat in Hin; eauto |].
      apply in_app_or in Hin. destruct Hin as [Hin | Hin];
        [exfalso; eapply off_stage_no_concat in Hin; eauto |].
      match goal with H : finish_stage _ _ _ _ = _ |- _ =>
        destruct (finish_stage_concat _ _ _ _ _ _ _ _ _ H Hin) as (-> & R4 & T4) end.
      rewrite !rendered_clips_app, !synth_texts_app, R1, R2, R4, T1, T2, T4, Ht.
      cbn [app]. rewrite !app_nil_r. unfold kept_lines. auto.
    + intros Hk. unfold kept_lines in Hk. rewrite Hk in Hnum.
      match type of Hnum with
      | map line_number (rendered_clips ?t3) = _ =>
          destruct (rendered_clips t3) eqn:E; [| discriminate]
      end.
      match goal with H : finish_stage _ _ _ _ = _ |- _ =>
        apply finish_stage_empty in H; destruct H as [-> Hm] end.
      split; [exact Hm |]. stage_early.
      repeat (apply Forall_app; split); auto.
Qed.

Lemma early_not_output t u : Forall early t -> ~ In (EvFfmpegSave (OutputPath u)) t.
Proof.
  intros He Hin. rewrite Forall_forall in He. specialize (He _ Hin).
  cbn in He. destruct He as (u' & n & E). discriminate.
Qed.

(** The dialogue of the specification: entries 3 and 4 are dropped, two
    clips are rendered, the man's then the woman's. *)
Example sample_script_kept :
  kept_lines Sample.script
  = [(1, Sample.entry (JStr "Man") (JStr "Hi"));
     (2, Sample.entry (JStr "Woman") (JStr "Hello"))]
  /\ synth_voices (sync (generate_podcast Sample.good_world Sample.good_request))
     = [Some "en-US-chirp-m"; Some "en-US-chirp-f"].
Proof. split; reflexivity. Qed.

(** What is dropped, in the words of the specification. *)
Lemma well_formed_entry_kept line : well_formed_entry line -> skipped line = false.
Proof.
  intros (sp & text & Hs & Hsp & Hl & Ht & fields & ->).
  unfold skipped. rewrite Hs, Hl. cbn.
  destruct sp; [contradiction |]. destruct text; [contradiction |]. reflexivity.
Qed.

Lemma malformed_entry_skipped line :
  line = JNull
  \/ JsVal.get line "speaker" = JUndefined \/ JsVal.get line "speaker" = JStr EmptyString
  \/ JsVal.get line "line" = JUndefined \/ JsVal.get line "line" = JStr EmptyString ->
  skipped line = true.
Proof.
  unfold skipped. intros [-> | [H | [H | [H | H]]]]; try reflexivity;
    rewrite H; cbn; rewrite ?orb_true_r; reflexivity.
Qed.

(** ** Registration before creation *)

Lemma each_after_app P t1 : forall pre t2,
  each_after P pre (t1 ++ t2) <->
  each_after P pre t1 /\ each_after P (pre ++ t1) t2.
Proof.
  induction t1 as [|e t1 IH]; intros pre t2; cbn.
  - rewrite app_nil_r. tauto.
  - rewrite IH, <- app_assoc. cbn. tauto.
Qed.

Lemma each_after_split P t : forall pre,
  each_after P pre t ->
  forall t1 e t2, t = t1 ++ e :: t2 -> P (pre ++ t1) e.
Proof.
  intros pre H t1 e t2 ->. apply each_after_app in H. destruct H as [_ H].
  cbn in H. tauto.
Qed.

Lemma each_after_all P t :
  (forall pre e, In e t -> P pre e) -> forall pre, each_after P pre t.
Proof.
  induction t as [|e t IH]; intros H pre; cbn; [exact I |].
  split; [apply H; left; reflexivity |].
  apply IH. intros pre' e' Hin. apply H. right. exact Hin.
Qed.

Lemma compose_line_registered tc pre :
  Forall compose_event tc -> each_after line_registered pre tc.
Proof.
  intros Hc. apply each_after_all. intros pre' e Hin.
  rewrite Forall_forall in Hc. specialize (Hc _ Hin).
  destruct e; try contradiction; intros q [].
Qed.

Lemma compose_source_late tc pre :
  Forall compose_event tc -> each_after source_registered_late pre tc.
Proof.
  intros Hc. apply each_after_all. intros pre' e Hin.
  rewrite Forall_forall in Hc. specialize (Hc _ Hin).
  destruct e; try contradiction; intros qs sp u E; discriminate.
Qed.

Ltac line_solve :=
  cbn [each_after app];
  repeat match goal with
         | |- _ /\ _ => split
         | |- True => exact I
         end;
  unfold line_registered; cbn [creates];
  let q := fresh "q" in
  let Hq := fresh "Hq" in
  let Hl := fresh "Hl" in
  intros q Hq Hl; cbn in Hq; try contradiction;
  destruct Hq as [<- | []]; cbn in Hl; try contradiction;
  rewrite ?pushed_app, ?in_app_iff; cbn; auto 12.

Lemma script_stage_line_registered w req s t s' r pre :
  script_stage w req s = (t, s', r) -> each_after line_registered pre t.
Proof.
  intros H. apply script_stage_shape in H.
  destruct H as (_ & tc & Hc & [[-> _] | [rest ->]]).
  - cbn. split; [intros p [] |]. now apply compose_line_registered.
  - cbn. split; [intros p [] |]. apply each_after_app. split.
    + now apply compose_line_registered.
    + line_solve.
Qed.

Lemma sources_stage_line_registered w req s t s' r pre :
  sources_stage w req s = (t, s', r) -> each_after line_registered pre t.
Proof. intros H. stage_unfold H. minv; line_solve. Qed.

Lemma render_line_line_registered w req mv wv index line s t s' r pre :
  render_line w req mv wv index line s = (t, s', r) ->
  each_after line_registered pre t.
Proof. intros H. stage_unfold H. minv; line_solve. Qed.

Lemma render_loop_line_registered w req mv wv script :
  forall index clips s t s' r pre,
    render_loop w req mv wv index script clips s = (t, s', r) ->
    each_after line_registered pre t.
Proof.
  induction script as [|line rest IH]; intros index clips s t s' r pre H;
    cbn [render_loop] in H.
  - minv. exact I.
  - destruct (skipped line); [eauto |]. minv.
    + eauto using render_line_line_registered.
    + apply each_after_app. eauto using render_line_line_registered.
Qed.

Lemma finish_stage_line_registered w req clips s t s' r pre :
  finish_stage w req clips s = (t, s', r) -> each_after line_registered pre t.
Proof. intros H. stage_unfold H. minv; line_solve. Qed.

Lemma try_block_line_registered w req s t s' r pre :
  try_block w req s = (t, s', r) -> each_after line_registered pre t.
Proof.
  unfold try_block. intros H.
  destruct (negb (field_truthy (apiKey req))); [minv; line_solve |].
  destruct (negb (validateChirpVoice (manVoice req))
            || negb (validateChirpVoice (womanVoice req))); [minv; line_solve |].
  unfold pipeline in H. minv; rewrite ?each_after_app; repeat split;
    eauto using script_stage_line_registered, sources_stage_line_registered,
      render_loop_line_registered, finish_stage_line_registered.
Qed.

Lemma tempUploads_upload req p : In p (tempUploads req) -> is_upload p = true.
Proof.
  unfold tempUploads, file_path. cbn.
  destruct (topicFile req), (manVideoFile req), (womanVideoFile req); cbn;
    intuition (subst; reflexivity).
Qed.

Ltac split_each :=
  cbn [each_after app];
  repeat match goal with
         | |- _ /\ _ => split
         | |- True => exact I
         end.

Ltac source_solve :=
  split_each; unfold source_registered_late;
  let qs := fresh "qs" in
  let sp := fresh "sp" in
  let u := fresh "u" in
  let E := fresh "E" in
  let Hin := fresh "Hin" in
  intros qs sp u E Hin; try discriminate E;
  injection E as <-;
  try (apply tempUploads_upload in Hin; discriminate Hin);
  cbn in Hin;
  repeat match goal with
         | H : _ \/ _ |- _ => destruct H as [H | H]
         | H : False |- _ => contradiction
         end;
  try discriminate;
  try match goal with H : SourcePath _ _ = SourcePath _ _ |- _ =>
        injection H as <- <- end;
  rewrite ?steps_app, ?in_app_iff; cbn;
  intuition (auto; try discriminate).

Lemma script_stage_source_late w req s t s' r pre :
  script_stage w req s = (t, s', r) -> each_after source_registered_late pre t.
Proof.
  intros H. apply script_stage_shape in H.
  destruct H as (_ & tc & Hc & [[-> _] | [rest ->]]).
  - cbn. split; [intros qs sp u E; discriminate |]. now apply compose_source_late.
  - cbn. split; [intros qs sp u E; discriminate |]. apply each_after_app. split.
    + now apply compose_source_late.
    + source_solve.
Qed.

Lemma sources_stage_source_late w req s t s' r pre :
  ~ In Rendering (steps pre) ->
  sources_stage w req s = (t, s', r) -> each_after source_registered_late pre t.
Proof. intros Hpre H. stage_unfold H. minv; upload_paths; source_solve. Qed.

Lemma render_line_source_late w req mv wv index line s t s' r pre :
  render_line w req mv wv index line s = (t, s', r) ->
  each_after source_registered_late pre t.
Proof. intros H. stage_unfold H. minv; source_solve. Qed.

Lemma render_loop_source_late w req mv wv script :
  forall index clips s t s' r pre,
    render_loop w req mv wv index script clips s = (t, s', r) ->
    each_after source_registered_late pre t.
Proof.
  induction script as [|line rest IH]; intros index clips s t s' r pre H;
    cbn [render_loop] in H.
  - minv. exact I.
  - destruct (skipped line); [eauto |]. minv.
    + eauto using render_line_source_late.
    + apply each_after_app. eauto using render_line_source_late.
Qed.

Lemma finish_stage_source_late w req clips s t s' r pre :
  finish_stage w req clips s = (t, s', r) ->
  each_after source_registered_late pre t.
Proof. intros H. stage_unfold H. minv; source_solve. Qed.

Lemma bounded_not_rendering lo hi t :
  bounded lo hi t -> hi < 3 -> ~ In Rendering (steps t).
Proof.
  unfold bounded. intros [_ B] Hr Hin. rewrite Forall_forall in B.
  specialize (B _ (in_map actual_position _ _ Hin)). cbn in B. lia.
Qed.

Lemma try_block_source_late w req s t s' r :
  try_block w req s = (t, s', r) -> each_after source_registered_late [] t.
Proof.
  unfold try_block. intros H.
  destruct (negb (field_truthy (apiKey req))); [minv; source_solve |].
  destruct (negb (validateChirpVoice (manVoice req))
            || negb (validateChirpVoice (womanVoice req))); [minv; source_solve |].
  unfold pipeline in H. minv; rewrite ?each_after_app;
    repeat match goal with |- _ /\ _ => split end;
    first [ eapply script_stage_source_late; eassumption
          | eapply render_loop_source_late; eassumption
          | eapply finish_stage_source_late; eassumption
          | eapply sources_stage_source_late;
            [cbn [app]; eapply bounded_not_rendering;
             [eapply script_stage_order; eassumption | lia]
            | eassumption] ].
Qed.

Lemma catch_tail_cases ps b e :
  In e (cleanupFiles_issue ps ++ [EvRespond 500 b]) ->
  (exists qs, e = EvCall (Call_cleanupFiles qs))
  \/ (exists p, e = EvUnlink p) \/ e = EvRespond 500 b.
Proof.
  intros Hin. apply in_app_or in Hin.
  destruct Hin as [[<- | Hin] | [<- | []]]; eauto.
  apply in_map_iff in Hin. destruct Hin as (p & <- & _). eauto.
Qed.

Lemma issue_pushed ps : pushed (cleanupFiles_issue ps) = [].
Proof. unfold cleanupFiles_issue. cbn. induction ps; cbn; auto. Qed.

Lemma sync_line_registered w req :
  each_after line_registered [] (sync (generate_podcast w req)).
Proof.
  unfold generate_podcast.
  destruct (try_block w req initial) as [[t s] r] eqn:H.
  pose proof (try_block_line_registered _ _ _ _ _ _ [] H) as Ht.
  destruct r as [[|]|msg]; cbn [sync]; auto.
  apply each_after_app. split; [exact Ht |].
  apply each_after_all. intros pre e Hin. apply catch_tail_cases in Hin.
  destruct Hin as [[qs ->] | [[p ->] | ->]]; intros q [].
Qed.

Lemma sync_source_late w req :
  each_after source_registered_late [] (sync (generate_podcast w req)).
Proof.
  unfold generate_podcast.
  destruct (try_block w req initial) as [[t s] r] eqn:H.
  pose proof (try_block_source_late _ _ _ _ _ _ H) as Ht.
  destruct r as [[|]|msg]; cbn [sync]; auto.
  apply each_after_app. split; [exact Ht |].
  apply each_after_all. intros pre e Hin. apply catch_tail_cases in Hin.
  destruct Hin as [[qs ->] | [[p ->] | ->]]; intros qs' sp u E; discriminate.
Qed.

Lemma finish_stage_manifest w req clips s t s' b u :
  finish_stage w req clips s = (t, s', Returned b) ->
  In (EvWriteFile (ManifestPath u)) t -> In (EvUnlink (ManifestPath u)) t.
Proof.
  intros H Hin. stage_unfold H. minv. cbn in Hin |- *.
  repeat match goal with
         | H : _ \/ _ |- _ => destruct H as [H | H]
         | H : False |- _ => contradiction
         end; try discriminate.
  injection Hin as <-. in_list.
Qed.

Lemma early_not_manifest t u :
  Forall early t -> ~ In (EvWriteFile (ManifestPath u)) t.
Proof.
  intros He Hin. rewrite Forall_forall in He. specialize (He _ Hin).
  cbn in He. destruct He as (u' & n & E). discriminate.
Qed.

Lemma try_block_manifest w req s t s' u :
  try_block w req s = (t, s', Returned true) ->
  In (EvWriteFile (ManifestPath u)) t -> In (EvUnlink (ManifestPath u)) t.
Proof.
  unfold try_block. intros H Hin.
  destruct (negb (field_truthy (apiKey req))); [minv |].
  destruct (negb (validateChirpVoice (manVoice req))
            || negb (validateChirpVoice (womanVoice req))); [minv |].
  unfold pipeline in H. minv.
  match goal with H : finish_stage _ _ _ _ = _ |- _ =>
    pose proof (fun Hw => finish_stage_manifest _ _ _ _ _ _ _ u H Hw) as Hf end.
  stage_early.
  rewrite !in_app_iff in Hin |- *.
  destruct Hin as [Hin | [Hin | [Hin | Hin]]];
    [exfalso;
     match goal with He : Forall early ?l, Hi : In _ ?l |- _ =>
       exact (early_not_manifest _ _ He Hi) end ..
    | do 3 right; apply Hf; exact Hin].
Qed.

(** In the sample run the concat manifest is written while nothing that
    was pushed is the manifest. *)
Lemma manifest_created_unregistered :
  ~ registered_at_creation
      (sync (generate_podcast Sample.good_world Sample.good_request)).
Proof.
  intros H.
  specialize (H (firstn 28 (sync (generate_podcast Sample.good_world Sample.good_request)))
                (EvWriteFile (ManifestPath "h"))
                (skipn 29 (sync (generate_podcast Sample.good_world Sample.good_request)))
                (ManifestPath "h")).
  assert (Hin : In (ManifestPath "h")
                  (pushed (firstn 28 (sync (generate_podcast Sample.good_world
                                              Sample.good_request))))).
  { apply H; [vm_compute; reflexivity | left; reflexivity | exact I]. }
  vm_compute in Hin.
  repeat match goal with
         | H : _ \/ _ |- _ => destruct H as [H | H]; [discriminate |]
         end.
  exact Hin.
Qed.

(** The downloaded video of the man exists before anything is pushed. *)
Example source_created_before_registered :
  let t := sync (generate_podcast Sample.good_world Sample.good_request) in
  nth_error t 4 = Some (EvCreateWriteStream (SourcePath man "a"))
  /\ pushed (firstn 9 t) = []
  /\ nth_error t 9 = Some (EvPush [SourcePath man "a"]).
Proof. repeat split; reflexivity. Qed.

(** What the statement above leaves open.  When ffmpeg fails on the
    concatenation the manifest has been written, is not registered, and no
    unlink is issued for it; when the second download fails the first
    downloaded video is in the same state. *)
Example manifest_left_when_concat_fails :
  let r := generate_podcast Sample.concat_fails Sample.good_request in
  In (EvWriteFile (ManifestPath "h")) (sync r)
  /\ In (EvRespond 500 (JsonError "ffmpeg exited with code 1")) (sync r)
  /\ ~ In (ManifestPath "h") (registered r)
  /\ ~ In (EvUnlink (ManifestPath "h")) (sync r ++ later r).
Proof.
  cbv zeta. repeat match goal with |- _ /\ _ => split end;
    try (vm_compute; in_list); vm_compute; intros H;
    repeat match goal with
           | H : _ \/ _ |- _ => destruct H as [H | H]; [discriminate |]
           end; exact H.
Qed.

Example source_left_when_second_download_fails :
  let r := generate_podcast Sample.second_download_fails Sample.good_request in
  In (EvCreateWriteStream (SourcePath man "a")) (sync r)
  /\ In (EvRespond 500 (JsonError "socket hang up")) (sync r)
  /\ registered r = []
  /\ ~ In (EvUnlink (SourcePath man "a")) (sync r ++ later r).
Proof.
  cbv zeta. repeat match goal with |- _ /\ _ => split end;
    try (vm_compute; in_list); try reflexivity; vm_compute; intros H;
    repeat match goal with
           | H : _ \/ _ |- _ => destruct H as [H | H]; [discriminate |]
           end; exact H.
Qed.

(** * More of the code *)

(** ** The length, file names, the concat list *)

(** X1: whatever the podcastLength field holds, the length put in the
    prompt is a finite number above zero. *)
Theorem normalizedLength_positive (req : request) :
  positive_finite (normalizedLength req).
Proof.
  unfold normalizedLength.
  destruct (JsNumber.isFinite _ && JsNumber.gt _ JsNumber.zero) eqn:E.
  - apply positive_finite_iff. exact E.
  - unfold JsNumber.five, positive_finite. eauto.
Qed.

Lemma sanitizeFileName_chars name : all_chars is_file_char (sanitizeFileName name) = true.
Proof.
  induction name as [|c rest IH]; cbn; [reflexivity |].
  rewrite IH, andb_true_r. destruct (is_file_char c) eqn:E; [exact E | reflexivity].
Qed.

Lemma sanitizeFileName_fixed name :
  all_chars is_file_char name = true -> sanitizeFileName name = name.
Proof.
  induction name as [|c rest IH]; cbn; [reflexivity |].
  intros H. apply andb_prop in H. destruct H as [Hc Hr].
  rewrite Hc, (IH Hr). reflexivity.
Qed.

Lemma sanitizeFileName_length name :
  String.length (sanitizeFileName name) = String.length name.
Proof. induction name; cbn; congruence. Qed.

Lemma all_chars_app ok a b :
  all_chars ok (a ++ b)%string = all_chars ok a && all_chars ok b.
Proof. induction a; cbn; [reflexivity |]. now rewrite IHa, andb_assoc. Qed.

Lemma string_of_uint_digits d :
  all_chars is_file_char (NilEmpty.string_of_uint d) = true.
Proof. induction d; cbn; auto. Qed.

(** X3: the audio file name of every line, line_<index+1>.mp3, passes
    sanitizeFileName unchanged. *)
Theorem audioFileName_kept (index : nat) :
  sanitizeFileName (audioFileName index) = audioFileName index.
Proof.
  apply sanitizeFileName_fixed. unfold audioFileName, decimal.
  rewrite !all_chars_app, string_of_uint_digits. reflexivity.
Qed.

Lemma unescape_escape p : unescape_quotes (escape_quotes p) = p.
Proof.
  induction p as [|c rest IH]; [reflexivity |].
  cbn [escape_quotes]. destruct (Ascii.eqb_spec c "'") as [-> | Hc].
  - cbn. now rewrite IH.
  - assert (Hf : Ascii.eqb c "'" = false) by now apply Ascii.eqb_neq.
    cbn [unescape_quotes]. rewrite Hf. cbn [andb].
    rewrite IH. destruct (escape_quotes rest) as [|? [|? [|? ?]]]; reflexivity.
Qed.

Lemma length_append (a b : string) :
  String.length (a ++ b)%string = String.length a + String.length b.
Proof. induction a; cbn; congruence. Qed.

Lemma append_cancel_r (a b c : string) :
  (a ++ c)%string = (b ++ c)%string -> a = b.
Proof.
  revert b; induction a as [|x a IH]; intros [|y b] H; cbn in H.
  - reflexivity.
  - exfalso. apply (f_equal String.length) in H. cbn in H.
    rewrite length_append in H. lia.
  - exfalso. apply (f_equal String.length) in H. cbn in H.
    rewrite length_append in H. lia.
  - injection H as -> H. f_equal. now apply IH.
Qed.

Lemma escape_quotes_length p :
  String.length (escape_quotes p) = String.length p + 3 * count_quotes p.
Proof.
  induction p as [|c rest IH]; [reflexivity |].
  cbn [escape_quotes count_quotes]. destruct (Ascii.eqb c "'"); cbn; rewrite IH; lia.
Qed.

(** X4: in the concat list, two clip paths that differ give lines that
    differ; a path with n single quotes grows by 3n characters, and a path
    without a quote is written as it is. *)
Theorem list_line_faithful (p q : string) :
  (list_line p = list_line q -> p = q)
  /\ String.length (escape_quotes p) = String.length p + 3 * count_quotes p
  /\ (count_quotes p = 0 -> list_line p = ("file '" ++ p ++ "'")%string).
Proof.
  repeat split.
  - unfold list_line. intros H. cbn [append] in H. injection H as H.
    apply append_cancel_r in H.
    rewrite <- (unescape_escape p), <- (unescape_escape q). now rewrite H.
  - apply escape_quotes_length.
  - intros H. unfold list_line. do 2 f_equal.
    induction p as [|c rest IH]; [reflexivity |].
    cbn in H |- *. destruct (Ascii.eqb c "'"); [discriminate |].
    f_equal. apply IH. exact H.
Qed.

Lemma list_line_faithful_witness :
  list_line "work/ab12_clip_1.mp4" = "file 'work/ab12_clip_1.mp4'"%string.
Proof.
  exact (proj2 (proj2 (list_line_faithful "work/ab12_clip_1.mp4"
                         "work/ab12_clip_1.mp4")) eq_refl).
Defined.

(** *** The concat list as a whole *)

Lemma one_line_app a b : one_line (a ++ b) = one_line a && one_line b.
Proof. apply all_chars_app. Qed.

Lemma escape_quotes_one_line p : one_line p = true -> one_line (escape_quotes p) = true.
Proof.
  induction p as [|c rest IH]; [reflexivity |].
  unfold one_line in *. cbn [all_chars escape_quotes]. intros H.
  apply andb_true_iff in H. destruct H as [Hc Hr].
  destruct (Ascii.eqb c "'"); cbn [all_chars append]; [| rewrite Hc]; auto.
Qed.

Lemma list_line_one_line p : one_line p = true -> one_line (list_line p) = true.
Proof.
  intros H. unfold list_line. rewrite !one_line_app, (escape_quotes_one_line _ H).
  reflexivity.
Qed.

Lemma first_line_app x rest :
  one_line x = true ->
  first_line (x ++ newline ++ rest) = x
  /\ after_line (x ++ newline ++ rest) = Some rest
  /\ first_line x = x /\ after_line x = None.
Proof.
  unfold one_line. induction x as [|c x IH]; [cbn; auto |].
  cbn [all_chars append first_line after_line]. intros H.
  apply andb_true_iff in H. destruct H as [Hc Hx].
  apply negb_true_iff in Hc. rewrite Hc.
  destruct (IH Hx) as (-> & -> & -> & ->). auto.
Qed.

Lemma listContent_lines p ps :
  one_line p = true ->
  first_line (listContent (p :: ps)) = list_line p
  /\ after_line (listContent (p :: ps))
     = match ps with [] => None | _ :: _ => Some (listContent ps) end.
Proof.
  intros H. apply list_line_one_line in H. unfold listContent.
  destruct ps as [|q ps]; cbn [map String.concat].
  - destruct (first_line_app _ EmptyString H) as (_ & _ & -> & ->). auto.
  - match goal with
    | |- context [(list_line p ++ newline ++ ?r)%string] =>
        destruct (first_line_app _ r H) as (-> & -> & _)
    end.
    auto.
Qed.

Lemma list_line_injective p q : list_line p = list_line q -> p = q.
Proof.
  unfold list_line. intros H. cbn [append] in H. injection H as H.
  apply append_cancel_r in H.
  rewrite <- (unescape_escape p), <- (unescape_escape q). now rewrite H.
Qed.

(** X21: the concat list tells clip lists apart: as long as no clip path
    contains a line break, two lists of clip paths that differ, in a path, in
    the order or in the number of clips, give different list contents,
    whatever quotes the paths contain. *)
Theorem listContent_injective (clipPaths otherPaths : list string) :
  Forall (fun p => one_line p = true) clipPaths ->
  Forall (fun p => one_line p = true) otherPaths ->
  listContent clipPaths = listContent otherPaths ->
  clipPaths = otherPaths.
Proof.
  intros Hp. revert otherPaths.
  induction Hp as [|p ps Hp1 Hps IH]; intros qs Hq E.
  - destruct Hq as [|q qs Hq1 Hqs]; [reflexivity |].
    exfalso. apply (f_equal first_line) in E.
    rewrite (proj1 (listContent_lines q qs Hq1)) in E. discriminate E.
  - destruct Hq as [|q qs Hq1 Hqs].
    + exfalso. apply (f_equal first_line) in E.
      rewrite (proj1 (listContent_lines p ps Hp1)) in E. discriminate E.
    + pose proof (f_equal first_line E) as E1.
      pose proof (f_equal after_line E) as E2.
      rewrite (proj1 (listContent_lines p ps Hp1)),
        (proj1 (listContent_lines q qs Hq1)) in E1.
      rewrite (proj2 (listContent_lines p ps Hp1)),
        (proj2 (listContent_lines q qs Hq1)) in E2.
      apply list_line_injective in E1. subst q. f_equal.
      destruct ps as [|p' ps], qs as [|q' qs]; try discriminate E2.
      * reflexivity.
      * injection E2 as E2. exact (IH _ Hqs E2).
Qed.

Lemma listContent_injective_witness :
  ["work/a_clip_1.mp4"; "work/it's_clip_2.mp4"]%string
  = ["work/a_clip_1.mp4"; "work/it's_clip_2.mp4"]%string.
Proof.
  apply listContent_injective; [repeat constructor | repeat constructor | reflexivity].
Defined.

(** ** cleanupFiles on a disk *)

Lemma on_disk_iff d p : on_disk d p = true <-> In p d.
Proof.
  unfold on_disk. rewrite existsb_exists. split.
  - intros (q & Hq & E). destruct (path_eq_dec p q) as [-> |]; [exact Hq | discriminate].
  - intros H. exists p. split; [exact H |].
    destruct (path_eq_dec p p); [reflexivity | contradiction].
Qed.

Lemma cleanupFiles_members locked filePaths :
  forall d p,
    In p (fst (cleanupFiles locked filePaths d))
    <-> In p d /\ (~ In (Some p) filePaths \/ locked p = true).
Proof.
  induction filePaths as [|[q|] rest IH]; intros d p; cbn [cleanupFiles].
  - cbn. tauto.
  - unfold fs_unlink. destruct (on_disk d q) eqn:Hon.
    + destruct (locked q) eqn:Hl.
      * specialize (IH d p). destruct (cleanupFiles locked rest d) as [d2 warned].
        cbn in IH |- *. rewrite IH. split.
        -- intros [Hd [Hn | Hp]]; [| tauto]. split; [exact Hd |].
           destruct (path_eq_dec q p) as [-> |]; [tauto |].
           left. intros [E | Hin]; [injection E; auto | auto].
        -- intros [Hd [Hn | Hp]]; [| tauto]. split; [exact Hd |]. left. tauto.
      * specialize (IH (remove path_eq_dec q d) p).
        destruct (cleanupFiles locked rest (remove path_eq_dec q d)) as [d2 warned].
        cbn in IH |- *. rewrite IH. split.
        -- intros [Hd Hc]. apply in_remove in Hd. destruct Hd as [Hd Hne].
           split; [exact Hd |]. destruct Hc as [Hn | Hp]; [| tauto].
           left. intros [E | Hin]; [injection E; auto | auto].
        -- intros [Hd Hc].
           assert (Hne : p <> q).
           { intros ->. destruct Hc as [Hn | Hp]; [apply Hn; left; reflexivity |].
             congruence. }
           split; [apply in_in_remove; assumption |].
           destruct Hc as [Hn | Hp]; [left | tauto]. tauto.
    + specialize (IH d p). destruct (cleanupFiles locked rest d) as [d2 warned].
      cbn in IH |- *. rewrite IH. split.
      * intros [Hd [Hn | Hp]]; [| tauto]. split; [exact Hd |].
        left. intros [E | Hin]; [| auto]. injection E as ->.
        apply on_disk_iff in Hd. congruence.
      * intros [Hd [Hn | Hp]]; [| tauto]. split; [exact Hd |]. left. tauto.
  - assert (Hiff : In (Some p) (None :: rest) <-> In (Some p) rest)
      by (cbn; intuition discriminate).
    rewrite IH. tauto.
Qed.

Lemma cleanupFiles_again locked filePaths :
  forall d,
    cleanupFiles locked filePaths (fst (cleanupFiles locked filePaths d))
    = cleanupFiles locked filePaths d.
Proof.
  induction filePaths as [|[q|] rest IH]; intros d; cbn [cleanupFiles].
  - reflexivity.
  - destruct (fs_unlink locked d q) as [d1 err] eqn:Hu.
    pose proof (cleanupFiles_members locked rest d1 q) as Hm. specialize (IH d1).
    destruct (cleanupFiles locked rest d1) as [d2 warned]. cbn [fst] in Hm, IH.
    unfold fs_unlink in Hu. destruct (on_disk d q) eqn:Hon.
    + destruct (locked q) eqn:Hl; injection Hu as <- <-.
      * assert (Hq : on_disk d2 q = true).
        { apply on_disk_iff, Hm. apply on_disk_iff in Hon. tauto. }
        cbn. unfold fs_unlink. rewrite Hq, Hl, IH. reflexivity.
      * assert (Hq : on_disk d2 q = false).
        { apply not_true_is_false. intros H. apply on_disk_iff, Hm in H.
          destruct H as [H _]. apply in_remove in H. tauto. }
        cbn. unfold fs_unlink. rewrite Hq, IH. reflexivity.
    + injection Hu as <- <-.
      assert (Hq : on_disk d2 q = false).
      { apply not_true_is_false. intros H. apply on_disk_iff, Hm in H.
        destruct H as [H _]. apply on_disk_iff in H. congruence. }
      cbn. unfold fs_unlink. rewrite Hq, IH. reflexivity.
  - apply IH.
Qed.

Lemma cleanupFiles_warned locked filePaths :
  forall d p,
    In p (snd (cleanupFiles locked filePaths d))
    <-> In (Some p) filePaths /\ In p d /\ locked p = true.
Proof.
  induction filePaths as [|[q|] rest IH]; intros d p; cbn [cleanupFiles].
  - cbn. tauto.
  - unfold fs_unlink. destruct (on_disk d q) eqn:Hon.
    + destruct (locked q) eqn:Hl.
      * specialize (IH d p). destruct (cleanupFiles locked rest d) as [d2 warned].
        cbn in IH |- *. rewrite IH. apply on_disk_iff in Hon. split.
        -- intros [<- | H]; [auto | tauto].
        -- intros [[E | H] [Hd Hp]]; [injection E; auto | tauto].
      * specialize (IH (remove path_eq_dec q d) p).
        destruct (cleanupFiles locked rest (remove path_eq_dec q d)) as [d2 warned].
        cbn in IH |- *. rewrite IH. split.
        -- intros (Hin & Hd & Hp). apply in_remove in Hd. tauto.
        -- intros ([E | Hin] & Hd & Hp); [injection E as ->; congruence |].
           repeat split; auto. apply in_in_remove; [| exact Hd]. congruence.
    + specialize (IH d p). destruct (cleanupFiles locked rest d) as [d2 warned].
      cbn in IH |- *. rewrite IH. split; [tauto |].
      intros ([E | Hin] & Hd & Hp); [| tauto]. injection E as ->.
      apply on_disk_iff in Hd. congruence.
  - assert (Hiff : In (Some p) (None :: rest) <-> In (Some p) rest)
      by (cbn; intuition discriminate).
    rewrite IH. tauto.
Qed.

(** X5: after cleanupFiles a file is on the disk exactly when it was
    there before and it was not listed or could not be removed; a warning is
    logged exactly for the listed files that exist and could not be
    removed, never for a missing one; and a second call on the result
    changes nothing. *)
Theorem cleanupFiles_disk (locked : path -> bool) (filePaths : list (option path))
    (d : disk) :
  (forall p, In p (fst (cleanupFiles locked filePaths d))
             <-> In p d /\ (~ In (Some p) filePaths \/ locked p = true))
  /\ (forall p, In p (snd (cleanupFiles locked filePaths d))
                <-> In (Some p) filePaths /\ In p d /\ locked p = true)
  /\ cleanupFiles locked filePaths (fst (cleanupFiles locked filePaths d))
     = cleanupFiles locked filePaths d.
Proof.
  split; [| split].
  - apply cleanupFiles_members.
  - apply cleanupFiles_warned.
  - apply cleanupFiles_again.
Qed.

(** ** The helpers one by one *)

(** X6: concatenateClips writes one fresh manifest, runs ffmpeg once on
    it and unlinks it only after ffmpeg has succeeded, returning the output
    path it was given; when the write or ffmpeg fails, the failure is passed
    on, no unlink is issued for the manifest, and nothing is registered. *)
Theorem concatenateClips_manifest (w : world) clipPaths outputPath s t s' r :
  concatenateClips w clipPaths outputPath s = (t, s', r) ->
  let listFilePath := ManifestPath (uuidv4 w (drawn s)) in
  cleanupPaths s' = cleanupPaths s /\ drawn s' = S (drawn s)
  /\ (forall p, r = Returned p ->
        p = outputPath
        /\ ffmpeg_concat w listFilePath clipPaths outputPath = Returned tt
        /\ t = [EvWriteFile listFilePath; EvFfmpegSave outputPath;
                EvUnlink listFilePath; EvUnlinkSettled listFilePath])
  /\ (forall msg, r = Thrown msg ->
        (writeFile w listFilePath = Thrown msg /\ t = [EvWriteFile listFilePath])
        \/ (ffmpeg_concat w listFilePath clipPaths outputPath = Thrown msg
            /\ t = [EvWriteFile listFilePath; EvFfmpegSave outputPath])).
Proof.
  intros H. unfold concatenateClips in H. minv; cbn;
    repeat match goal with
           | x : unit |- _ => destruct x
           end;
    repeat split; try congruence; intros; try discriminate;
    repeat match goal with
           | H : Returned _ = Returned _ |- _ => injection H as <-
           | H : Thrown _ = Thrown _ |- _ => injection H as <-
           end; auto.
Qed.

Lemma concatenateClips_manifest_witness :
  fst (fst (concatenateClips Sample.concat_fails [ClipPath "d" 1] (OutputPath "g")
              initial))
  = [EvWriteFile (ManifestPath "a"); EvFfmpegSave (OutputPath "g")].
Proof.
  destruct (concatenateClips Sample.concat_fails [ClipPath "d" 1] (OutputPath "g")
              initial) as [[t s'] r] eqn:Hrun.
  destruct (concatenateClips_manifest _ _ _ _ _ _ _ Hrun) as (_ & _ & _ & Hth).
  destruct r as [p | msg]; [vm_compute in Hrun; discriminate |].
  destruct (Hth msg eq_refl) as [[Hw _] | [_ Ht]]; [| exact Ht].
  vm_compute in Hw. discriminate.
Defined.

(** X7: prepareTopicParts returns two to four parts, the first being the
    instruction with the length; the part asking for an original
    conversation is there exactly when no topic text, no link and no file
    were given. *)
Theorem prepareTopicParts_parts (w : world) topic url file len s t s' parts :
  prepareTopicParts w topic url file len s = (t, s', Returned parts) ->
  hd_error parts = Some (intro len)
  /\ 2 <= List.length parts <= 4
  /\ (In no_context_part parts
      <-> field_truthy topic = false /\ field_truthy url = false /\ file = None).
Proof.
  unfold prepareTopicParts, no_context_part. intros H.
  destruct topic as [[|c0 r0]|]; minv; cbn [app hd_error List.length In field_truthy];
    (split; [reflexivity | split; [lia |]]);
    (split;
     [ intros Kin;
       repeat match goal with
              | H : _ \/ _ |- _ => destruct H as [H | H]
              | H : False |- _ => contradiction
              end; try discriminate; auto
     | intros (K1 & K2 & K3); try discriminate; auto 6 ]).
Qed.

Lemma prepareTopicParts_parts_witness :
  In no_context_part
    [intro JsNumber.five; no_context_part]
  <-> field_truthy None = false /\ field_truthy (Some EmptyString) = false
      /\ @None path = None.
Proof.
  refine (proj2 (proj2 (prepareTopicParts_parts Sample.good_world None
                          (Some EmptyString) None JsNumber.five initial [] initial
                          [intro JsNumber.five; no_context_part] _))).
  reflexivity.
Defined.

(** X8: prepareTopicParts fetches the transcript when a link is given and
    reads the file when one is uploaded, nothing else; it changes no state;
    and it fails exactly when reading the uploaded file fails, with that
    failure's message: a link without a transcript never fails it. *)
Theorem prepareTopicParts_failure (w : world) topic url file len s t s' r :
  prepareTopicParts w topic url file len s = (t, s', r) ->
  t = topic_events url file /\ s' = s
  /\ forall msg,
      r = Thrown msg <-> exists p, file = Some p /\ readFile_base64 w p = Thrown msg.
Proof.
  unfold prepareTopicParts, topic_events. intros H.
  destruct topic as [[|c0 r0]|]; minv; cbn [app];
    (split; [reflexivity | split; [reflexivity |]]);
    intros msg; split;
    try (intros E; discriminate E);
    try (intros (q & E & Hq); discriminate E);
    try (intros (q & E & Hq); injection E as <-; congruence);
    try (intros E; injection E as <-; eauto).
Qed.

Lemma prepareTopicParts_failure_witness :
  fst (fst (prepareTopicParts Sample.good_world (Some "tea")
              (Some "https://youtu.be/x") (Some (UploadPath "3f2a9c"))
              JsNumber.five initial))
  = [EvFetchTranscript "https://youtu.be/x"; EvReadFile (UploadPath "3f2a9c")].
Proof.
  destruct (prepareTopicParts Sample.good_world (Some "tea")
              (Some "https://youtu.be/x") (Some (UploadPath "3f2a9c"))
              JsNumber.five initial) as [[t s'] r] eqn:Hrun.
  destruct (prepareTopicParts_failure _ _ _ _ _ _ _ _ _ Hrun) as (Ht & _ & _).
  exact Ht.
Defined.

(** X10: synthesizeSpeech posts once and changes no state; the audio file
    is written only after an answer whose audioContent is truthy and
    decodes; an answer without audioContent fails with its own message and
    nothing is written; and the path returned is the output path given. *)
Theorem synthesizeSpeech_write (w : world) key text lang voice out s t s' r :
  synthesizeSpeech w key text lang voice out s = (t, s', r) ->
  s' = s
  /\ (exists rest, t = EvPostTts key text lang voice :: rest
                   /\ (rest = [] \/ rest = [EvWriteFile out]))
  /\ (In (EvWriteFile out) t ->
      exists data,
        axios_post_tts w key text lang voice = Returned data
        /\ JsVal.truthy (JsVal.opt_get data "audioContent") = true
        /\ Buffer_from_base64 w (JsVal.opt_get data "audioContent") = Returned tt)
  /\ (forall data,
        axios_post_tts w key text lang voice = Returned data ->
        JsVal.truthy (JsVal.opt_get data "audioContent") = false ->
        r = Thrown "Text-to-Speech response missing audioContent."
        /\ t = [EvPostTts key text lang voice])
  /\ (forall p, r = Returned p ->
        p = out /\ t = [EvPostTts key text lang voice; EvWriteFile out]
        /\ writeFile w out = Returned tt).
Proof.
  intros H. unfold synthesizeSpeech in H. minv;
    repeat match goal with
           | x : unit |- _ => destruct x
           | H : Returned _ = _ |- _ => symmetry in H
           | H : Thrown _ = _ |- _ => symmetry in H
           | H : negb _ = false |- _ => apply negb_false_iff in H
           | H : negb _ = true |- _ => apply negb_true_iff in H
           end;
    cbn [app];
    (split; [reflexivity |]);
    (split; [eexists; split; [reflexivity | auto] |]);
    (split;
     [ intros Kin; cbn in Kin;
       repeat match goal with
              | H : _ \/ _ |- _ => destruct H as [H | H]
              | H : False |- _ => contradiction
              end; try discriminate; eauto
     | ]);
    (split;
     [ intros data0 E Hc;
       try match goal with
           | H : axios_post_tts _ _ _ _ _ = Returned _ |- _ =>
               rewrite H in E; injection E as <-
           end; try congruence; auto
     | intros p0 E; try discriminate E; injection E as <-; auto ]).
Qed.

Lemma synthesizeSpeech_write_witness :
  fst (fst (synthesizeSpeech Sample.good_world (Some "key") (JStr "Hi") "en-US"
              (Some "en-US-chirp-m") (AudioPath "c" 1) initial))
  = [EvPostTts (Some "key") (JStr "Hi") "en-US" (Some "en-US-chirp-m");
     EvWriteFile (AudioPath "c" 1)].
Proof.
  destruct (synthesizeSpeech Sample.good_world (Some "key") (JStr "Hi") "en-US"
              (Some "en-US-chirp-m") (AudioPath "c" 1) initial)
    as [[t s'] r] eqn:Hrun.
  destruct (synthesizeSpeech_write _ _ _ _ _ _ _ _ _ _ Hrun) as (_ & _ & _ & _ & Hr).
  destruct r as [p | msg]; [| vm_compute in Hrun; discriminate].
  exact (proj1 (proj2 (Hr p eq_refl))).
Defined.

(** X11: resolveVideoSource registers nothing.  With the option custom it
    downloads nothing and draws no name: it returns the upload path as it is,
    or fails when there is no upload.  With any other option it draws one
    name, opens the work file of that speaker and name, requests one URL,
    and returns that work file exactly when the request and the copy to
    disk both succeed. *)
Theorem resolveVideoSource_paths (w : world) opt upload key sp s t s' r :
  resolveVideoSource w opt upload key sp s = (t, s', r) ->
  let target := SourcePath sp (uuidv4 w (drawn s)) in
  cleanupPaths s' = cleanupPaths s
  /\ (opt = "custom" ->
      t = [] /\ s' = s
      /\ (forall p, upload = Some p -> r = Returned p)
      /\ (upload = None -> exists msg, r = Thrown msg))
  /\ (opt <> "custom" ->
      drawn s' = S (drawn s)
      /\ (exists url,
            t = [EvCreateWriteStream target; EvHttpGet url]
            /\ (r = Returned target
                <-> axios_get_stream w url = Returned tt
                    /\ pipe_to_disk w target = Returned tt))
      /\ forall p, r = Returned p -> p = target).
Proof.
  intros H. unfold resolveVideoSource, downloadFile in H.
  destruct (String.eqb_spec opt "custom") as [-> | Hne].
  - minv; cbn; repeat split; try congruence; eauto; intros; congruence.
  - minv;
      repeat match goal with
             | x : unit |- _ => destruct x
             | H : Returned _ = _ |- _ => symmetry in H
             | H : Thrown _ = _ |- _ => symmetry in H
             end;
      cbn [app];
      (split; [congruence |]); (split; [congruence |]); intros _;
      (split; [assumption |]);
      (split;
       [ eexists; split; [reflexivity |]; split;
         [ intros E; try discriminate E; auto
         | intros [E1 E2]; congruence ]
       | intros p0 E; try discriminate E; injection E as <-; reflexivity ]).
Qed.

Lemma resolveVideoSource_paths_witness :
  snd (resolveVideoSource Sample.good_world "custom" (Some (UploadPath "3f2a9c"))
         None man initial)
  = Returned (UploadPath "3f2a9c").
Proof.
  destruct (resolveVideoSource Sample.good_world "custom"
              (Some (UploadPath "3f2a9c")) None man initial)
    as [[t s'] r] eqn:Hrun.
  destruct (resolveVideoSource_paths _ _ _ _ _ _ _ _ _ Hrun) as (_ & Hc & _).
  destruct (Hc eq_refl) as (_ & _ & Hp & _). exact (Hp _ eq_refl).
Defined.

Lemma resolve_requested_url w opt upload key sp s t s' r url :
  resolveVideoSource w opt upload key sp s = (t, s', r) ->
  In (EvHttpGet url) t ->
  opt <> "custom"
  /\ url = match match key with
                 | Some (String c k) =>
                     if opt =? "library" then VIDEO_LIBRARY sp (String c k) else None
                 | _ => None
                 end
           with
           | Some u => u
           | None => Url (DEFAULT_VIDEO_URL w sp)
           end.
Proof.
  intros H Hin. unfold resolveVideoSource, downloadFile in H.
  destruct (String.eqb_spec opt "custom") as [-> | Hne].
  - exfalso. minv; exact Hin.
  - split; [exact Hne |].
    minv; cbn in Hin;
      repeat match goal with
             | H : _ \/ _ |- _ => destruct H as [H | H]
             | H : False |- _ => contradiction
             end; try discriminate; injection Hin as <-; destruct sp; reflexivity.
Qed.

Lemma unknown_library_key sp k :
  k <> "studio" -> k <> "office" -> ~ In k Object_prototype_names ->
  VIDEO_LIBRARY sp k = None.
Proof.
  intros H1 H2 H3.
  assert (E : existsb (String.eqb k) Object_prototype_names = false).
  { apply not_true_is_false. intros H. apply existsb_exists in H.
    destruct H as (x & Hx & Hk). apply String.eqb_eq in Hk. subst x. auto. }
  apply String.eqb_neq in H1, H2.
  unfold VIDEO_LIBRARY. destruct sp; rewrite H1, H2, E; reflexivity.
Qed.

(** X12: with the option library, the keys studio and office make
    resolveVideoSource request the catalog URL of that speaker and key; an
    option other than library, a missing or empty key, or a key that is
    neither in the catalog nor a member of Object.prototype makes it request
    the speaker's default URL instead of failing. *)
Theorem resolveVideoSource_url (w : world) opt upload key sp s t s' r url :
  resolveVideoSource w opt upload key sp s = (t, s', r) ->
  In (EvHttpGet url) t ->
  (opt = "library" -> key = Some "studio" ->
   url = Url ("https://YOUR_DEFAULT_MAN_VIDEO_URL/library/" ++ speaker_name sp
              ++ "-studio.mp4"))
  /\ (opt = "library" -> key = Some "office" ->
      url = Url ("https://YOUR_DEFAULT_MAN_VIDEO_URL/library/" ++ speaker_name sp
                 ++ "-office.mp4"))
  /\ (opt <> "library" \/ field_truthy key = false
      \/ (exists k, key = Some k /\ k <> "studio" /\ k <> "office"
                    /\ ~ In k Object_prototype_names) ->
      url = Url (DEFAULT_VIDEO_URL w sp)).
Proof.
  intros H Hin. destruct (resolve_requested_url _ _ _ _ _ _ _ _ _ _ H Hin) as [_ ->].
  repeat split.
  - intros -> ->. destruct sp; reflexivity.
  - intros -> ->. destruct sp; reflexivity.
  - intros [Ho | [Hk | (k & -> & H1 & H2 & H3)]].
    + apply String.eqb_neq in Ho. rewrite Ho. destruct key as [[|c k]|]; reflexivity.
    + destruct key as [[|c k]|]; try reflexivity. discriminate Hk.
    + destruct k as [|c k]; [reflexivity |].
      rewrite (unknown_library_key sp _ H1 H2 H3). destruct (opt =? "library"); reflexivity.
Qed.

Lemma resolveVideoSource_url_witness :
  Url "https://YOUR_DEFAULT_MAN_VIDEO_URL/woman-default.mp4"
  = Url (DEFAULT_VIDEO_URL Sample.good_world woman).
Proof.
  refine (proj2 (proj2 (resolveVideoSource_url Sample.good_world "library" None
                          (Some "garden") woman initial
                          [EvCreateWriteStream (SourcePath woman "a");
                           EvHttpGet (Url "https://YOUR_DEFAULT_MAN_VIDEO_URL/woman-default.mp4")]
                          {| cleanupPaths := []; drawn := 1 |}
                          (Returned (SourcePath woman "a"))
                          (Url "https://YOUR_DEFAULT_MAN_VIDEO_URL/woman-default.mp4")
                          _ _)) _).
  - reflexivity.
  - right. left. reflexivity.
  - right. right. exists "garden". repeat split; try discriminate.
    cbn. intuition discriminate.
Defined.

(** X13: a library key that names a member of Object.prototype
    (constructor, toString, ...) is not treated as unknown: with the option
    library the value requested is that inherited member, not a URL of the
    catalog and not the default URL. *)
Theorem inherited_library_key (w : world) upload k sp s t s' r url :
  In k Object_prototype_names ->
  resolveVideoSource w "library" upload (Some k) sp s = (t, s', r) ->
  In (EvHttpGet url) t ->
  url = Inherited k /\ url <> Url (DEFAULT_VIDEO_URL w sp).
Proof.
  intros Hk H Hin. destruct (resolve_requested_url _ _ _ _ _ _ _ _ _ _ H Hin) as [_ ->].
  cbn in Hk.
  repeat match goal with
         | H : _ \/ _ |- _ => destruct H as [H | H]
         | H : False |- _ => contradiction
         end; subst k; destruct sp; cbn; split; (reflexivity || discriminate).
Qed.

Lemma inherited_library_key_witness :
  Inherited "constructor" = Inherited "constructor"
  /\ Inherited "constructor" <> Url (DEFAULT_VIDEO_URL Sample.good_world man).
Proof.
  refine (inherited_library_key Sample.good_world None "constructor" man initial
            [EvCreateWriteStream (SourcePath man "a");
             EvHttpGet (Inherited "constructor")]
            {| cleanupPaths := []; drawn := 1 |}
            (Returned (SourcePath man "a")) (Inherited "constructor") _ _ _).
  - left. reflexivity.
  - reflexivity.
  - right. left. reflexivity.
Defined.

(** ** The handler as a whole *)

Lemma responses_app t1 t2 : responses (t1 ++ t2) = responses t1 ++ responses t2.
Proof. apply flat_map_app. Qed.

Lemma responses_quiet t : Forall quiet t -> responses t = [].
Proof.
  induction 1 as [|e t He _ IH]; [reflexivity |].
  destruct e; cbn in He |- *; try exact IH; contradiction.
Qed.

Lemma responses_unlinks (f : path -> event) ps :
  (forall p st b, f p <> EvRespond st b) -> responses (map f ps) = [].
Proof.
  intros Hf. induction ps as [|p ps IH]; [reflexivity |].
  cbn. fold (responses (map f ps)). rewrite IH.
  destruct (f p) eqn:E; try reflexivity. exfalso. exact (Hf _ _ _ E).
Qed.

Lemma finish_stage_returned w req clips s t s' b :
  finish_stage w req clips s = (t, s', Returned b) ->
  exists u pre,
    b = true /\ t = pre ++ answer_tail req u
    /\ responses pre = [] /\ pushed pre = []
    /\ In (EvFfmpegSave (OutputPath u)) pre
    /\ cleanupPaths s' = cleanupPaths s ++ tempUploads req.
Proof.
  intros H. stage_unfold H. minv. cbn [app cleanupPaths].
  eexists _, [_; _; _; _; _].
  repeat match goal with |- _ /\ _ => split end;
    try reflexivity; [in_list | congruence].
Qed.

Lemma early_stages_quiet w req script videos s t s1 s2 s3 t1 t2 t3 r1 r2 r3 :
  script_stage w req s = (t1, s1, r1) ->
  sources_stage w req s1 = (t2, s2, r2) ->
  render_loop w req (fst videos) (snd videos) 0 script [] s2 = (t3, s3, r3) ->
  t = t1 ++ t2 ++ t3 -> Forall early t.
Proof.
  intros H1 H2 H3 ->.
  apply script_stage_events, Forall_snd in H1.
  apply sources_stage_events, Forall_snd in H2.
  apply render_loop_events, Forall_snd in H3.
  repeat (apply Forall_app; split); assumption.
Qed.

(** What the [try] block answers, by the way it ends. *)
Lemma try_block_answers w req s t s' r :
  try_block w req s = (t, s', r) ->
  match r with
  | Thrown _ =>
      responses t = []
      /\ field_truthy (apiKey req) = true
      /\ validateChirpVoice (manVoice req) = true
      /\ validateChirpVoice (womanVoice req) = true
  | Returned false =>
      s' = s
      /\ ((field_truthy (apiKey req) = false
           /\ t = [EvRespond 400 (JsonError "Google Cloud API key is required.")])
          \/ (field_truthy (apiKey req) = true
              /\ (validateChirpVoice (manVoice req) = false
                  \/ validateChirpVoice (womanVoice req) = false)
              /\ t = [EvRespond 400
                        (JsonError "Both voices must be selected from the Chirp family.")]))
  | Returned true =>
      field_truthy (apiKey req) = true
      /\ validateChirpVoice (manVoice req) = true
      /\ validateChirpVoice (womanVoice req) = true
      /\ exists u pre,
           t = pre ++ answer_tail req u /\ responses pre = []
           /\ In (EvFfmpegSave (OutputPath u)) pre
           /\ cleanupPaths s' = cleanupPaths s ++ pushed pre ++ tempUploads req
  end.
Proof.
  intros H.
  assert (Hq : forall msg, r = Thrown msg -> Forall quiet t).
  { intros msg ->. exact (try_block_thrown _ _ _ _ _ _ H). }
  pose proof (try_block_law _ _ _ _ _ _ H) as Hlaw. unfold keeps_law in Hlaw.
  unfold try_block in H.
  destruct (field_truthy (apiKey req)) eqn:Hk; cbn [negb] in H.
  2:{ minv. split; [reflexivity |]. left. auto. }
  destruct (validateChirpVoice (manVoice req)) eqn:Hm;
    destruct (validateChirpVoice (womanVoice req)) eqn:Hw; cbn [negb orb] in H;
    try (minv; split; [reflexivity |]; right; auto 6).
  destruct r as [b | msg].
  - unfold pipeline in H. minv.
    match goal with
    | H1 : script_stage _ _ _ = _, H2 : sources_stage _ _ _ = _,
      H3 : render_loop _ _ _ _ _ _ _ _ = _, H4 : finish_stage _ _ _ _ = _ |- _ =>
        pose proof (early_stages_quiet _ _ _ _ _ _ _ _ _ _ _ _ _ _ _ H1 H2 H3 eq_refl)
          as He;
        destruct (finish_stage_returned _ _ _ _ _ _ _ H4)
          as (u & pre & -> & -> & Hr & Hp & Hin & _)
    end.
    repeat split; auto.
    match goal with
    | |- exists u0 pre0, ?a ++ ?b ++ ?c ++ pre ++ _ = _ /\ _ =>
        exists u, ((a ++ b ++ c) ++ pre)
    end.
    repeat match goal with |- _ /\ _ => split end.
    + rewrite <- !app_assoc. reflexivity.
    + rewrite responses_app, Hr, app_nil_r. apply responses_quiet.
      eapply Forall_impl; [| exact He]. apply early_quiet.
    + apply in_or_app. right. exact Hin.
    + rewrite Hlaw. rewrite !pushed_app, Hp. unfold answer_tail. cbn [pushed flat_map].
      rewrite !app_nil_r, <- !app_assoc. reflexivity.
  - repeat split; auto. apply responses_quiet. exact (Hq _ eq_refl).
Qed.

Lemma responses_issue ps : responses (cleanupFiles_issue ps) = [].
Proof.
  unfold cleanupFiles_issue. cbn. fold (responses (map EvUnlink ps)).
  apply responses_unlinks. discriminate.
Qed.

Lemma responses_settle ps : responses (cleanupFiles_settle ps) = [].
Proof. apply responses_unlinks. discriminate. Qed.

(** X15: a run that answers 200 answers with the download URL
    /downloads/podcast_<id>.mp4 of the very file the concatenation has
    written before; the answer is followed, in the same turn, only by the
    registration of the uploads and the start of the thirty-second timer, so
    the uploads are the last paths registered. *)
Theorem download_url_names_output (w : world) (req : request) b :
  let r := generate_podcast w req in
  In (EvRespond 200 b) (sync r) ->
  exists u pre,
    b = JsonDownloadUrl ("/downloads/podcast_" ++ u ++ ".mp4")
    /\ sync r = pre ++ [EvRespond 200 b; EvPush (tempUploads req);
                        EvSetTimeout 30000%N]
    /\ In (EvFfmpegSave (OutputPath u)) pre
    /\ registered r = pushed pre ++ tempUploads req.
Proof.
  cbv zeta. unfold generate_podcast.
  destruct (try_block w req initial) as [[t s] r] eqn:H.
  apply try_block_answers in H. destruct r as [[|] | msg]; cbn [sync registered].
  - destruct H as (_ & _ & _ & u & pre & -> & Hr & Hin & Hreg). intros Hb.
    assert (E : b = JsonDownloadUrl ("/downloads/podcast_" ++ u ++ ".mp4")).
    { apply in_app_or in Hb. destruct Hb as [Hb | Hb].
      - exfalso. assert (Hx : In (200, b) (responses pre)).
        { unfold responses. apply in_flat_map. exists (EvRespond 200 b).
          split; [exact Hb | left; reflexivity]. }
        rewrite Hr in Hx. exact Hx.
      - destruct Hb as [Hb | [Hb | [Hb | []]]]; try discriminate.
        injection Hb as <-. reflexivity. }
    exists u, pre. subst b. repeat split; auto.
  - destruct H as [_ [[_ ->] | (_ & _ & ->)]]; intros [E | []]; discriminate.
  - destruct H as (Hr & _). intros Hb. exfalso.
    assert (Hx : In (200, b) (responses (t ++ cleanupFiles_issue (cleanupPaths s)
                                           ++ [EvRespond 500
                                                 (JsonError match msg with
                                                            | EmptyString => "Failed to generate podcast."
                                                            | _ => msg
                                                            end)]))).
    { unfold responses. apply in_flat_map. exists (EvRespond 200 b).
      split; [exact Hb | left; reflexivity]. }
    rewrite !responses_app, Hr, responses_issue in Hx.
    destruct Hx as [Hx | []]. discriminate.
Qed.

Lemma download_url_names_output_witness :
  exists u pre,
    JsonDownloadUrl "/downloads/podcast_g.mp4"
    = JsonDownloadUrl ("/downloads/podcast_" ++ u ++ ".mp4")
    /\ sync (generate_podcast Sample.good_world Sample.good_request)
       = pre ++ [EvRespond 200 (JsonDownloadUrl "/downloads/podcast_g.mp4");
                 EvPush (tempUploads Sample.good_request); EvSetTimeout 30000%N]
    /\ In (EvFfmpegSave (OutputPath u)) pre
    /\ registered (generate_podcast Sample.good_world Sample.good_request)
       = pushed pre ++ tempUploads Sample.good_request.
Proof.
  apply (download_url_names_output Sample.good_world Sample.good_request).
  vm_compute. in_list.
Defined.

Lemma source_is_no_upload sp u f :
  opt_path_eqb (Some (SourcePath sp u)) (file_path f) = false.
Proof.
  destruct f as [name|]; [| reflexivity]. cbn.
  destruct (path_eq_dec (SourcePath sp u) (UploadPath name)) as [E | _];
    [discriminate E | reflexivity].
Qed.

(** X16: when both background videos are resolved, the handler registers
    exactly the files it has downloaded, in order: an upload taken as a
    custom video is not registered here.  When the resolution of either
    video fails, nothing is registered, also not a first video that was
    already downloaded. *)
Theorem sources_stage_pushes (w : world) (req : request) s t s' r :
  sources_stage w req s = (t, s', r) ->
  match r with
  | Returned (manVideoPath, womanVideoPath) =>
      pushed t = created t
      /\ created t = filter (fun p => negb (is_upload p)) [manVideoPath; womanVideoPath]
      /\ cleanupPaths s' = cleanupPaths s ++ created t
  | Thrown _ => pushed t = [] /\ cleanupPaths s' = cleanupPaths s
  end.
Proof.
  intros H. pose proof (sources_stage_law _ _ _ _ _ _ H) as Hlaw.
  unfold keeps_law in Hlaw. revert Hlaw.
  assert (Hp : match r with
               | Returned (manVideoPath, womanVideoPath) =>
                   pushed t = created t
                   /\ created t = filter (fun p => negb (is_upload p))
                                    [manVideoPath; womanVideoPath]
               | Thrown _ => pushed t = []
               end).
  { stage_unfold H.
    minv; upload_paths;
      repeat match goal with
             | H : opt_path_eqb (Some (SourcePath _ _)) (file_path _) = true |- _ =>
                 rewrite source_is_no_upload in H; discriminate H
             end;
      cbn [app pushed created flat_map creates filter is_upload negb];
      try split; reflexivity. }
  destruct r as [[m wv] | msg].
  - destruct Hp as [Hp1 Hp2]. rewrite Hp1. auto.
  - rewrite Hp, app_nil_r. auto.
Qed.

Lemma sources_stage_pushes_witness :
  pushed (fst (fst (sources_stage Sample.second_download_fails Sample.good_request
                      initial))) = []
  /\ created (fst (fst (sources_stage Sample.second_download_fails Sample.good_request
                          initial))) = [SourcePath man "a"; SourcePath woman "b"].
Proof.
  destruct (sources_stage Sample.second_download_fails Sample.good_request initial)
    as [[t s'] r] eqn:Hrun.
  pose proof (sources_stage_pushes _ _ _ _ _ _ Hrun) as H.
  vm_compute in Hrun. injection Hrun as <- <- <-.
  split; [exact (proj1 H) | reflexivity].
Defined.

(** *** One line at a time *)

Lemma render_calls_app t1 t2 :
  render_calls (t1 ++ t2) = render_calls t1 ++ render_calls t2.
Proof. apply flat_map_app. Qed.

Lemma off_stage_no_render_calls lo hi t :
  bounded lo hi t -> hi < 3 \/ 3 < lo -> render_calls t = [].
Proof.
  unfold bounded. intros [_ B] Hr. induction t as [|e t IH]; [reflexivity |].
  destruct e as [c| | | | | | | | | | | | | | |]; try (apply IH; exact B).
  cbn in B. inversion B as [|? ? Hc B']; subst.
  specialize (IH B').
  destruct c; cbn in Hc |- *; try exact IH; lia.
Qed.

(** The rendering calls of one iteration: all three in order when it ends,
    a beginning of them when it throws. *)
Lemma render_line_calls w req mv wv index line s t s' r :
  render_line w req mv wv index line s = (t, s', r) ->
  exists text v a vid d c,
    is_clip c /\ line_number c = line_number a
    /\ let all := [Call_synthesizeSpeech text v a; Call_getMediaDuration a;
                   Call_loopVideoWithAudio vid a d c] in
       match r with
       | Returned _ => render_calls t = all
       | Thrown _ => exists n, render_calls t = firstn n all
       end.
Proof.
  intros H. stage_unfold H.
  minv; cbn [app render_calls flat_map];
    eexists _, _, (AudioPath _ (index + 1)), _, _, (ClipPath _ (index + 1));
    (split; [exact I |]); (split; [reflexivity |]); cbv zeta;
    first [ reflexivity
          | exists 0; reflexivity | exists 1; reflexivity
          | exists 2; reflexivity | exists 3; reflexivity ].
  Unshelve.
  all: first [exact JUndefined | exact None | exact EmptyString | exact mv].
Qed.

Lemma one_line_beginning text v a vid d c n :
  is_clip c -> line_number c = line_number a ->
  one_line_at_a_time
    (firstn n [Call_synthesizeSpeech text v a; Call_getMediaDuration a;
               Call_loopVideoWithAudio vid a d c]).
Proof.
  intros Hc Hn. destruct n as [|[|[|n]]]; cbn; auto.
  destruct n; cbn; auto.
Qed.

Lemma one_line_then text v a vid d c rest :
  is_clip c -> line_number c = line_number a -> one_line_at_a_time rest ->
  one_line_at_a_time
    ([Call_synthesizeSpeech text v a; Call_getMediaDuration a;
      Call_loopVideoWithAudio vid a d c] ++ rest).
Proof. intros Hc Hn Hr. cbn. auto. Qed.

Lemma render_loop_calls w req mv wv script :
  forall index clips s t s' r,
    render_loop w req mv wv index script clips s = (t, s', r) ->
    one_line_at_a_time (render_calls t).
Proof.
  induction script as [|line rest IH]; intros index clips s t s' r H;
    cbn [render_loop] in H.
  - minv. exact I.
  - destruct (skipped line); [eauto |]. minv.
    + match goal with H : render_line _ _ _ _ _ _ _ = _ |- _ =>
        destruct (render_line_calls _ _ _ _ _ _ _ _ _ _ H)
          as (text & v & a & vid & d & c & Hc & Hn & [n ->]) end.
      apply one_line_beginning; assumption.
    + match goal with H : render_line _ _ _ _ _ _ _ = _ |- _ =>
        destruct (render_line_calls _ _ _ _ _ _ _ _ _ _ H)
          as (text & v & a & vid & d & c & Hc & Hn & E) end.
      cbv zeta in E. rewrite render_calls_app, E.
      apply one_line_then; eauto.
Qed.

Lemma try_block_calls w req s t s' r :
  try_block w req s = (t, s', r) -> one_line_at_a_time (render_calls t).
Proof.
  unfold try_block. intros H.
  destruct (negb (field_truthy (apiKey req))); [minv; exact I |].
  destruct (negb (validateChirpVoice (manVoice req))
            || negb (validateChirpVoice (womanVoice req))); [minv; exact I |].
  unfold pipeline in H. minv;
    repeat match goal with
           | H : render_loop _ _ _ _ _ _ _ _ = _ |- _ => apply render_loop_calls in H
           end;
    stage_orders;
    repeat match goal with
           | H : bounded _ _ _ |- _ =>
               apply off_stage_no_render_calls in H; [| lia]
           end;
    rewrite ?render_calls_app;
    repeat match goal with H : render_calls _ = [] |- _ => rewrite H end;
    rewrite ?app_nil_r; cbn [app]; auto; exact I.
Qed.

(** X17: the lines are rendered strictly one after the other: the
    rendering calls of a run are, line after line, the synthesis into the
    audio file of the line, then the probe of that same audio file, then the
    loop over that same audio file into the clip with the same line number;
    only the last line may stop early, and nothing that runs after the
    handler's turn renders. *)
Theorem lines_rendered_one_at_a_time (w : world) (req : request) :
  one_line_at_a_time (render_calls (sync (generate_podcast w req)))
  /\ render_calls (later (generate_podcast w req)) = [].
Proof.
  assert (Hu : forall (f : path -> event) ps,
             (forall p c, f p <> EvCall c) -> render_calls (map f ps) = []).
  { intros f ps Hf. induction ps as [|p ps IH]; [reflexivity |].
    cbn. fold (render_calls (map f ps)). rewrite IH.
    destruct (f p) eqn:E; try reflexivity. exfalso. exact (Hf _ _ E). }
  unfold generate_podcast.
  destruct (try_block w req initial) as [[t s] r] eqn:H.
  apply try_block_calls in H.
  destruct r as [[|] | msg]; cbn [sync later]; split; auto.
  - cbn. fold (render_calls (map EvUnlink (cleanupPaths s)
                              ++ cleanupFiles_settle (cleanupPaths s))).
    rewrite render_calls_app. unfold cleanupFiles_settle.
    rewrite !Hu; [reflexivity | discriminate | discriminate].
  - rewrite !render_calls_app. unfold cleanupFiles_issue. cbn.
    fold (render_calls (map EvUnlink (cleanupPaths s))).
    rewrite Hu, app_nil_r; [exact H | discriminate].
  - apply Hu. discriminate.
Qed.

(** *** The requests to the two backends *)

Lemma gemini_posts_app t1 t2 :
  gemini_posts (t1 ++ t2) = gemini_posts t1 ++ gemini_posts t2.
Proof. apply flat_map_app. Qed.

Lemma after_script_posts req t : Forall (after_script req) t -> gemini_posts t = [].
Proof.
  induction 1 as [|e t He _ IH]; [reflexivity |].
  destruct e; cbn in He |- *; try exact IH; contradiction.
Qed.

Lemma compose_posts tc : Forall compose_event tc -> gemini_posts tc = [].
Proof.
  induction 1 as [|e t He _ IH]; [reflexivity |].
  destruct e; cbn in He |- *; try exact IH; contradiction.
Qed.

Lemma script_stage_posts w req s t s' r :
  script_stage w req s = (t, s', r) ->
  List.length (gemini_posts t) <= 1
  /\ forall k text lang v, ~ In (EvPostTts k text lang v) t.
Proof.
  intros H. apply script_stage_shape in H.
  destruct H as (_ & tc & Hc & [[-> _] | [rest ->]]).
  - split.
    + cbn. fold (gemini_posts tc). rewrite (compose_posts _ Hc). cbn. lia.
    + intros k text lang v [E | Hin]; [discriminate |].
      rewrite Forall_forall in Hc. exact (Hc _ Hin).
  - split.
    + cbn. fold (gemini_posts (tc ++ [EvCall Call_callGemini;
                                      EvPostGemini (apiKey req)
                                        (intro (normalizedLength req) :: rest)])).
      rewrite gemini_posts_app, (compose_posts _ Hc). cbn. lia.
    + intros k text lang v [E | Hin]; [discriminate |].
      apply in_app_or in Hin. destruct Hin as [Hin | [E | [E | []]]];
        try discriminate.
      rewrite Forall_forall in Hc. exact (Hc _ Hin).
Qed.

Lemma sources_stage_after w req s t s' r :
  sources_stage w req s = (t, s', r) -> Forall (after_script req) t.
Proof. intros H. stage_unfold H. minv; repeat constructor. Qed.

Lemma render_line_after w req mv wv index line s t s' r :
  render_line w req mv wv index line s = (t, s', r) -> Forall (after_script req) t.
Proof.
  intros H. stage_unfold H.
  minv; repeat first [apply Forall_nil | apply Forall_cons]; cbn; auto;
    repeat split;
    match goal with
    | |- (if ?c then _ else _) = _ \/ _ => destruct c; auto
    end.
Qed.

Lemma render_loop_after w req mv wv script :
  forall index clips s t s' r,
    render_loop w req mv wv index script clips s = (t, s', r) ->
    Forall (after_script req) t.
Proof.
  induction script as [|line rest IH]; intros index clips s t s' r H;
    cbn [render_loop] in H.
  - minv. constructor.
  - destruct (skipped line); [eauto |]. minv.
    + eauto using render_line_after.
    + apply Forall_app. eauto using render_line_after.
Qed.

Lemma finish_stage_after w req clips s t s' r :
  finish_stage w req clips s = (t, s', r) -> Forall (after_script req) t.
Proof. intros H. stage_unfold H. minv; repeat constructor. Qed.

(** The [try] block posts to the generator at most once and to the speech
    backend only as the request says, and to neither unless the request
    passed validation. *)
Lemma try_block_posts w req s t s' r :
  try_block w req s = (t, s', r) ->
  List.length (gemini_posts t) <= 1
  /\ forall k text lang v,
       In (EvPostTts k text lang v) t ->
       (k = apiKey req /\ lang = with_default "en-US" (languageCode req)
        /\ (v = manVoice req \/ v = womanVoice req))
       /\ field_truthy (apiKey req) = true
       /\ validateChirpVoice (manVoice req) = true
       /\ validateChirpVoice (womanVoice req) = true.
Proof.
  unfold try_block. intros H.
  destruct (field_truthy (apiKey req)) eqn:Hk; cbn [negb] in H.
  2:{ minv. split; [cbn; lia |]. intros k text lang v [E | []]. discriminate. }
  destruct (validateChirpVoice (manVoice req)) eqn:Hm;
    destruct (validateChirpVoice (womanVoice req)) eqn:Hw; cbn [negb orb] in H;
    try (minv; split; [cbn; lia |]; intros k text lang v [E | []]; discriminate).
  assert (Hsplit : exists t1 t2,
             t = t1 ++ t2 /\ List.length (gemini_posts t1) <= 1
             /\ (forall k text lang v, ~ In (EvPostTts k text lang v) t1)
             /\ Forall (after_script req) t2).
  { unfold pipeline in H. minv;
      repeat match goal with
             | H : script_stage _ _ _ = _ |- _ => apply script_stage_posts in H
             | H : sources_stage _ _ _ = _ |- _ => apply sources_stage_after in H
             | H : render_loop _ _ _ _ _ _ _ _ = _ |- _ => apply render_loop_after in H
             | H : finish_stage _ _ _ _ = _ |- _ => apply finish_stage_after in H
             end;
      match goal with
      | H : _ <= 1 /\ _ |- _ => destruct H as [? ?]
      end;
      first [ eexists _, _; split; [reflexivity |];
              repeat split; auto; repeat (apply Forall_app; split); assumption
            | eexists _, []; split; [symmetry; apply app_nil_r |];
              repeat split; auto ]. }
  destruct Hsplit as (t1 & t2 & -> & H1 & H2 & H3). split.
  - rewrite gemini_posts_app, (after_script_posts _ _ H3), app_nil_r. exact H1.
  - intros k text lang v Hin. apply in_app_or in Hin.
    destruct Hin as [Hin | Hin]; [exfalso; exact (H2 _ _ _ _ Hin) |].
    rewrite Forall_forall in H3. specialize (H3 _ Hin). cbn in H3. auto.
Qed.

(** X18: in the whole of a run the generator is posted to at most once;
    every request to the speech backend carries the API key of the request,
    its language code (en-US when the field is absent) and the man's or the
    woman's voice of the request, a voice that passed validateChirpVoice;
    nothing that runs after the handler's turn posts to either. *)
Theorem backend_requests (w : world) (req : request) :
  let r := generate_podcast w req in
  List.length (gemini_posts (sync r ++ later r)) <= 1
  /\ forall k text lang v,
       In (EvPostTts k text lang v) (sync r ++ later r) ->
       k = apiKey req /\ lang = with_default "en-US" (languageCode req)
       /\ (v = manVoice req \/ v = womanVoice req)
       /\ validateChirpVoice v = true.
Proof.
  cbv zeta.
  assert (Hu : forall (f : path -> event) ps,
             (forall p k parts, f p <> EvPostGemini k parts) ->
             gemini_posts (map f ps) = []).
  { intros f ps Hf. induction ps as [|p ps IH]; [reflexivity |].
    cbn. fold (gemini_posts (map f ps)). rewrite IH.
    destruct (f p) eqn:E; try reflexivity. exfalso. exact (Hf _ _ _ E). }
  assert (Hv : forall (f : path -> event) ps k text lang v,
             (forall p, f p <> EvPostTts k text lang v) ->
             ~ In (EvPostTts k text lang v) (map f ps)).
  { intros f ps k text lang v Hf Hin. apply in_map_iff in Hin.
    destruct Hin as (p & E & _). exact (Hf _ E). }
  unfold generate_podcast.
  destruct (try_block w req initial) as [[t s] r] eqn:H.
  apply try_block_posts in H. destruct H as [H1 H2].
  assert (Hok : forall k text lang v,
             In (EvPostTts k text lang v) t ->
             k = apiKey req /\ lang = with_default "en-US" (languageCode req)
             /\ (v = manVoice req \/ v = womanVoice req)
             /\ validateChirpVoice v = true).
  { intros k text lang v Hin.
    destruct (H2 _ _ _ _ Hin) as ((-> & -> & Hvoice) & _ & Hm & Hw).
    repeat split; auto. destruct Hvoice as [-> | ->]; assumption. }
  destruct r as [[|] | msg]; cbn [sync later]; split.
  - rewrite gemini_posts_app. cbn.
    fold (gemini_posts (map EvUnlink (cleanupPaths s)
                          ++ cleanupFiles_settle (cleanupPaths s))).
    unfold cleanupFiles_settle.
    rewrite gemini_posts_app, !Hu, app_nil_r; [exact H1 | discriminate | discriminate].
  - intros k text lang v Hin. apply in_app_or in Hin.
    destruct Hin as [Hin | [E | [E | Hin]]];
      [exact (Hok _ _ _ _ Hin) | discriminate | discriminate |].
    exfalso. apply in_app_or in Hin.
    destruct Hin as [Hin | Hin]; revert Hin; apply Hv; discriminate.
  - rewrite app_nil_r. exact H1.
  - rewrite app_nil_r. exact Hok.
  - rewrite !gemini_posts_app. unfold cleanupFiles_issue, cleanupFiles_settle. cbn.
    fold (gemini_posts (map EvUnlink (cleanupPaths s))).
    rewrite !Hu, !app_nil_r; [exact H1 | discriminate | discriminate].
  - intros k text lang v Hin.
    rewrite <- !app_assoc in Hin. apply in_app_or in Hin.
    destruct Hin as [Hin | [E | Hin]]; [exact (Hok _ _ _ _ Hin) | discriminate |].
    exfalso. apply in_app_or in Hin. destruct Hin as [Hin | Hin];
      [revert Hin; apply Hv; discriminate |].
    destruct Hin as [E | Hin]; [discriminate |].
    revert Hin. apply Hv. discriminate.
Qed.

Lemma backend_requests_witness :
  Some "key" = apiKey Sample.good_request
  /\ "en-US"%string = with_default "en-US" (languageCode Sample.good_request)
  /\ (Some "en-US-chirp-f" = manVoice Sample.good_request
      \/ Some "en-US-chirp-f" = womanVoice Sample.good_request)
  /\ validateChirpVoice (Some "en-US-chirp-f") = true.
Proof.
  apply (proj2 (backend_requests Sample.good_world Sample.good_request))
    with (text := JStr "Hello").
  vm_compute. in_list.
Defined.

(** *** A probe that gives no number *)

(** X19: the test of line 366 lets every truthy value that is not a number
    through (ffprobe reports an unknown duration as a string): the iteration
    then calls loopVideoWithAudio with it, which throws on toFixed before
    ffmpeg is started, so no clip is written for that line. *)
Theorem non_number_duration (w : world) (req : request) mv wv index line s t s' r a d :
  render_line w req mv wv index line s = (t, s', r) ->
  In (EvFfprobe a) t ->
  ffprobe_duration w a = Returned d ->
  JsVal.truthy d = true ->
  (forall x, d <> JNum x) ->
  r = Thrown "durationSeconds.toFixed is not a function"
  /\ (exists video clip, In (EvCall (Call_loopVideoWithAudio video a d clip)) t)
  /\ forall p, ~ In (EvFfmpegSave p) t.
Proof.
  intros H Hin Hd Ht Hn. stage_unfold H.
  minv; cbn [app] in Hin |- *;
    repeat match goal with
           | H : In _ (_ :: _) |- _ => destruct H as [H | H]; try discriminate H
           | H : In _ [] |- _ => destruct H
           | H : EvFfprobe _ = EvFfprobe _ |- _ => injection H as H; subst
           end;
    repeat match goal with
           | H : Returned _ = ffprobe_duration _ _ |- _ =>
               rewrite Hd in H; injection H as H; subst
           | H : Thrown _ = ffprobe_duration _ _ |- _ =>
               rewrite Hd in H; discriminate H
           end;
    try (exfalso; eapply Hn; reflexivity);
    try match goal with
        | H : negb (JsVal.truthy ?d) || JsVal.Number_isNaN ?d = true |- _ =>
            exfalso; rewrite Ht in H; destruct d; cbn in H;
            try discriminate H; eapply Hn; reflexivity
        end;
    (split; [reflexivity |]); (split; [do 2 eexists; in_list |]);
    intros p Hp; cbn in Hp; intuition discriminate.
Qed.

Lemma non_number_duration_witness :
  snd (render_line (Sample.world_with Sample.script (JStr "N/A")) Sample.good_request
         (SourcePath man "a") (SourcePath woman "b") 0
         (Sample.entry (JStr "Man") (JStr "Hi")) initial)
  = Thrown "durationSeconds.toFixed is not a function".
Proof.
  destruct (render_line (Sample.world_with Sample.script (JStr "N/A"))
              Sample.good_request (SourcePath man "a") (SourcePath woman "b") 0
              (Sample.entry (JStr "Man") (JStr "Hi")) initial)
    as [[t s'] r] eqn:Hrun.
  refine (proj1 (non_number_duration _ _ _ _ _ _ _ _ _ _ (AudioPath "a" 1)
                   (JStr "N/A") Hrun _ eq_refl eq_refl _)).
  - vm_compute in Hrun. injection Hrun as <- _ _. in_list.
  - discriminate.
Defined.

(** *** No path is registered twice *)

Lemma NoDup_app_apart {A} (l1 l2 : list A) :
  NoDup l1 -> NoDup l2 -> (forall x, In x l1 -> In x l2 -> False) ->
  NoDup (l1 ++ l2).
Proof.
  induction 1 as [|a l1 Ha H1 IH]; intros H2 Hd; [exact H2 |].
  cbn. constructor.
  - intros Hin. apply in_app_or in Hin. destruct Hin as [Hin | Hin];
      [exact (Ha Hin) | exact (Hd a (or_introl eq_refl) Hin)].
  - apply IH; [exact H2 |]. intros x Hx. apply Hd. right. exact Hx.
Qed.

Lemma script_stage_pushed w req s t s' r :
  script_stage w req s = (t, s', r) -> pushed t = [].
Proof.
  intros H. apply script_stage_shape in H.
  destruct H as (_ & tc & Hc & [[-> _] | [rest ->]]); cbn; fold (pushed tc);
    rewrite ?pushed_app, (compose_pushed _ Hc); reflexivity.
Qed.

Lemma sources_stage_pushed w req s t s' r :
  sources_stage w req s = (t, s', r) ->
  NoDup (pushed t) /\ Forall (fun p => is_source p = true) (pushed t).
Proof.
  intros H. stage_unfold H.
  minv; upload_paths; cbn [app pushed flat_map]; split;
    repeat first [ apply NoDup_nil | apply NoDup_cons | apply Forall_nil
                 | apply Forall_cons ];
    try reflexivity; cbn; intuition discriminate.
Qed.

Lemma render_line_pushed w req mv wv index line s t s' r :
  render_line w req mv wv index line s = (t, s', r) ->
  exists u1 u2, pushed t = [AudioPath u1 (index + 1); ClipPath u2 (index + 1)].
Proof. intros H. stage_unfold H. minv; cbn [app pushed flat_map]; eauto. Qed.

Lemma render_loop_pushed w req mv wv script :
  forall index clips s t s' r,
    render_loop w req mv wv index script clips s = (t, s', r) ->
    NoDup (pushed t)
    /\ Forall (fun p => is_line_artifact p /\ index < line_number p) (pushed t).
Proof.
  induction script as [|line rest IH]; intros index clips s t s' r H;
    cbn [render_loop] in H.
  - minv. split; constructor.
  - assert (Hup : forall l,
               Forall (fun p => is_line_artifact p /\ S index < line_number p) l ->
               Forall (fun p => is_line_artifact p /\ index < line_number p) l).
    { apply Forall_impl. intros p [Hp Hn]. split; [exact Hp | lia]. }
    destruct (skipped line).
    { destruct (IH _ _ _ _ _ _ H) as [Hd Hf]. auto. }
    minv.
    + match goal with H : render_line _ _ _ _ _ _ _ = _ |- _ =>
        destruct (render_line_pushed _ _ _ _ _ _ _ _ _ _ H) as (u1 & u2 & ->) end.
      split.
      * repeat constructor; cbn; intuition discriminate.
      * repeat constructor; cbn; lia.
    + match goal with H : render_line _ _ _ _ _ _ _ = _ |- _ =>
        destruct (render_line_pushed _ _ _ _ _ _ _ _ _ _ H) as (u1 & u2 & E) end.
      match goal with H : render_loop _ _ _ _ _ _ _ _ = _ |- _ =>
        destruct (IH _ _ _ _ _ _ H) as [Hd Hf] end.
      rewrite pushed_app, E. split.
      * apply NoDup_app_apart; [| exact Hd |].
        -- repeat constructor; cbn; intuition discriminate.
        -- intros p Hp Hq. rewrite Forall_forall in Hf.
           destruct (Hf _ Hq) as [_ Hn].
           destruct Hp as [<- | [<- | []]]; cbn in Hn; lia.
      * apply Forall_app. split; [repeat constructor; cbn; lia | auto].
Qed.

Lemma finish_stage_pushed w req clips s t s' r :
  finish_stage w req clips s = (t, s', r) ->
  pushed t = [] \/ pushed t = tempUploads req.
Proof.
  intros H. stage_unfold H.
  minv; cbn [app pushed flat_map]; rewrite ?app_nil_r; auto.
Qed.

(** What the [try] block registers: downloaded sources, then the audio
    files and clips of the lines, then, at the very end, the uploads. *)
Lemma try_block_pushed w req s t s' r :
  try_block w req s = (t, s', r) ->
  exists sources lines uploads,
    pushed t = sources ++ lines ++ uploads
    /\ NoDup sources /\ Forall (fun p => is_source p = true) sources
    /\ NoDup lines /\ Forall is_line_artifact lines
    /\ (uploads = [] \/ uploads = tempUploads req).
Proof.
  assert (Hl : forall index l,
             Forall (fun p => is_line_artifact p /\ index < line_number p) l ->
             Forall is_line_artifact l).
  { intros index l. apply Forall_impl. tauto. }
  unfold try_block. intros H.
  destruct (negb (field_truthy (apiKey req))).
  { minv. exists [], [], []. cbn. repeat split; auto; constructor. }
  destruct (negb (validateChirpVoice (manVoice req))
            || negb (validateChirpVoice (womanVoice req))).
  { minv. exists [], [], []. cbn. repeat split; auto; constructor. }
  unfold pipeline in H. minv;
    repeat match goal with
           | H : script_stage _ _ _ = _ |- _ => apply script_stage_pushed in H
           | H : sources_stage _ _ _ = _ |- _ =>
               apply sources_stage_pushed in H; destruct H as [? ?]
           | H : render_loop _ _ _ _ _ _ _ _ = _ |- _ =>
               apply render_loop_pushed in H; destruct H as [? ?]
           | H : finish_stage _ _ _ _ = _ |- _ => apply finish_stage_pushed in H
           end;
    rewrite ?pushed_app;
    repeat match goal with H : pushed _ = [] |- _ => rewrite H end;
    cbn [app].
  - exists [], [], []. repeat split; auto; constructor.
  - eexists _, [], []. rewrite app_nil_r.
    repeat split; eauto; constructor.
  - eexists _, _, []. rewrite app_nil_r.
    repeat split; eauto.
  - match goal with H : _ \/ _ |- _ => destruct H as [E | E]; rewrite E end;
      eexists _, _, _; repeat split; eauto.
Qed.

Lemma unlinked_app t1 t2 : unlinked (t1 ++ t2) = unlinked t1 ++ unlinked t2.
Proof. apply flat_map_app. Qed.

Lemma early_unlinked t : Forall early t -> unlinked t = [].
Proof.
  induction 1 as [|e l He _ IH]; [reflexivity |].
  destruct e; cbn in He |- *; try exact IH; contradiction.
Qed.

(** The [try] block itself unlinks at most one file, the manifest. *)
Lemma try_block_unlinked w req s t s' r :
  try_block w req s = (t, s', r) -> NoDup (unlinked t).
Proof.
  unfold try_block. intros H.
  destruct (negb (field_truthy (apiKey req))); [minv; constructor |].
  destruct (negb (validateChirpVoice (manVoice req))
            || negb (validateChirpVoice (womanVoice req))); [minv; constructor |].
  unfold pipeline in H.
  minv; stage_early;
    rewrite ?unlinked_app;
    repeat match goal with
           | H : Forall early ?l |- _ => apply early_unlinked in H; rewrite H
           end;
    cbn [app]; try constructor.
  match goal with H : finish_stage _ _ _ _ = _ |- _ => stage_unfold H end.
  minv; cbn; repeat constructor; cbn; tauto.
Qed.

(** X20: when the three uploads of a request are stored under different
    names, no path is registered twice in a run, so the cleanup never calls
    unlink twice for one path.  The registered paths are the downloaded
    sources, then the audio file and the clip of each line, then the
    uploads. *)
Theorem registered_once (w : world) (req : request) :
  NoDup (tempUploads req) ->
  let r := generate_podcast w req in
  NoDup (registered r)
  /\ NoDup (unlinked (sync r ++ later r))
  /\ forall p, In p (registered r) ->
       is_source p = true \/ is_line_artifact p \/ In p (tempUploads req).
Proof.
  intros Hup. cbv zeta.
  assert (Hunl : forall ps, unlinked (map EvUnlink ps) = ps).
  { induction ps as [|p ps IH]; [reflexivity |]. cbn.
    fold (unlinked (map EvUnlink ps)). now rewrite IH. }
  assert (Hset : forall ps, unlinked (map EvUnlinkSettled ps) = []).
  { induction ps as [|p ps IH]; [reflexivity | exact IH]. }
  unfold generate_podcast.
  destruct (try_block w req initial) as [[t s] r] eqn:H.
  pose proof (try_block_law _ _ _ _ _ _ H) as Hlaw.
  unfold keeps_law in Hlaw. cbn [initial cleanupPaths app] in Hlaw.
  pose proof (try_block_events _ _ _ _ _ _ H) as Hok.
  destruct (try_block_pushed _ _ _ _ _ _ H)
    as (A & B & C & E & HA & HsA & HB & HlB & HC).
  assert (Hreg : NoDup (cleanupPaths s)).
  { rewrite Hlaw, E.
    assert (HCd : NoDup C) by (destruct HC as [-> | ->]; [constructor | exact Hup]).
    assert (HCu : forall p, In p C -> is_upload p = true).
    { intros p Hp. destruct HC as [-> | ->]; [destruct Hp |].
      eapply tempUploads_upload; eauto. }
    rewrite Forall_forall in HsA, HlB.
    apply NoDup_app_apart; [exact HA | |].
    - apply NoDup_app_apart; [exact HB | exact HCd |].
      intros p Hp Hq. specialize (HlB _ Hp). specialize (HCu _ Hq).
      destruct p; cbn in *; try discriminate; contradiction.
    - intros p Hp Hq. specialize (HsA _ Hp). apply in_app_or in Hq.
      destruct Hq as [Hq | Hq].
      + specialize (HlB _ Hq). destruct p; cbn in *; try discriminate; contradiction.
      + specialize (HCu _ Hq). destruct p; cbn in *; discriminate. }
  assert (Hkinds : forall p, In p (cleanupPaths s) ->
             is_source p = true \/ is_line_artifact p \/ In p (tempUploads req)).
  { intros p Hp. rewrite Hlaw, E in Hp. rewrite Forall_forall in HsA, HlB.
    apply in_app_or in Hp. destruct Hp as [Hp | Hp]; [auto |].
    apply in_app_or in Hp. destruct Hp as [Hp | Hp]; [auto |].
    destruct HC as [-> | ->]; [destruct Hp | auto]. }
  assert (Htry : forall q, In q (unlinked t) -> exists u, q = ManifestPath u).
  { intros q Hq. unfold unlinked in Hq. apply in_flat_map in Hq.
    destruct Hq as (e & He & Hq). rewrite Forall_forall in Hok.
    specialize (Hok _ He). destruct e; cbn in Hq; try contradiction.
    destruct Hq as [<- | []]. exact Hok. }
  assert (Hman : forall u, ~ In (ManifestPath u) (cleanupPaths s)).
  { intros u Hu. destruct (Hkinds _ Hu) as [K | [K | K]];
      [discriminate K | exact K |].
    apply tempUploads_upload in K. discriminate K. }
  pose proof (try_block_unlinked _ _ _ _ _ _ H) as Hone.
  destruct r as [[|] | msg]; cbn [sync later registered];
    (split; [exact Hreg |]); (split; [| exact Hkinds]).
  - rewrite unlinked_app. unfold cleanupFiles_issue, cleanupFiles_settle. cbn.
    fold (unlinked (map EvUnlink (cleanupPaths s)
                      ++ map EvUnlinkSettled (cleanupPaths s))).
    rewrite unlinked_app, Hunl, Hset, app_nil_r.
    apply NoDup_app_apart; [exact Hone | exact Hreg |].
    intros q Hq Hq'. destruct (Htry _ Hq) as [u ->]. exact (Hman _ Hq').
  - rewrite app_nil_r. exact Hone.
  - rewrite !unlinked_app. unfold cleanupFiles_issue, cleanupFiles_settle. cbn.
    fold (unlinked (map EvUnlink (cleanupPaths s))).
    rewrite Hunl, Hset, !app_nil_r.
    apply NoDup_app_apart; [exact Hone | exact Hreg |].
    intros q Hq Hq'. destruct (Htry _ Hq) as [u ->]. exact (Hman _ Hq').
Qed.

Lemma registered_once_witness :
  NoDup (registered (generate_podcast Sample.good_world Sample.upload_request)).
Proof.
  refine (proj1 (registered_once Sample.good_world Sample.upload_request _)).
  vm_compute. repeat constructor. intros [].
Defined.

(** ** File names of ASCII characters *)

(** X2: a sanitized name consists of letters, digits, hyphen, underscore
    and dot only (no path separator is left), has one character for each
    character of the name, and is kept by a second pass.  This is stated of
    the names that consist of ASCII characters, the ones on which a
    replacement per byte and a replacement per UTF-16 unit are the same. *)
Theorem sanitizeFileName_safe (name : string) :
  all_chars is_ascii name = true ->
  all_chars is_file_char (sanitizeFileName name) = true
  /\ all_chars (fun c => negb (Ascii.eqb c "/")) (sanitizeFileName name) = true
  /\ all_chars is_ascii (sanitizeFileName name) = true
  /\ String.length (sanitizeFileName name) = String.length name
  /\ sanitizeFileName (sanitizeFileName name) = sanitizeFileName name.
Proof.
  intros Ha. repeat split.
  - apply sanitizeFileName_chars.
  - induction name as [|c rest IH]; cbn in Ha |- *; [reflexivity |].
    apply andb_prop in Ha. destruct Ha as [_ Ha].
    rewrite (IH Ha), andb_true_r. destruct (is_file_char c) eqn:E; [| reflexivity].
    destruct (Ascii.eqb_spec c "/") as [-> |]; [discriminate | reflexivity].
  - induction name as [|c rest IH]; cbn in Ha |- *; [reflexivity |].
    apply andb_prop in Ha. destruct Ha as [Hc Ha].
    rewrite (IH Ha), andb_true_r. destruct (is_file_char c); [exact Hc | reflexivity].
  - apply sanitizeFileName_length.
  - apply sanitizeFileName_fixed, sanitizeFileName_chars.
Qed.

Lemma sanitizeFileName_safe_witness :
  all_chars is_file_char (sanitizeFileName "intro v2/final cut.mp3") = true
  /\ sanitizeFileName "intro v2/final cut.mp3" = "intro_v2_final_cut.mp3".
Proof.
  destruct (sanitizeFileName_safe "intro v2/final cut.mp3" eq_refl) as (H & _).
  split; [exact H | reflexivity].
Defined.

(** ** Every request that reaches the handler *)

(** C10, over every request that reaches the handler: a request with a
    parsed body whose manVoice or womanVoice is not a string that contains
    the lowercase token chirp, as it is written, is answered 400 and nothing
    else happens: no backend is called, no file is created, no path is
    registered, nothing is left pending.  A request whose body was not
    parsed has no voice either; it is answered 500, after a cleanup of the
    empty list, and nothing else happens. *)
Theorem chirp_voice_rejected (w : world) (i : incoming) :
  (forall req,
      i = Multipart req ->
      (~ exists s, manVoice req = Some s /\ Spec.contains s "chirp")
      \/ (~ exists s, womanVoice req = Some s /\ Spec.contains s "chirp") ->
      exists b,
        sync (handle w i) = [EvRespond 400 b]
        /\ later (handle w i) = []
        /\ registered (handle w i) = [])
  /\ (i = Unparsed ->
      exists b,
        sync (handle w i) = [EvCall (Call_cleanupFiles []); EvRespond 500 b]
        /\ later (handle w i) = []
        /\ registered (handle w i) = []).
Proof.
  split.
  - intros req -> H. cbn [handle].
    assert (Hv : negb (validateChirpVoice (manVoice req))
                 || negb (validateChirpVoice (womanVoice req)) = true).
    { apply orb_true_iff. destruct H as [H | H]; [left | right];
        apply negb_true_iff, not_true_is_false; intros Hc;
        apply H, validateChirpVoice_iff, Hc. }
    unfold generate_podcast, try_block.
    destruct (negb (field_truthy (apiKey req))).
    + eexists. cbn. auto.
    + rewrite Hv. eexists. cbn. auto.
  - intros ->. eexists. cbn. auto.
Qed.

Lemma chirp_voice_rejected_witness :
  exists b,
    sync (handle Sample.good_world
            (Multipart (Sample.request_with None (Some "en-US-Chirp3-HD-Charon")
                          (Some "en-US-chirp-f") None))) = [EvRespond 400 b]
    /\ later (handle Sample.good_world
                (Multipart (Sample.request_with None (Some "en-US-Chirp3-HD-Charon")
                              (Some "en-US-chirp-f") None))) = []
    /\ registered (handle Sample.good_world
                     (Multipart (Sample.request_with None (Some "en-US-Chirp3-HD-Charon")
                                   (Some "en-US-chirp-f") None))) = [].
Proof.
  apply (proj1 (chirp_voice_rejected Sample.good_world _) _ eq_refl).
  left. intros (s & E & Hc).
  injection E as <-. apply includes_iff in Hc. vm_compute in Hc. discriminate.
Defined.

(** A POST that is not multipart carries no voice of the Chirp family, and
    is answered 500, not 400. *)
Lemma unparsed_request_answered_500 :
  responses (sync (handle Sample.good_world Unparsed))
  = [(500, JsonError "Cannot destructure property 'apiKey' of 'req.body' as it is undefined.")]
  /\ forall b, ~ In (EvRespond 400 b) (sync (handle Sample.good_world Unparsed)).
Proof.
  split; [reflexivity |]. intros b [E | [E | []]]; discriminate.
Qed.

(** X14: no request is answered twice.  When the handler answers, it
    answers in its own turn, once, with status 200, 400 or 500, and nothing
    that runs later (the timer, the pending unlinks) answers again.  The
    status is 400 exactly when the body was parsed and the API key is missing
    or empty or one of the two voices fails validateChirpVoice, the missing
    key being reported first; a request whose body was not parsed is answered
    500. *)
Theorem one_answer (w : world) (i : incoming) :
  let r := handle w i in
  responses (later r) = []
  /\ forall st b,
       In (st, b) (responses (sync r)) ->
       responses (sync r) = [(st, b)]
       /\ (st = 200 \/ st = 400 \/ st = 500)
       /\ (st = 400 <->
           exists req,
             i = Multipart req
             /\ (field_truthy (apiKey req) = false
                 \/ validateChirpVoice (manVoice req) = false
                 \/ validateChirpVoice (womanVoice req) = false))
       /\ (forall req,
             i = Multipart req -> field_truthy (apiKey req) = false ->
             b = JsonError "Google Cloud API key is required.")
       /\ (i = Unparsed -> st = 500).
Proof.
  cbv zeta. destruct i as [req |].
  2:{ split; [reflexivity |]. cbn. intros st b [E | []]. injection E as <- <-.
      repeat split; auto.
      - discriminate.
      - intros (req & E & _). discriminate E.
      - intros req E. discriminate E. }
  cbn [handle]. unfold generate_podcast.
  destruct (try_block w req initial) as [[t s] r] eqn:H.
  apply try_block_answers in H.
  assert (Hiff : forall st : nat,
             st <> 400 ->
             field_truthy (apiKey req) = true ->
             validateChirpVoice (manVoice req) = true ->
             validateChirpVoice (womanVoice req) = true ->
             st = 400 <->
             exists req0,
               Multipart req = Multipart req0
               /\ (field_truthy (apiKey req0) = false
                   \/ validateChirpVoice (manVoice req0) = false
                   \/ validateChirpVoice (womanVoice req0) = false)).
  { intros st Hst Hk Hm Hw. split; [contradiction |].
    intros (req0 & E & Hbad). injection E as <-.
    destruct Hbad as [E | [E | E]]; congruence. }
  assert (Hkey : forall b0 : body,
             field_truthy (apiKey req) = true ->
             forall req0,
               Multipart req = Multipart req0 -> field_truthy (apiKey req0) = false ->
               b0 = JsonError "Google Cloud API key is required.").
  { intros b0 Hk req0 E. injection E as <-. congruence. }
  destruct r as [[|] | msg]; cbn [sync later].
  - destruct H as (Hk & Hm & Hw & u & pre & -> & Hr & _). split.
    { cbn. fold (responses (map EvUnlink (cleanupPaths s))).
      rewrite responses_app, responses_settle, app_nil_r.
      apply responses_unlinks. discriminate. }
    rewrite responses_app, Hr. cbn. intros st b [E | []]. injection E as <- <-.
    split; [reflexivity |]. split; [auto |].
    split; [apply Hiff; auto; discriminate |].
    split; [apply Hkey; exact Hk | discriminate].
  - split; [reflexivity |].
    destruct H as [_ [[Hk ->] | (Hk & Hv & ->)]]; cbn;
      intros st b [E | []]; injection E as <- <-;
      (split; [reflexivity |]); (split; [auto |]);
      (split; [split; [intros _; exists req; split; [reflexivity | tauto]
                      | reflexivity] |]);
      (split; [| discriminate]).
    + intros req0 E _. reflexivity.
    + apply Hkey. exact Hk.
  - destruct H as (Hr & Hk & Hm & Hw). split; [apply responses_settle |].
    rewrite !responses_app, Hr, responses_issue. cbn.
    intros st b [E | []]. injection E as <- <-.
    split; [reflexivity |]. split; [auto |].
    split; [apply Hiff; auto; discriminate |].
    split; [apply Hkey; exact Hk | discriminate].
Qed.

Lemma one_answer_witness :
  responses (sync (handle Sample.good_world (Multipart Sample.good_request)))
  = [(200, JsonDownloadUrl "/downloads/podcast_g.mp4")].
Proof.
  apply (proj2 (one_answer Sample.good_world (Multipart Sample.good_request))).
  vm_compute. in_list.
Defined.

(** [parts.find((part) => part.text)] returns the first item with a truthy
    text, or undefined when no item has one. *)
Lemma find_text_found items s t s' part :
  find_text items s = (t, s', Returned part) ->
  (part = JUndefined
   /\ Forall (fun item => JsVal.truthy (JsVal.get item "text") = false) items)
  \/ exists before after,
       items = before ++ part :: after
       /\ Forall (fun item => JsVal.truthy (JsVal.get item "text") = false) before
       /\ JsVal.truthy (JsVal.get part "text") = true.
Proof.
  revert s t s'. induction items as [|item items IH]; intros s t s' H;
    cbn [find_text] in H.
  - minv. left. split; [reflexivity | constructor].
  - assert (Hgo : forall (Hnn : JsVal.nullish item = false),
               (if JsVal.truthy (JsVal.get item "text") then ret item
                else find_text items) s = (t, s', Returned part) ->
               (part = JUndefined
                /\ Forall (fun item => JsVal.truthy (JsVal.get item "text") = false)
                     (item :: items))
               \/ exists before after,
                    item :: items = before ++ part :: after
                    /\ Forall (fun item => JsVal.truthy (JsVal.get item "text") = false)
                         before
                    /\ JsVal.truthy (JsVal.get part "text") = true).
    { intros _ Hrun. destruct (JsVal.truthy (JsVal.get item "text")) eqn:Ht.
      - minv. right. exists [], items. repeat split; [constructor | exact Ht].
      - destruct (IH _ _ _ Hrun) as [[-> Hall] | (before & after & -> & Hb & Hp)].
        + left. split; [reflexivity | constructor; assumption].
        + right. exists (item :: before), after.
          repeat split; [constructor; assumption | exact Hp]. }
    destruct item; try (apply Hgo; [reflexivity | exact H]); minv.
Qed.

(** X9: callGemini posts to the generator once, whatever the answer, and
    changes no state.  A failure of the request is passed on; an answer
    whose candidates are missing or empty fails with its own message; an
    answer whose first candidate has no parts fails with the message for a
    missing text.  A script is returned only as the array that JSON.parse
    gives for the text of the first part, among the parts of the first
    candidate of the answer, that has a truthy text. *)
Theorem callGemini_once (w : world) key parts s t s' r :
  callGemini w key parts s = (t, s', r) ->
  t = [EvPostGemini key parts] /\ s' = s
  /\ (forall msg, axios_post_gemini w key parts = Thrown msg -> r = Thrown msg)
  /\ (forall data,
        axios_post_gemini w key parts = Returned data ->
        JsVal.truthy (JsVal.opt_get data "candidates") = false
        \/ JsVal.length_truthy (JsVal.opt_get data "candidates") = false ->
        r = Thrown "Gemini returned no candidates.")
  /\ (forall data,
        axios_post_gemini w key parts = Returned data ->
        JsVal.truthy (JsVal.opt_get data "candidates") = true ->
        JsVal.length_truthy (JsVal.opt_get data "candidates") = true ->
        JsVal.nullish
          (JsVal.opt_get
             (JsVal.opt_get (JsVal.first (JsVal.opt_get data "candidates")) "content")
             "parts") = true ->
        r = Thrown "Gemini response did not include text content.")
  /\ (forall script,
        r = Returned script ->
        exists data before part after,
          axios_post_gemini w key parts = Returned data
          /\ JsVal.truthy (JsVal.opt_get data "candidates") = true
          /\ JsVal.length_truthy (JsVal.opt_get data "candidates") = true
          /\ JsVal.opt_get
               (JsVal.opt_get (JsVal.first (JsVal.opt_get data "candidates")) "content")
               "parts" = JArr (before ++ part :: after)
          /\ Forall (fun item => JsVal.truthy (JsVal.get item "text") = false) before
          /\ JsVal.truthy (JsVal.get part "text") = true
          /\ JSON_parse w (JsVal.get part "text") = Returned (JArr script)).
Proof.
  intros H. destruct (callGemini_spec _ _ _ _ _ _ _ H) as [Et Es].
  split; [exact Et | split; [exact Es |]]. clear Et Es.
  unfold callGemini in H.
  apply bind_inv in H.
  destruct H as [(msg & H & _) | (u & t1 & s1 & t2 & H & H2 & _)].
  { apply emit_inv in H. destruct H as (_ & _ & E). discriminate E. }
  apply emit_inv in H. destruct H as (_ & -> & _). clear t t1.
  apply bind_inv in H2.
  destruct H2 as [(msg & H & ->) | (data & t3 & s3 & t4 & H & H2 & _)].
  { apply lift_inv in H. destruct H as (_ & _ & E). symmetry in E.
    split; [intros msg0 E0; congruence |].
    split; [intros data E0; congruence |].
    split; [intros data E0; congruence | intros script E0; discriminate E0]. }
  apply lift_inv in H. destruct H as (_ & -> & E). symmetry in E. clear t2 t3.
  split; [intros msg0 E0; congruence |].
  assert (Hsame : forall data0, axios_post_gemini w key parts = Returned data0 ->
                                data0 = data) by (intros data0 E0; congruence).
  cbv zeta in H2.
  destruct (JsVal.truthy (JsVal.opt_get data "candidates")) eqn:Hc;
    cbn [negb orb] in H2.
  2:{ minv. split; [reflexivity |].
      split; [| intros script E0; discriminate E0].
      intros data0 E0 Hc0. rewrite (Hsame _ E0) in Hc0. congruence. }
  destruct (JsVal.length_truthy (JsVal.opt_get data "candidates")) eqn:Hl;
    cbn [negb] in H2.
  2:{ minv. split; [reflexivity |].
      split; [| intros script E0; discriminate E0].
      intros data0 E0 _ Hl0. rewrite (Hsame _ E0) in Hl0. congruence. }
  split.
  { intros data0 E0 [Hc0 | Hl0]; rewrite (Hsame _ E0) in *; congruence. }
  apply bind_inv in H2.
  destruct H2 as [(msg & H & ->) | (textPart & t5 & s5 & t6 & H & H2 & _)].
  { split; [| intros script E0; discriminate E0].
    intros data0 E0 _ _ Hn. rewrite (Hsame _ E0) in Hn.
    destruct (JsVal.opt_get (JsVal.opt_get (JsVal.first _) "content") "parts");
      try discriminate Hn; minv. }
  split.
  { intros data0 E0 _ _ Hn. rewrite (Hsame _ E0) in Hn.
    destruct (JsVal.opt_get (JsVal.opt_get (JsVal.first _) "content") "parts");
      try discriminate Hn; minv; reflexivity. }
  intros script ->.
  assert (Hfound :
            textPart = JUndefined
            \/ exists before after,
                 JsVal.opt_get
                   (JsVal.opt_get (JsVal.first (JsVal.opt_get data "candidates"))
                      "content") "parts" = JArr (before ++ textPart :: after)
                 /\ Forall (fun item => JsVal.truthy (JsVal.get item "text") = false)
                      before
                 /\ JsVal.truthy (JsVal.get textPart "text") = true).
  { destruct (JsVal.opt_get (JsVal.opt_get (JsVal.first _) "content") "parts")
      as [| | | | | cps |] eqn:Hcp;
      try (apply ret_inv in H; destruct H as (_ & _ & E0); injection E0 as <-;
           left; reflexivity);
      try (apply throw_inv in H; destruct H as (_ & _ & E0); discriminate E0).
    destruct (find_text_found _ _ _ _ _ H)
      as [[-> _] | (before & after & -> & Hb & Hx)]; [left; reflexivity |].
    right. exists before, after. auto. }
  clear H.
  destruct Hfound as [-> | (before & after & Hcp & Hb & Hx)].
  { cbn in H2. apply throw_inv in H2. destruct H2 as (_ & _ & E0). discriminate E0. }
  destruct (negb (JsVal.truthy textPart)
            || negb (JsVal.truthy (JsVal.get textPart "text")));
    [apply throw_inv in H2; destruct H2 as (_ & _ & E0); discriminate E0 |].
  destruct (JSON_parse w (JsVal.get textPart "text")) as [[| | | | | items |] |] eqn:Hp;
    try (apply throw_inv in H2; destruct H2 as (_ & _ & E0); discriminate E0).
  apply ret_inv in H2. destruct H2 as (_ & _ & E0). injection E0 as <-.
  exists data, before, textPart, after. repeat split; auto.
Qed.

Lemma callGemini_once_witness :
  fst (fst (callGemini Sample.gemini_down (Some "key") (Sample.prompt JsNumber.five)
              initial))
  = [EvPostGemini (Some "key") (Sample.prompt JsNumber.five)]
  /\ snd (callGemini Sample.gemini_down (Some "key") (Sample.prompt JsNumber.five)
            initial)
     = Thrown "connect ETIMEDOUT".
Proof.
  destruct (callGemini Sample.gemini_down (Some "key") (Sample.prompt JsNumber.five)
              initial) as [[t s'] r] eqn:Hrun.
  destruct (callGemini_once _ _ _ _ _ _ _ Hrun) as (Ht & _ & Hth & _).
  split; [exact Ht |]. apply Hth. reflexivity.
Defined.

(** A part that is null, with the message of the engine for it. *)
Example find_text_null_part :
  snd (find_text [JObj [("inlineData", JStr "AAAA")]; JNull] initial)
  = Thrown "Cannot read properties of null (reading 'text')".
Proof. reflexivity. Qed.

(** ** The clips that were rendered *)

Lemma saved_clips_app t1 t2 : saved_clips (t1 ++ t2) = saved_clips t1 ++ saved_clips t2.
Proof. apply flat_map_app. Qed.

Lemma posted_texts_app t1 t2 :
  posted_texts (t1 ++ t2) = posted_texts t1 ++ posted_texts t2.
Proof. apply flat_map_app. Qed.

Lemma rendered_more w t1 t2 clip :
  rendered w t1 clip \/ rendered w t2 clip -> rendered w (t1 ++ t2) clip.
Proof.
  intros [(v & a & x & Hin & Hok) | (v & a & x & Hin & Hok)];
    exists v, a, x; (split; [apply in_or_app; auto | exact Hok]).
Qed.

(** An iteration that ends has posted the text of its line, and ffmpeg has
    written its clip. *)
Lemma render_line_done w req mv wv index line s t s' p :
  render_line w req mv wv index line s = (t, s', Returned p) ->
  saved_clips t = [p] /\ posted_texts t = [JsVal.get line "line"]
  /\ rendered w t p.
Proof.
  intros H. stage_unfold H. minv. cbn [app saved_clips posted_texts flat_map].
  repeat split. do 3 eexists. split; [in_list |].
  match goal with x : unit |- ffmpeg_loop _ _ _ _ _ = Returned _ => idtac | _ => idtac end.
  repeat match goal with x : unit |- _ => destruct x end.
  symmetry. assumption.
Qed.

Lemma render_loop_done w req mv wv script :
  forall index clips s t s' out,
    render_loop w req mv wv index script clips s = (t, s', Returned out) ->
    saved_clips t = rendered_clips t /\ posted_texts t = synth_texts t
    /\ Forall (rendered w t) (rendered_clips t).
Proof.
  induction script as [|line rest IH]; intros index clips s t s' out H;
    cbn [render_loop] in H.
  - minv. cbn. auto.
  - destruct (skipped line); [eauto |]. minv.
    match goal with H : render_line _ _ _ _ _ _ _ = _ |- _ =>
      pose proof (render_line_result _ _ _ _ _ _ _ _ _ _ H) as (_ & _ & Hr & Ht);
      apply render_line_done in H; destruct H as (Hs & Hp & Hd) end.
    match goal with H : render_loop _ _ _ _ _ _ _ _ = _ |- _ =>
      apply IH in H; destruct H as (Hs' & Hp' & Hd') end.
    rewrite saved_clips_app, posted_texts_app, rendered_clips_app, synth_texts_app,
      Hs, Hp, Hr, Ht, Hs', Hp'.
    repeat split. cbn [app]. constructor.
    + apply rendered_more. left. exact Hd.
    + eapply Forall_impl; [| exact Hd']. intros c Hc. apply rendered_more. auto.
Qed.

(** A loop over a script without a kept entry does nothing. *)
Lemma render_loop_idle w req mv wv script :
  forall index clips s t s' r,
    kept_from (S index) script = [] ->
    render_loop w req mv wv index script clips s = (t, s', r) -> t = [].
Proof.
  induction script as [|line rest IH]; intros index clips s t s' r Hk H;
    cbn [render_loop] in H.
  - minv. reflexivity.
  - rewrite kept_from_cons in Hk. destruct (skipped line); [eauto | discriminate].
Qed.

Lemma script_stage_renders_nothing w req s t s' r :
  script_stage w req s = (t, s', r) -> saved_clips t = [] /\ posted_texts t = [].
Proof.
  assert (Hc : forall tc, Forall compose_event tc ->
                          saved_clips tc = [] /\ posted_texts tc = []).
  { induction 1 as [|e tc He _ [IH1 IH2]]; [auto |].
    destruct e; cbn in He |- *; try contradiction; auto. }
  intros H. apply script_stage_shape in H.
  destruct H as (_ & tc & Htc & [[-> _] | [rest ->]]);
    destruct (Hc _ Htc) as [H1 H2]; cbn;
    fold (saved_clips tc); fold (posted_texts tc);
    rewrite ?saved_clips_app, ?posted_texts_app, ?H1, ?H2; auto.
Qed.

Lemma sources_stage_renders_nothing w req s t s' r :
  sources_stage w req s = (t, s', r) -> saved_clips t = [] /\ posted_texts t = [].
Proof. intros H. stage_unfold H. minv; auto. Qed.

Lemma finish_stage_renders_nothing w req clips s t s' r :
  finish_stage w req clips s = (t, s', r) -> saved_clips t = [] /\ posted_texts t = [].
Proof. intros H. stage_unfold H. minv; auto. Qed.

Lemma cleanup_renders_nothing ps b :
  saved_clips (cleanupFiles_issue ps ++ [EvRespond 500 b]) = []
  /\ posted_texts (cleanupFiles_issue ps ++ [EvRespond 500 b]) = [].
Proof.
  unfold cleanupFiles_issue. cbn.
  fold (saved_clips (map EvUnlink ps ++ [EvRespond 500 b])).
  fold (posted_texts (map EvUnlink ps ++ [EvRespond 500 b])).
  induction ps; cbn; auto.
Qed.

(** What the helpers did in a [try] block that reaches concatenation is
    what they were called for. *)
Lemma try_block_done w req s t s' r clips out :
  try_block w req s = (t, s', r) ->
  In (EvCall (Call_concatenateClips clips out)) t ->
  saved_clips t = rendered_clips t /\ posted_texts t = synth_texts t
  /\ Forall (rendered w t) (rendered_clips t).
Proof.
  unfold try_block. intros H Hin.
  destruct (negb (field_truthy (apiKey req))).
  { minv. destruct Hin as [E | []]. discriminate E. }
  destruct (negb (validateChirpVoice (manVoice req))
            || negb (validateChirpVoice (womanVoice req))).
  { minv. destruct Hin as [E | []]. discriminate E. }
  unfold pipeline in H. minv.
  - exfalso. stage_orders. eapply off_stage_no_concat in Hin; eauto.
  - exfalso. stage_orders. apply in_app_or in Hin. destruct Hin as [Hin | Hin];
      eapply off_stage_no_concat in Hin; eauto.
  - exfalso. stage_orders. apply in_app_or in Hin. destruct Hin as [Hin | Hin];
      [| apply in_app_or in Hin; destruct Hin as [Hin | Hin]];
      eapply off_stage_no_concat in Hin; eauto.
  - repeat match goal with
           | H : script_stage _ _ _ = _ |- _ =>
               pose proof (script_stage_renders_nothing _ _ _ _ _ _ H) as [? ?];
               apply script_stage_order in H;
               apply (off_stage_renders_nothing 0 1) in H; [destruct H as [? ?] | lia]
           | H : sources_stage _ _ _ = _ |- _ =>
               pose proof (sources_stage_renders_nothing _ _ _ _ _ _ H) as [? ?];
               apply sources_stage_order in H;
               apply (off_stage_renders_nothing 2 2) in H; [destruct H as [? ?] | lia]
           | H : finish_stage _ _ _ _ = _ |- _ =>
               pose proof (finish_stage_renders_nothing _ _ _ _ _ _ _ H) as [? ?];
               apply finish_stage_order in H;
               apply (off_stage_renders_nothing 4 4) in H; [destruct H as [? ?] | lia]
           | H : render_loop _ _ _ _ _ _ _ _ = _ |- _ =>
               apply render_loop_done in H; destruct H as (? & ? & Hd)
           end.
    rewrite !saved_clips_app, !posted_texts_app, !rendered_clips_app, !synth_texts_app.
    repeat match goal with
           | H : saved_clips _ = _ |- _ => rewrite H; clear H
           | H : posted_texts _ = _ |- _ => rewrite H; clear H
           end.
    repeat match goal with
           | H : rendered_clips _ = [] |- _ => rewrite H; clear H
           | H : synth_texts _ = [] |- _ => rewrite H; clear H
           end.
    cbn [app]. rewrite !app_nil_r. repeat split.
    eapply Forall_impl; [| exact Hd]. intros c Hc.
    apply rendered_more. right. apply rendered_more. right.
    apply rendered_more. left. exact Hc.
Qed.

Lemma try_block_idle w req s t s' r t0 s0 script :
  script_stage w req s = (t0, s0, Returned script) ->
  kept_lines script = [] ->
  try_block w req s = (t, s', r) ->
  saved_clips t = [] /\ posted_texts t = [].
Proof.
  unfold try_block. intros Hscript Hk H.
  destruct (negb (field_truthy (apiKey req))); [minv; auto |].
  destruct (negb (validateChirpVoice (manVoice req))
            || negb (validateChirpVoice (womanVoice req))); [minv; auto |].
  unfold pipeline in H. unfold kept_lines in Hk. minv;
    try (match goal with H : script_stage _ _ _ = _ |- _ =>
           rewrite Hscript in H; injection H as <- <- <- end);
    try congruence;
    repeat match goal with
           | H : render_loop _ _ _ _ _ _ _ _ = _ |- _ =>
               apply (render_loop_idle _ _ _ _ _ _ _ _ _ _ _ Hk) in H; subst
           | H : sources_stage _ _ _ = _ |- _ =>
               apply sources_stage_renders_nothing in H; destruct H as [? ?]
           | H : finish_stage _ _ _ _ = _ |- _ =>
               apply finish_stage_renders_nothing in H; destruct H as [? ?]
           end;
    destruct (script_stage_renders_nothing _ _ _ _ _ _ Hscript) as [? ?];
    rewrite ?saved_clips_app, ?posted_texts_app;
    repeat match goal with
           | H : saved_clips _ = _ |- _ => rewrite H; clear H
           | H : posted_texts _ = _ |- _ => rewrite H; clear H
           end; auto.
Qed.

(** C1: when the generator returns a script, the clips handed to
    concatenation are the clips rendered in the run: ffmpeg was started for
    each of them, in that order and for no other clip, and ended well; there
    is one for each entry that is not dropped (an entry is dropped when it,
    its speaker or its text is missing or empty), in the order of those
    entries, and the texts posted to the speech backend are the texts of
    those entries.  When every entry is dropped nothing is rendered, the run
    ends with an error answer and the final file is never written. *)
Theorem clips_follow_script (w : world) (req : request) t0 s0 script :
  script_stage w req initial = (t0, s0, Returned script) ->
  let r := generate_podcast w req in
  (forall clips out,
      In (EvCall (Call_concatenateClips clips out)) (sync r) ->
      Forall is_clip clips
      /\ List.length clips = List.length (kept_lines script)
      /\ map line_number clips = map fst (kept_lines script)
      /\ rendered_clips (sync r) = clips
      /\ synth_texts (sync r)
         = map (fun e => JsVal.get (snd e) "line") (kept_lines script)
      /\ saved_clips (sync r) = clips
      /\ List.length (saved_clips (sync r)) = List.length (kept_lines script)
      /\ Forall (rendered w (sync r)) clips
      /\ posted_texts (sync r)
         = map (fun e => JsVal.get (snd e) "line") (kept_lines script))
  /\ (kept_lines script = [] ->
      (exists st msg, In (EvRespond st (JsonError msg)) (sync r))
      /\ (forall b, ~ In (EvRespond 200 b) (sync r))
      /\ (forall u, ~ In (EvFfmpegSave (OutputPath u)) (sync r))
      /\ saved_clips (sync r) = []).
Proof.
  intros Hscript r. subst r. unfold generate_podcast.
  destruct (try_block w req initial) as [[t s] r] eqn:Hrun.
  pose proof Hrun as Hrun0.
  unfold try_block in Hrun.
  destruct (negb (field_truthy (apiKey req))).
  { minv. cbn. split.
    - intros clips out [E | []]. discriminate.
    - intros _. repeat split; eauto; intros ? [E | []]; discriminate. }
  destruct (negb (validateChirpVoice (manVoice req))
            || negb (validateChirpVoice (womanVoice req))).
  { minv. cbn. split.
    - intros clips out [E | []]. discriminate.
    - intros _. repeat split; eauto; intros ? [E | []]; discriminate. }
  destruct (pipeline_clips _ _ _ _ _ _ _ _ _ Hscript Hrun) as [Hclips Hempty].
  assert (Htail : forall ps b e,
             In e (cleanupFiles_issue ps ++ [EvRespond 500 b]) ->
             (exists qs, e = EvCall (Call_cleanupFiles qs))
             \/ (exists p, e = EvUnlink p) \/ e = EvRespond 500 b).
  { intros ps b e Hin. apply in_app_or in Hin.
    destruct Hin as [[<- | Hin] | [<- | []]]; eauto.
    apply in_map_iff in Hin. destruct Hin as (p & <- & _). eauto. }
  assert (Hrt : forall ps b,
             rendered_clips (cleanupFiles_issue ps ++ [EvRespond 500 b]) = []
             /\ synth_texts (cleanupFiles_issue ps ++ [EvRespond 500 b]) = []).
  { intros ps b. unfold cleanupFiles_issue. cbn. fold (rendered_clips
      (map EvUnlink ps ++ [EvRespond 500 b])). fold (synth_texts
      (map EvUnlink ps ++ [EvRespond 500 b])).
    induction ps; cbn; auto. }
  split.
  - intros clips out Hin.
    assert (Hin' : In (EvCall (Call_concatenateClips clips out)) t).
    { destruct r as [[|]|msg]; cbn [sync] in Hin; auto.
      apply in_app_or in Hin. destruct Hin as [Hin | Hin]; [exact Hin |].
      apply Htail in Hin.
      destruct Hin as [[qs E] | [[p E] | E]]; discriminate. }
    destruct (Hclips _ _ Hin') as (Hc & Hn & Hr & Ht).
    destruct (try_block_done _ _ _ _ _ _ _ _ Hrun0 Hin') as (Hs & Hp & Hd).
    rewrite Hr in Hs, Hd. rewrite Ht in Hp.
    assert (Hlen : List.length clips = List.length (kept_lines script)).
    { rewrite <- (length_map line_number clips), Hn. apply length_map. }
    assert (Hall : Forall is_clip clips
                   /\ List.length clips = List.length (kept_lines script)
                   /\ map line_number clips = map fst (kept_lines script)
                   /\ rendered_clips t = clips
                   /\ synth_texts t
                      = map (fun e => JsVal.get (snd e) "line") (kept_lines script)
                   /\ saved_clips t = clips
                   /\ List.length (saved_clips t) = List.length (kept_lines script)
                   /\ Forall (rendered w t) clips
                   /\ posted_texts t
                      = map (fun e => JsVal.get (snd e) "line") (kept_lines script)).
    { rewrite Hs. repeat split; auto. }
    destruct r as [[|]|msg]; cbn [sync]; auto.
    rewrite rendered_clips_app, synth_texts_app, saved_clips_app, posted_texts_app.
    destruct (Hrt (cleanupPaths s)
                (JsonError match msg with
                           | EmptyString => "Failed to generate podcast."
                           | String _ _ => msg
                           end)) as [-> ->].
    destruct (cleanup_renders_nothing (cleanupPaths s)
                (JsonError match msg with
                           | EmptyString => "Failed to generate podcast."
                           | String _ _ => msg
                           end)) as [-> ->].
    rewrite !app_nil_r.
    destruct Hall as (H1 & H2 & H3 & H4 & H5 & H6 & H7 & H8 & H9).
    repeat match goal with |- _ /\ _ => split end; auto.
    eapply Forall_impl; [| exact H8]. intros c Hcd. apply rendered_more. auto.
  - intros Hk. destruct (Hempty Hk) as [[msg ->] He]. cbn [sync].
    destruct (try_block_idle _ _ _ _ _ _ _ _ _ Hscript Hk Hrun0) as [Hidle _].
    repeat match goal with |- _ /\ _ => split end.
    + do 2 eexists. apply in_or_app. right. apply in_or_app. right. left. reflexivity.
    + intros b Hin. apply in_app_or in Hin. destruct Hin as [Hin | Hin].
      * rewrite Forall_forall in He. specialize (He _ Hin). exact He.
      * apply Htail in Hin. destruct Hin as [[qs E] | [[p E] | E]]; discriminate.
    + intros u Hin. apply in_app_or in Hin. destruct Hin as [Hin | Hin].
      * exact (early_not_output _ _ He Hin).
      * apply Htail in Hin. destruct Hin as [[qs E] | [[p E] | E]]; discriminate.
    + rewrite saved_clips_app, Hidle.
      exact (proj1 (cleanup_renders_nothing _ _)).
Qed.

Lemma clips_follow_script_witness :
  map line_number [ClipPath "d" 1; ClipPath "f" 2] = map fst (kept_lines Sample.script)
  /\ rendered_clips (sync (generate_podcast Sample.good_world Sample.good_request))
     = [ClipPath "d" 1; ClipPath "f" 2]
  /\ saved_clips (sync (generate_podcast Sample.good_world Sample.good_request))
     = [ClipPath "d" 1; ClipPath "f" 2]
  /\ posted_texts (sync (generate_podcast Sample.good_world Sample.good_request))
     = [JStr "Hi"; JStr "Hello"].
Proof.
  destruct (script_stage Sample.good_world Sample.good_request initial)
    as [[t0 s0] r0] eqn:E.
  assert (Hr : r0 = Returned Sample.script).
  { vm_compute in E. injection E as _ _ <-. reflexivity. }
  subst r0.
  destruct (proj1 (clips_follow_script Sample.good_world Sample.good_request
                     t0 s0 Sample.script E)
              [ClipPath "d" 1; ClipPath "f" 2] (OutputPath "g"))
    as (_ & _ & Hn & Hc & _ & Hs & _ & _ & Hp).
  - vm_compute. in_list.
  - split; [exact Hn | split; [exact Hc | split; [exact Hs | exact Hp]]].
Defined.

(** ** What is created, registered and unlinked, stage by stage *)

Lemma created_app t1 t2 : created (t1 ++ t2) = created t1 ++ created t2.
Proof. apply flat_map_app. Qed.

Lemma script_stage_creates_nothing w req s t s' r :
  script_stage w req s = (t, s', r) -> created t = [].
Proof.
  assert (Hc : forall tc, Forall compose_event tc -> created tc = []).
  { induction 1 as [|e tc He _ IH]; [reflexivity |].
    destruct e; cbn in He |- *; try contradiction; exact IH. }
  intros H. apply script_stage_shape in H.
  destruct H as (_ & tc & Htc & [[-> _] | [rest ->]]); cbn; fold (created tc);
    rewrite ?created_app, (Hc _ Htc); reflexivity.
Qed.

(** Lines 330-346 when both videos are resolved: what is registered is
    what was downloaded. *)
Lemma sources_stage_registered w req s t s' manVideoPath womanVideoPath :
  sources_stage w req s = (t, s', Returned (manVideoPath, womanVideoPath)) ->
  pushed t = created t
  /\ forall p, In p (created t) <-> exists sp u, p = SourcePath sp u
                                               /\ In (EvCreateWriteStream p) t.
Proof.
  intros H. stage_unfold H.
  minv; upload_paths;
    repeat match goal with
           | H : opt_path_eqb (Some (SourcePath _ _)) (file_path _) = true |- _ =>
               rewrite source_is_no_upload in H; discriminate H
           end;
    cbn [app pushed created flat_map creates];
    (split; [reflexivity |]); intros q;
    (split;
    [ intros Hq; cbn in Hq;
      repeat match goal with
             | H : _ \/ _ |- _ => destruct H as [H | H]
             | H : False |- _ => contradiction
             end; subst q; do 2 eexists; (split; [reflexivity | in_list])
    | intros (sp & u & -> & Hq); cbn in Hq |- *;
      repeat match goal with
             | H : _ \/ _ |- _ => destruct H as [H | H]
             | H : False |- _ => contradiction
             end; try discriminate Hq; injection Hq as <- <-; auto ]).
Qed.

Lemma render_line_created w req mv wv index line s t s' r :
  render_line w req mv wv index line s = (t, s', r) -> incl (created t) (pushed t).
Proof.
  intros H. stage_unfold H.
  minv; cbn [app pushed created flat_map creates]; intros q Hq; cbn in Hq |- *;
    tauto.
Qed.

Lemma render_loop_created w req mv wv script :
  forall index clips s t s' r,
    render_loop w req mv wv index script clips s = (t, s', r) ->
    incl (created t) (pushed t).
Proof.
  induction script as [|line rest IH]; intros index clips s t s' r H;
    cbn [render_loop] in H.
  - minv. intros q [].
  - destruct (skipped line); [eauto |]. minv.
    + eauto using render_line_created.
    + rewrite created_app, pushed_app. apply incl_app_app;
        eauto using render_line_created.
Qed.

(** Lines 375-391 when they end: the manifest and the final file are
    created, the manifest is unlinked, the uploads are registered. *)
Lemma finish_stage_files w req clips s t s' b :
  finish_stage w req clips s = (t, s', Returned b) ->
  exists m o,
    created t = [ManifestPath m; OutputPath o]
    /\ unlinked t = [ManifestPath m]
    /\ pushed t = tempUploads req.
Proof.
  intros H. stage_unfold H. minv.
  cbn [app pushed created unlinked flat_map creates]. rewrite app_nil_r. eauto.
Qed.

(** A [try] block that ends well went through its four stages. *)
Lemma try_block_stages w req s t s' :
  try_block w req s = (t, s', Returned true) ->
  exists t0 s0 script t1 s1 videos t3 s3 clips t4,
    script_stage w req s = (t0, s0, Returned script)
    /\ sources_stage w req s0 = (t1, s1, Returned videos)
    /\ render_loop w req (fst videos) (snd videos) 0 script [] s1
       = (t3, s3, Returned clips)
    /\ finish_stage w req clips s3 = (t4, s', Returned true)
    /\ t = t0 ++ t1 ++ t3 ++ t4.
Proof.
  unfold try_block. intros H.
  destruct (negb (field_truthy (apiKey req))); [minv |].
  destruct (negb (validateChirpVoice (manVoice req))
            || negb (validateChirpVoice (womanVoice req))); [minv |].
  unfold pipeline in H. minv. do 10 eexists. repeat split; eassumption.
Qed.

(** The files of the stages before concatenation: nothing is unlinked;
    what the rendering loop creates, it has registered; what is registered
    is registered once. *)
Lemma early_stages_files w req s t0 s0 script t1 s1 videos t3 s3 r3 :
  script_stage w req s = (t0, s0, Returned script) ->
  sources_stage w req s0 = (t1, s1, Returned videos) ->
  render_loop w req (fst videos) (snd videos) 0 script [] s1 = (t3, s3, r3) ->
  created t0 = [] /\ pushed t0 = []
  /\ pushed t1 = created t1
  /\ NoDup (pushed t1) /\ Forall (fun p => is_source p = true) (pushed t1)
  /\ incl (created t3) (pushed t3)
  /\ NoDup (pushed t3) /\ Forall is_line_artifact (pushed t3)
  /\ unlinked (t0 ++ t1 ++ t3) = [].
Proof.
  intros H0 H1 H3.
  pose proof (early_stages_quiet _ _ _ _ _ _ _ _ _ _ _ _ _ _ _ H0 H1 H3 eq_refl) as He.
  destruct videos as [m wv].
  destruct (sources_stage_pushed _ _ _ _ _ _ H1) as [Hd1 Hk1].
  destruct (render_loop_pushed _ _ _ _ _ _ _ _ _ _ _ H3) as [Hd3 Hk3].
  repeat match goal with |- _ /\ _ => split end;
    eauto using script_stage_creates_nothing, script_stage_pushed,
      render_loop_created, early_unlinked.
  - exact (proj1 (sources_stage_registered _ _ _ _ _ _ _ H1)).
  - eapply Forall_impl; [| exact Hk3]. intros p [Hp _]. exact Hp.
Qed.

Lemma count_occ_once (l : list path) p :
  NoDup l -> In p l -> count_occ path_eq_dec l p = 1.
Proof. intros Hd Hin. exact (proj1 (NoDup_count_occ' path_eq_dec l) Hd p Hin). Qed.

Lemma count_occ_none (l : list path) p :
  ~ In p l -> count_occ path_eq_dec l p = 0.
Proof. apply count_occ_not_In. Qed.

Lemma unlinked_issue ps : unlinked (map EvUnlink ps) = ps.
Proof.
  induction ps as [|p ps IH]; [reflexivity |]. cbn.
  fold (unlinked (map EvUnlink ps)). now rewrite IH.
Qed.

Lemma unlinked_settle ps : unlinked (map EvUnlinkSettled ps) = [].
Proof. induction ps as [|p ps IH]; [reflexivity | exact IH]. Qed.

(** C3, as the handler has it: in a run that answers 200 the final file
    has been written, it is not among the registered paths, and no unlink
    is ever issued for it.  Thirty seconds later the timer fires once and
    calls unlink for the registered paths, in their order; the unlinks
    settle in some order.  The registered paths are the paths pushed during
    the run, the uploads among them, and every file the run has created,
    the final file apart, is unlinked exactly once: the downloaded videos,
    the audio files and the clips by the deferred cleanup, the concat
    manifest by concatenateClips. *)
Theorem success_cleanup (w : world) (req : request) b :
  In (EvRespond 200 b) (sync (generate_podcast w req)) ->
  let r := generate_podcast w req in
  (exists settled,
      Permutation settled (registered r)
      /\ later r = EvTimeout 30000%N :: EvCall (Call_cleanupFiles (registered r))
                     :: map EvUnlink (registered r) ++ map EvUnlinkSettled settled)
  /\ registered r = pushed (sync r)
  /\ (exists u, In (EvFfmpegSave (OutputPath u)) (sync r))
  /\ (forall u, ~ In (OutputPath u) (registered r))
  /\ (forall u, ~ In (EvUnlink (OutputPath u)) (sync r ++ later r))
  /\ (forall p,
        In p (created (sync r)) -> (forall u, p <> OutputPath u) ->
        count_occ path_eq_dec (unlinked (sync r ++ later r)) p = 1)
  /\ (forall p, In p (tempUploads req) -> In (EvUnlink p) (later r)).
Proof.
  intros Hin r.
  destruct (answered_200 _ _ _ Hin) as (t & s & Hrun & Hout).
  pose proof (try_block_events _ _ _ _ _ _ Hrun) as Hok.
  pose proof (try_block_law _ _ _ _ _ _ Hrun) as Hlaw.
  unfold keeps_law in Hlaw. cbn in Hlaw.
  assert (Hreg : forall u, ~ In (OutputPath u) (cleanupPaths s)).
  { intros u Hu. rewrite Hlaw in Hu.
    pose proof (pushed_intermediate _ _ _ Hok) as Hi.
    rewrite Forall_forall in Hi. exact (Hi _ Hu). }
  destruct (try_block_stages _ _ _ _ _ Hrun)
    as (t0 & s0 & script & t1 & s1 & videos & t3 & s3 & clips & t4
        & H0 & H1 & H3 & H4 & Et).
  destruct (early_stages_files _ _ _ _ _ _ _ _ _ _ _ _ H0 H1 H3)
    as (Hc0 & Hp0 & Hp1 & Hd1 & Hk1 & Hi3 & Hd3 & Hk3 & Hu).
  destruct (finish_stage_files _ _ _ _ _ _ _ H4) as (m & o & Hc4 & Hu4 & Hp4).
  assert (Epushed : pushed t = pushed t1 ++ pushed t3 ++ tempUploads req).
  { rewrite Et, !pushed_app, Hp0, Hp4. reflexivity. }
  assert (Eunl : unlinked t = [ManifestPath m]).
  { rewrite Et. rewrite !app_assoc, unlinked_app, <- !app_assoc, Hu, Hu4. reflexivity. }
  assert (Ecre : created t = created t1 ++ created t3 ++ [ManifestPath m; OutputPath o]).
  { rewrite Et, !created_app, Hc0, Hc4. reflexivity. }
  subst r. unfold generate_podcast. rewrite Hrun. cbn [sync later registered].
  repeat match goal with |- _ /\ _ => split end; auto.
  - exists (cleanupPaths s). split; [apply Permutation_refl | reflexivity].
  - intros u Hu'. apply in_app_or in Hu'. destruct Hu' as [Hu' | Hu'].
    + rewrite Forall_forall in Hok. specialize (Hok _ Hu'). cbn in Hok.
      destruct Hok as [u' E]. discriminate.
    + destruct Hu' as [E | [E | Hu']]; try discriminate.
      apply in_app_or in Hu'. destruct Hu' as [Hu' | Hu'];
        apply in_map_iff in Hu'; destruct Hu' as (p & E & Hp); [| discriminate].
      injection E as ->. exact (Hreg u Hp).
  - intros p Hp Hno.
    rewrite unlinked_app. unfold cleanupFiles_issue, cleanupFiles_settle. cbn.
    fold (unlinked (map EvUnlink (cleanupPaths s)
                      ++ map EvUnlinkSettled (cleanupPaths s))).
    rewrite unlinked_app, unlinked_issue, unlinked_settle, app_nil_r.
    rewrite Eunl, Hlaw, Epushed, !count_occ_app.
    rewrite Forall_forall in Hk1, Hk3.
    assert (Hup : forall q, In q (tempUploads req) -> is_upload q = true)
      by (intros q; apply tempUploads_upload).
    rewrite Ecre in Hp. apply in_app_or in Hp. destruct Hp as [Hp | Hp];
      [| apply in_app_or in Hp; destruct Hp as [Hp | [<- | [<- | []]]]].
    + rewrite <- Hp1 in Hp. pose proof (Hk1 _ Hp) as Hs.
      rewrite (count_occ_once _ _ Hd1 Hp).
      rewrite (count_occ_none (pushed t3)), (count_occ_none (tempUploads req)).
      * rewrite (count_occ_none [ManifestPath m]); [reflexivity |].
        intros [E | []]. subst p. discriminate Hs.
      * intros Hq. apply Hup in Hq. destruct p; discriminate.
      * intros Hq. apply Hk3 in Hq. destruct p; try discriminate Hs. exact Hq.
    + apply Hi3 in Hp. pose proof (Hk3 _ Hp) as Hl.
      rewrite (count_occ_once _ _ Hd3 Hp).
      rewrite (count_occ_none (pushed t1)), (count_occ_none (tempUploads req)).
      * rewrite (count_occ_none [ManifestPath m]); [reflexivity |].
        intros [E | []]. subst p. exact Hl.
      * intros Hq. apply Hup in Hq. destruct p; try contradiction; discriminate.
      * intros Hq. apply Hk1 in Hq. destruct p; try contradiction; discriminate.
    + rewrite (count_occ_none (pushed t1)), (count_occ_none (pushed t3)),
        (count_occ_none (tempUploads req)).
      * rewrite (count_occ_once [ManifestPath m]); [reflexivity | |].
        -- repeat constructor. intros [].
        -- left. reflexivity.
      * intros Hq. apply Hup in Hq. discriminate.
      * intros Hq. apply Hk3 in Hq. exact Hq.
      * intros Hq. apply Hk1 in Hq. discriminate.
    + exfalso. exact (Hno o eq_refl).
  - intros p Hp. right. right. apply in_or_app. left. apply in_map.
    rewrite Hlaw, Epushed. apply in_or_app. right. apply in_or_app. right. exact Hp.
Qed.

Lemma success_cleanup_witness :
  registered (generate_podcast Sample.good_world Sample.upload_request)
  = pushed (sync (generate_podcast Sample.good_world Sample.upload_request))
  /\ (forall u,
        ~ In (OutputPath u)
            (registered (generate_podcast Sample.good_world Sample.upload_request)))
  /\ count_occ path_eq_dec
       (unlinked (sync (generate_podcast Sample.good_world Sample.upload_request)
                  ++ later (generate_podcast Sample.good_world Sample.upload_request)))
       (SourcePath man "a") = 1
  /\ In (EvUnlink (UploadPath "3f2a9c"))
       (later (generate_podcast Sample.good_world Sample.upload_request)).
Proof.
  destruct (success_cleanup Sample.good_world Sample.upload_request
              (JsonDownloadUrl "/downloads/podcast_g.mp4"))
    as (_ & Hr & _ & Ho & _ & Hc & Hu).
  - vm_compute. in_list.
  - split; [exact Hr |]. split; [exact Ho |]. split.
    + apply Hc; [vm_compute; in_list | discriminate].
    + apply Hu. vm_compute. in_list.
Defined.

Lemma render_line_no_stream w req mv wv index line s t s' r p :
  render_line w req mv wv index line s = (t, s', r) -> ~ In (EvCreateWriteStream p) t.
Proof.
  intros H Hin. stage_unfold H.
  minv; cbn in Hin; intuition discriminate.
Qed.

Lemma render_loop_no_stream w req mv wv script p :
  forall index clips s t s' r,
    render_loop w req mv wv index script clips s = (t, s', r) ->
    ~ In (EvCreateWriteStream p) t.
Proof.
  induction script as [|line rest IH]; intros index clips s t s' r H;
    cbn [render_loop] in H.
  - minv. intros [].
  - destruct (skipped line); [eauto |]. minv.
    + eauto using render_line_no_stream.
    + intros Hin. apply in_app_or in Hin. destruct Hin as [Hin | Hin].
      * eapply render_line_no_stream; eauto.
      * eapply IH; eauto.
Qed.

Lemma finish_stage_no_stream w req clips s t s' r p :
  finish_stage w req clips s = (t, s', r) -> ~ In (EvCreateWriteStream p) t.
Proof.
  intros H Hin. stage_unfold H.
  minv; cbn in Hin; intuition discriminate.
Qed.

Lemma script_stage_no_stream w req s t s' r p :
  script_stage w req s = (t, s', r) -> ~ In (EvCreateWriteStream p) t.
Proof.
  intros H Hin. apply script_stage_creates_nothing in H.
  assert (Hc : In p (created t)).
  { unfold created. apply in_flat_map. eexists. split; [exact Hin | left; reflexivity]. }
  rewrite H in Hc. exact Hc.
Qed.

(** A [try] block whose script and sources are there goes on from them,
    and downloads nothing more. *)
Lemma try_block_after_sources w req s t s' r t0 s0 script t1 s1 videos :
  field_truthy (apiKey req) = true ->
  validateChirpVoice (manVoice req) = true ->
  validateChirpVoice (womanVoice req) = true ->
  script_stage w req s = (t0, s0, Returned script) ->
  sources_stage w req s0 = (t1, s1, Returned videos) ->
  try_block w req s = (t, s', r) ->
  exists post, t = t0 ++ t1 ++ post /\ forall p, ~ In (EvCreateWriteStream p) post.
Proof.
  intros Hk Hm Hw H0 H1 H. unfold try_block in H. rewrite Hk, Hm, Hw in H.
  cbn [negb orb] in H. unfold pipeline in H.
  apply bind_inv in H.
  destruct H as [(msg & H & _) | (script' & t0' & s0' & ta & H & Ha & ->)];
    rewrite H0 in H; [discriminate H |]. injection H as <- <- <-.
  apply bind_inv in Ha.
  destruct Ha as [(msg & H & _) | (videos' & t1' & s1' & tb & H & Hb & ->)];
    rewrite H1 in H; [discriminate H |]. injection H as <- <- <-.
  apply bind_inv in Hb.
  destruct Hb as [(msg & H & _) | (clips & t3 & s3 & t4 & H & Hc & ->)].
  - eexists. split; [reflexivity |]. intros p. eapply render_loop_no_stream; eauto.
  - eexists. split; [reflexivity |]. intros p Hin. apply in_app_or in Hin.
    destruct Hin as [Hin | Hin].
    + eapply render_loop_no_stream; eauto.
    + eapply finish_stage_no_stream; eauto.
Qed.

(** C2, as the handler has it: the audio file and the clip of a line are
    pushed on cleanupPaths before they are created; a downloaded
    background video is pushed after it was created, once both sources are
    resolved and before any line is rendered, and it is pushed then: when
    both calls of resolveVideoSource have returned, the paths pushed so far
    are the files created so far, which are all the videos the run
    downloads; the concat manifest is never pushed: concatenateClips unlinks
    it itself in a run that goes on to answer 200. *)
Theorem registration_order (w : world) (req : request) :
  let r := generate_podcast w req in
  (forall pre e post p,
      sync r = pre ++ e :: post -> In p (creates e) -> is_line_artifact p ->
      In p (pushed pre))
  /\ (forall pre ps post sp u,
        sync r = pre ++ EvPush ps :: post -> In (SourcePath sp u) ps ->
        In (EvCreateWriteStream (SourcePath sp u)) pre
        /\ In (EvCall (Call_resolveVideoSource man)) pre
        /\ In (EvCall (Call_resolveVideoSource woman)) pre
        /\ ~ In Rendering (steps pre))
  /\ (forall t0 s0 script t1 s1 videos,
        field_truthy (apiKey req) = true ->
        validateChirpVoice (manVoice req) = true ->
        validateChirpVoice (womanVoice req) = true ->
        script_stage w req initial = (t0, s0, Returned script) ->
        sources_stage w req s0 = (t1, s1, Returned videos) ->
        exists post,
          sync r = (t0 ++ t1) ++ post
          /\ pushed (t0 ++ t1) = created (t0 ++ t1)
          /\ ~ In Rendering (steps (t0 ++ t1))
          /\ forall p,
               In (EvCreateWriteStream p) (sync r) ->
               In p (pushed (t0 ++ t1)) /\ In p (registered r))
  /\ (forall u,
        ~ In (ManifestPath u) (pushed (sync r))
        /\ ~ In (ManifestPath u) (registered r))
  /\ (forall b u,
        In (EvRespond 200 b) (sync r) ->
        In (EvWriteFile (ManifestPath u)) (sync r) ->
        In (EvUnlink (ManifestPath u)) (sync r)).
Proof.
  cbv zeta. repeat match goal with |- _ /\ _ => split end.
  - intros pre e post p E.
    exact (each_after_split _ _ _ (sync_line_registered w req) _ _ _ E p).
  - intros pre ps post sp u E.
    exact (each_after_split _ _ _ (sync_source_late w req) _ _ _ E ps sp u eq_refl).
  - intros t0 s0 script t1 s1 [m wv] Hk Hm Hw H0 H1.
    unfold generate_podcast.
    destruct (try_block w req initial) as [[t s] r] eqn:H.
    pose proof (try_block_law _ _ _ _ _ _ H) as Hlaw.
    unfold keeps_law in Hlaw. cbn in Hlaw.
    destruct (try_block_after_sources _ _ _ _ _ _ _ _ _ _ _ _ Hk Hm Hw H0 H1 H)
      as (post & -> & Hpost).
    destruct (sources_stage_registered _ _ _ _ _ _ _ H1) as [Hp1 Hc1].
    pose proof (script_stage_creates_nothing _ _ _ _ _ _ H0) as Hc0.
    pose proof (script_stage_pushed _ _ _ _ _ _ H0) as Hp0.
    assert (Hpc : pushed (t0 ++ t1) = created (t0 ++ t1)).
    { rewrite pushed_app, created_app, Hp0, Hc0, Hp1. reflexivity. }
    assert (Hnr : ~ In Rendering (steps (t0 ++ t1))).
    { apply (bounded_not_rendering 0 2); [| lia].
      apply (bounded_app 0 1 2);
        [eapply script_stage_order; eauto
        | eapply bounded_weaken; [eapply sources_stage_order; eauto | lia | lia]
        | lia]. }
    assert (Hall : forall tail p,
               (forall q, ~ In (EvCreateWriteStream q) tail) ->
               In (EvCreateWriteStream p) (((t0 ++ t1) ++ post) ++ tail) ->
               In p (pushed (t0 ++ t1)) /\ In p (cleanupPaths s)).
    { intros tail p Htail Hin.
      assert (Hin1 : In (EvCreateWriteStream p) t1).
      { apply in_app_or in Hin. destruct Hin as [Hin | Hin]; [| destruct (Htail _ Hin)].
        apply in_app_or in Hin. destruct Hin as [Hin | Hin]; [| destruct (Hpost _ Hin)].
        apply in_app_or in Hin. destruct Hin as [Hin | Hin]; [| exact Hin].
        destruct (script_stage_no_stream _ _ _ _ _ _ _ H0 Hin). }
      assert (Hc : In p (created t1)).
      { unfold created. apply in_flat_map. eexists.
        split; [exact Hin1 | left; reflexivity]. }
      assert (Hp : In p (pushed (t0 ++ t1))).
      { rewrite pushed_app, Hp1. apply in_or_app. right. exact Hc. }
      split; [exact Hp |]. rewrite Hlaw, app_assoc, pushed_app.
      apply in_or_app. left. exact Hp. }
    destruct r as [[|] | msg]; cbn [sync registered].
    + exists post. rewrite app_assoc.
      split; [reflexivity | split; [exact Hpc | split; [exact Hnr |]]].
      intros p Hin. apply (Hall [] p); [intros q [] | rewrite app_nil_r; exact Hin].
    + exists post. rewrite app_assoc.
      split; [reflexivity | split; [exact Hpc | split; [exact Hnr |]]].
      intros p Hin. apply (Hall [] p); [intros q [] | rewrite app_nil_r; exact Hin].
    + set (tail := cleanupFiles_issue (cleanupPaths s)
                     ++ [EvRespond 500
                           (JsonError match msg with
                                      | EmptyString => "Failed to generate podcast."
                                      | String _ _ => msg
                                      end)]).
      exists (post ++ tail).
      split; [rewrite <- !app_assoc; reflexivity |].
      split; [exact Hpc | split; [exact Hnr |]]. intros p Hin.
      apply (Hall tail p).
      * intros q Hq. apply in_app_or in Hq.
        destruct Hq as [[E | Hq] | [E | []]]; try discriminate.
        apply in_map_iff in Hq. destruct Hq as (x & E & _). discriminate.
      * rewrite <- !app_assoc in Hin |- *. exact Hin.
  - intros u. unfold generate_podcast.
    destruct (try_block w req initial) as [[t s] r] eqn:H.
    pose proof (pushed_intermediate _ _ _ (try_block_events _ _ _ _ _ _ H)) as Hi.
    pose proof (try_block_law _ _ _ _ _ _ H) as Hlaw.
    unfold keeps_law in Hlaw. cbn in Hlaw. rewrite Forall_forall in Hi.
    assert (Hs : ~ In (ManifestPath u) (pushed t)) by (intros Hu; exact (Hi _ Hu)).
    destruct r as [[|]|msg]; cbn [sync registered]; rewrite Hlaw;
      rewrite ?pushed_app, ?issue_pushed; cbn [pushed flat_map app];
      rewrite ?app_nil_r; auto.
  - intros b u H200 Hw.
    destruct (answered_200 _ _ _ H200) as (t & s & Hrun & _).
    destruct (returned_run _ _ _ _ _ Hrun) as [Hs _]. rewrite Hs in Hw |- *.
    eapply try_block_manifest; eauto.
Qed.

Lemma registration_order_witness :
  In (AudioPath "c" 1)
    (pushed (firstn 14 (sync (generate_podcast Sample.good_world Sample.good_request))))
  /\ In (SourcePath woman "b")
       (registered (generate_podcast Sample.good_world Sample.good_request)).
Proof.
  split.
  - apply (proj1 (registration_order Sample.good_world Sample.good_request)
             _ (EvWriteFile (AudioPath "c" 1))
             (skipn 15 (sync (generate_podcast Sample.good_world Sample.good_request)))).
    + vm_compute. reflexivity.
    + left. reflexivity.
    + exact I.
  - destruct (script_stage Sample.good_world Sample.good_request initial)
      as [[t0 s0] r0] eqn:E0.
    assert (Hr0 : r0 = Returned Sample.script /\ s0 = initial).
    { vm_compute in E0. injection E0 as _ <- <-. split; reflexivity. }
    destruct Hr0 as [-> ->].
    destruct (sources_stage Sample.good_world Sample.good_request initial)
      as [[t1 s1] r1] eqn:E1.
    assert (Hr1 : r1 = Returned (SourcePath man "a", SourcePath woman "b")).
    { vm_compute in E1. injection E1 as _ _ <-. reflexivity. }
    subst r1.
    destruct (proj1 (proj2 (proj2 (registration_order Sample.good_world
                                     Sample.good_request)))
                t0 initial Sample.script t1 s1 _ eq_refl eq_refl eq_refl E0 E1)
      as (post & _ & _ & _ & Hall).
    apply Hall. vm_compute. in_list.
Defined.

(** ** What a probe can report, and the sign of it *)






(** ** ffmpeg and the duration *)







Lemma outside_no_probe t p : Forall outside_rendering t -> ~ In (EvFfprobe p) t.
Proof. intros H Hin. rewrite Forall_forall in H. exact (H _ Hin). Qed.












Lemma sample_probe_as_parsed script text :
  (forall x, ffprobe_value text = JNum x -> JsNumber.isFinite x = true) ->
  probe_as_parsed (Sample.world_with script (ffprobe_value text)).
Proof.
  intros Hfin p d E. cbn in E. injection E as <-. right. exists text. auto.
Qed.



(** That run: the helper throws on [toFixed] before ffmpeg is started, the
    answer is 500 with the message of the TypeError, no clip is written. *)
Example text_duration_run :
  let r := generate_podcast (Sample.world_with Sample.script (JStr "N/A"))
             Sample.good_request in
  probe_as_parsed (Sample.world_with Sample.script (JStr "N/A"))
  /\ responses (sync r)
     = [(500, JsonError "durationSeconds.toFixed is not a function")]
  /\ saved_clips (sync r) = [].
Proof.
  split; [| split; reflexivity].
  apply (sample_probe_as_parsed Sample.script "N/A"). intros x E. discriminate E.
Qed.
